(** * data_forge: the PostgreSQL destination and its SCD Type 2 merge

    A shallow embedding of [dags/tasks/destinations/postgres_destination.py]
    (class [PostgresDestination]), of the duplicate-key transform
    [ValidateDuplicateIdsTransform] of
    [dags/tasks/transforms/validation_transforms.py] and of the task
    [load_data] of [dags/dag_builder.py] with the factory of
    [dags/factories/destination_factory.py], followed by the properties the
    specification states about them and by what the code shows besides:
    the merge row by row, whole loads in which nothing fails, the
    temp-table strategy, what never raises, the transform, and the
    canonical strings on data without separators.

    Conventions.
    - A Python [str] is a Rocq [string] holding its UTF-8 bytes, so
      [str.encode()] is the identity on the bytes and Python's code point
      order on strings is the byte order [String.compare].
    - A Python [dict] is an association list in insertion order.
    - The database, the wall clock and the failures of the outside world
      live in an explicit [World] threaded through a state-and-exception
      monad. *)

From Stdlib Require Import ZArith String Ascii List Lia Bool.
From stdpp Require Import base option list sorting gmap strings pretty.

Local Open Scope Z_scope.

(** ** hashlib: MD5 (RFC 1321) and SHA-256 (FIPS 180-4)

    [hashlib.md5(b).hexdigest()] and [hashlib.sha256(b).hexdigest()], on
    32-bit words carried by [Z] with the wrap-around written out. *)
Module Hashlib.

Definition byte_of (c : ascii) : Z := Z.of_N (N_of_ascii c).

Fixpoint encode (s : string) : list Z :=
  match s with
  | EmptyString => []
  | String c rest => byte_of c :: encode rest
  end.

Definition w32 (x : Z) : Z := Z.land x (Z.ones 32).
Definition add32 (a b : Z) : Z := w32 (a + b).
Definition rotl32 (x n : Z) : Z :=
  w32 (Z.lor (Z.shiftl x n) (Z.shiftr x (32 - n))).
Definition rotr32 (x n : Z) : Z := rotl32 x (32 - n).
Definition not32 (x : Z) : Z := Z.lxor x (Z.ones 32).

Definition le_bytes (n : nat) (x : Z) : list Z :=
  map (fun i => Z.land (Z.shiftr x (8 * Z.of_nat i)) 255) (seq 0 n).
Definition be_bytes (n : nat) (x : Z) : list Z := rev (le_bytes n x).

Definition le_word (bs : list Z) : Z := fold_right (fun b acc => b + 256 * acc) 0 bs.
Definition be_word (bs : list Z) : Z := fold_left (fun acc b => acc * 256 + b) bs 0.

(** [groups n fuel l] cuts [l] into consecutive groups of [n] elements. *)
Fixpoint groups {A} (n fuel : nat) (l : list A) : list (list A) :=
  match fuel with
  | O => []
  | S fuel' =>
      match l with
      | [] => []
      | _ => firstn n l :: groups n fuel' (skipn n l)
      end
  end.

Definition zero_pad (len : nat) : list Z :=
  repeat 0 (Z.to_nat ((55 - Z.of_nat len) mod 64)).

Definition hex_digit (d : Z) : ascii :=
  nth (Z.to_nat d) (list_ascii_of_string "0123456789abcdef") "0"%char.

Fixpoint hex_of_bytes (bs : list Z) : string :=
  match bs with
  | [] => EmptyString
  | b :: rest => String (hex_digit (b / 16)) (String (hex_digit (b mod 16)) (hex_of_bytes rest))
  end.

(** *** MD5 *)

Definition md5_K : list Z :=
  [ 0xd76aa478; 0xe8c7b756; 0x242070db; 0xc1bdceee; 0xf57c0faf; 0x4787c62a;
    0xa8304613; 0xfd469501; 0x698098d8; 0x8b44f7af; 0xffff5bb1; 0x895cd7be;
    0x6b901122; 0xfd987193; 0xa679438e; 0x49b40821; 0xf61e2562; 0xc040b340;
    0x265e5a51; 0xe9b6c7aa; 0xd62f105d; 0x02441453; 0xd8a1e681; 0xe7d3fbc8;
    0x21e1cde6; 0xc33707d6; 0xf4d50d87; 0x455a14ed; 0xa9e3e905; 0xfcefa3f8;
    0x676f02d9; 0x8d2a4c8a; 0xfffa3942; 0x8771f681; 0x6d9d6122; 0xfde5380c;
    0xa4beea44; 0x4bdecfa9; 0xf6bb4b60; 0xbebfbc70; 0x289b7ec6; 0xeaa127fa;
    0xd4ef3085; 0x04881d05; 0xd9d4d039; 0xe6db99e5; 0x1fa27cf8; 0xc4ac5665;
    0xf4292244; 0x432aff97; 0xab9423a7; 0xfc93a039; 0x655b59c3; 0x8f0ccc92;
    0xffeff47d; 0x85845dd1; 0x6fa87e4f; 0xfe2ce6e0; 0xa3014314; 0x4e0811a1;
    0xf7537e82; 0xbd3af235; 0x2ad7d2bb; 0xeb86d391 ].

Definition md5_S : list Z :=
  [ 7; 12; 17; 22; 7; 12; 17; 22; 7; 12; 17; 22; 7; 12; 17; 22;
    5; 9; 14; 20; 5; 9; 14; 20; 5; 9; 14; 20; 5; 9; 14; 20;
    4; 11; 16; 23; 4; 11; 16; 23; 4; 11; 16; 23; 4; 11; 16; 23;
    6; 10; 15; 21; 6; 10; 15; 21; 6; 10; 15; 21; 6; 10; 15; 21 ].

Definition md5_pad (msg : list Z) : list Z :=
  msg ++ [0x80] ++ zero_pad (length msg) ++ le_bytes 8 (8 * Z.of_nat (length msg)).

Definition md5_round (M : list Z) (st : Z * Z * Z * Z) (i : nat) : Z * Z * Z * Z :=
  let '(a, b, c, d) := st in
  let iz := Z.of_nat i in
  let '(f, g) :=
    if iz <? 16 then (Z.lor (Z.land b c) (Z.land (not32 b) d), iz)
    else if iz <? 32 then (Z.lor (Z.land d b) (Z.land (not32 d) c), (5 * iz + 1) mod 16)
    else if iz <? 48 then (Z.lxor (Z.lxor b c) d, (3 * iz + 5) mod 16)
    else (Z.lxor c (Z.lor b (not32 d)), (7 * iz) mod 16) in
  let f' := add32 (add32 (add32 f a) (nth i md5_K 0)) (nth (Z.to_nat g) M 0) in
  (d, add32 b (rotl32 f' (nth i md5_S 0)), b, c).

Definition md5_block (st : Z * Z * Z * Z) (block : list Z) : Z * Z * Z * Z :=
  let M := map le_word (groups 4 16 block) in
  let '(a0, b0, c0, d0) := st in
  let '(a, b, c, d) := fold_left (md5_round M) (seq 0 64) st in
  (add32 a0 a, add32 b0 b, add32 c0 c, add32 d0 d).

Definition md5_digest (msg : list Z) : list Z :=
  let padded := md5_pad msg in
  let '(a, b, c, d) :=
    fold_left md5_block (groups 64 (length padded) padded)
      (0x67452301, 0xefcdab89, 0x98badcfe, 0x10325476) in
  le_bytes 4 a ++ le_bytes 4 b ++ le_bytes 4 c ++ le_bytes 4 d.

Definition md5 (s : string) : string := hex_of_bytes (md5_digest (encode s)).

(** *** SHA-256 *)

(** The round constants are the first 32 bits of the fractional parts of
    the cube roots of the first 64 primes, the initial state those of the
    square roots of the first 8. *)
Definition is_prime (n : Z) : bool :=
  forallb (fun d => negb (n mod Z.of_nat d =? 0)) (seq 2 (Z.to_nat n - 2)).

Definition first_primes (count : nat) : list Z :=
  firstn count (List.filter is_prime (map Z.of_nat (seq 2 320))).

(** The integer cube root of a number below [2 ^ 108], bit by bit. *)
Definition cube_root (n : Z) : Z :=
  fold_left (fun r b => let c := r + 2 ^ Z.of_nat b in if c * c * c <=? n then c else r)
            (rev (seq 0 36)) 0.

Definition sha256_K : list Z :=
  Eval vm_compute in map (fun p => w32 (cube_root (p * 2 ^ 96))) (first_primes 64).

Definition sha256_H0 : list Z :=
  Eval vm_compute in map (fun p => w32 (Z.sqrt (p * 2 ^ 64))) (first_primes 8).

Definition sha256_pad (msg : list Z) : list Z :=
  msg ++ [0x80] ++ zero_pad (length msg) ++ be_bytes 8 (8 * Z.of_nat (length msg)).

Definition sha256_extend (w : list Z) (i : nat) : list Z :=
  let w15 := nth (i - 15) w 0 in
  let w2 := nth (i - 2) w 0 in
  let s0 := Z.lxor (Z.lxor (rotr32 w15 7) (rotr32 w15 18)) (Z.shiftr w15 3) in
  let s1 := Z.lxor (Z.lxor (rotr32 w2 17) (rotr32 w2 19)) (Z.shiftr w2 10) in
  w ++ [add32 (add32 (add32 (nth (i - 16) w 0) s0) (nth (i - 7) w 0)) s1].

Definition sha256_round (w : list Z) (st : list Z) (i : nat) : list Z :=
  match st with
  | [a; b; c; d; e; f; g; h] =>
      let S1 := Z.lxor (Z.lxor (rotr32 e 6) (rotr32 e 11)) (rotr32 e 25) in
      let ch := Z.lxor (Z.land e f) (Z.land (not32 e) g) in
      let t1 := add32 (add32 (add32 (add32 h S1) ch) (nth i sha256_K 0)) (nth i w 0) in
      let S0 := Z.lxor (Z.lxor (rotr32 a 2) (rotr32 a 13)) (rotr32 a 22) in
      let maj := Z.lxor (Z.lxor (Z.land a b) (Z.land a c)) (Z.land b c) in
      let t2 := add32 S0 maj in
      [add32 t1 t2; a; b; c; add32 d t1; e; f; g]
  | _ => st
  end.

Definition sha256_block (st : list Z) (block : list Z) : list Z :=
  let w := fold_left sha256_extend (seq 16 48) (map be_word (groups 4 16 block)) in
  map (fun p => add32 (fst p) (snd p))
      (combine st (fold_left (sha256_round w) (seq 0 64) st)).

Definition sha256_digest (msg : list Z) : list Z :=
  let padded := sha256_pad msg in
  flat_map (be_bytes 4)
    (fold_left sha256_block (groups 64 (length padded) padded) sha256_H0).

Definition sha256 (s : string) : string := hex_of_bytes (sha256_digest (encode s)).

End Hashlib.

(** ** Python values and dictionaries *)

(** The scalar values a record holds. A float is carried by its [repr],
    which is what [str()] yields for it. *)
Inductive value : Type :=
  | PyNone
  | PyBool (b : bool)
  | PyInt (n : Z)
  | PyFloat (repr : string)
  | PyStr (s : string).

Global Instance value_eq_dec : EqDecision value.
Proof. solve_decision. Defined.

(** [str(v)], also what an f-string renders for [{v}]. *)
Definition str (v : value) : string :=
  match v with
  | PyNone => "None"
  | PyBool true => "True"
  | PyBool false => "False"
  | PyInt n => pretty n
  | PyFloat repr => repr
  | PyStr s => s
  end.

(** A [Dict[str, Any]] in insertion order; a dictionary has each key once
    ([wf_dict]). *)
Definition record : Type := list (string * value).

Definition wf_dict (r : record) : Prop := NoDup (map fst r).

Definition keys (r : record) : list string := map fst r.

(** [r.get(k)] as an option, [r.get(k, default)] and [r.get(k)] with its
    implicit [None]. *)
Fixpoint dict_get (r : record) (k : string) : option value :=
  match r with
  | [] => None
  | (k', v) :: rest => if String.eqb k' k then Some v else dict_get rest k
  end.

Definition get_default (r : record) (k : string) (default : value) : value :=
  match dict_get r k with Some v => v | None => default end.

Definition get_or_none (r : record) (k : string) : value := get_default r k PyNone.

(** [r[k] = v] on an existing key: the entry keeps its position. *)
Definition dict_replace (r : record) (k : string) (v : value) : record :=
  map (fun kv => if String.eqb (fst kv) k then (k, v) else kv) r.

(** The order of [sorted(record.items())]: tuples compare on the key first,
    and the keys of one dictionary are pairwise distinct, so the values are
    never reached. *)
Definition item_le (x y : string * value) : Prop := String.le (fst x) (fst y).

Global Instance item_le_dec : RelDecision item_le.
Proof. intros x y. unfold item_le. apply _. Defined.

Definition sorted_items (r : record) : list (string * value) :=
  merge_sort item_le r.

(** ** Hashing (RecordEnricher) *)

Definition hexdigest (hash_algorithm : string) (s : string) : string :=
  if String.eqb hash_algorithm "sha256" then Hashlib.sha256 s else Hashlib.md5 s.

Definition render_item (kv : string * value) : string :=
  fst kv +:+ ":" +:+ str (snd kv).

(** [record_str] of [_calculate_record_hash]. *)
Definition record_str (r : record) : string :=
  String.concat "|" (map render_item (sorted_items r)).

Definition _calculate_record_hash (hash_algorithm : string) (r : record) : string :=
  hexdigest hash_algorithm (record_str r).

(** [id_values] and [id_str] of [_calculate_id_hash]. *)
Definition id_values (id_columns : list string) (r : record) : list string :=
  map (fun col => str (get_default r col (PyStr ""))) id_columns.

Definition id_str (id_columns : list string) (r : record) : string :=
  String.concat "|" (id_values id_columns r).

Definition _calculate_id_hash (hash_algorithm : string) (id_columns : list string)
    (r : record) : string :=
  hexdigest hash_algorithm (id_str id_columns r).

(** [ValidateDuplicateIdsTransform._find_duplicates]: the identifying tuple of
    a row, and whether a batch has a tuple that occurs more than once. *)
Definition id_tuple (id_columns : list string) (row : record) : list string :=
  map (fun col => str (get_default row col (PyStr ""))) id_columns.

Definition has_duplicates (id_columns : list string) (data : list record) : bool :=
  negb (bool_decide (NoDup (map (id_tuple id_columns) data))).

(** ** Configuration and the destination object *)

(** The [historization] sub-dictionary of the configuration; an absent key
    is [None]. *)
Record HistorizationConfig : Type := {
  cfg_enabled : option bool;
  cfg_id_columns : option (list string);
  cfg_hash_algorithm : option string;
  cfg_track_deletes : option bool;
}.

(** The configuration dictionary handed to [PostgresDestination(config)]. *)
Record Config : Type := {
  cfg_type : option string;
  cfg_postgres_conn_id : option string;
  cfg_schema : option string;
  cfg_table_name : option string;
  cfg_write_mode : option string;
  cfg_create_table : option bool;
  cfg_temp_table_threshold : option Z;
  cfg_historization : option HistorizationConfig;
}.

(** [config.get("historization", {})] when the key is absent. *)
Definition empty_historization : HistorizationConfig :=
  {| cfg_enabled := None; cfg_id_columns := None;
     cfg_hash_algorithm := None; cfg_track_deletes := None |}.

(** The attributes [__init__] sets on [self]. *)
Record PostgresDestination : Type := {
  config : Config;
  postgres_conn_id : string;
  schema : string;
  table_name : string;
  write_mode : string;
  create_table : bool;
  temp_table_threshold : Z;
  historization_config : HistorizationConfig;
  historization_enabled : bool;
  id_columns : list string;
  hash_algorithm : string;
  track_deletes : bool;
  temp_table_name : option string;
  staging_table_name : option string;
  use_temp_table : bool;
}.

(** [f"{x}"] for an attribute that is a string or still [None]. *)
Definition fmt_name (name : option string) : string :=
  match name with Some s => s | None => "None" end.

(** ** Rows and relations *)

Definition timestamp : Type := Z.

(** An enriched record, and a row of a historized or staging relation: the
    data columns and the nine system columns, typed as the DDL of
    [_create_table_from_data] declares them. *)
Record Row : Type := {
  columns : record;
  _record_hash : string;
  _id_hash : string;
  _valid_from : timestamp;
  _valid_to : option timestamp;
  _deleted_at : option timestamp;
  _loaded_at : timestamp;
  _pipeline_run_id : option string;
  _source_system : string;
  _load_batch_id : string;
}.

Global Instance Row_eq_dec : EqDecision Row.
Proof. solve_decision. Defined.

Definition system_columns : list string :=
  [ "_record_hash"; "_id_hash"; "_valid_from"; "_valid_to"; "_deleted_at";
    "_loaded_at"; "_pipeline_run_id"; "_source_system"; "_load_batch_id" ].

Definition is_system_column (c : string) : bool :=
  bool_decide (c ∈ system_columns).

(** [col.startswith("_")] *)
Definition startswith_underscore (c : string) : bool := String.prefix "_" c.

(** A relation holds plain records (a table created without the system
    columns) or rows with the system columns. The rows are listed in the
    order the statements of the model put them; a table has no order, and
    where a property below tells which rows a table holds after rows were
    added, it tells so up to permutation. *)
Inductive Relation : Type :=
  | PlainRel (rows : list record)
  | HistRel (rows : list Row).

(** A table as the SQL text names it: [{schema}.{name}] or a bare name. *)
Inductive table_ref : Type :=
  | Qualified (sch name : string)
  | Bare (name : string).

Global Instance table_ref_eq_dec : EqDecision table_ref.
Proof. solve_decision. Defined.

(** What one session sees: the permanent relations and its own temporary
    ones. *)
Record Store : Type := {
  perm : gmap (string * string) Relation;
  temp : gmap string Relation;
}.

(** A bare name finds the session's temporary relation first, then the
    default schema. *)
Definition resolve (st : Store) (t : table_ref) : option Relation :=
  match t with
  | Qualified s n => perm st !! (s, n)
  | Bare n =>
      match temp st !! n with
      | Some r => Some r
      | None => perm st !! ("public", n)
      end
  end.

Definition store_put (st : Store) (t : table_ref) (r : Relation) : Store :=
  match t with
  | Qualified s n => {| perm := <[(s, n) := r]> (perm st); temp := temp st |}
  | Bare n =>
      match temp st !! n with
      | Some _ => {| perm := perm st; temp := <[n := r]> (temp st) |}
      | None => {| perm := <[("public", n) := r]> (perm st); temp := temp st |}
      end
  end.

Definition store_drop (st : Store) (t : table_ref) : Store :=
  match t with
  | Qualified s n => {| perm := delete (s, n) (perm st); temp := temp st |}
  | Bare n =>
      match temp st !! n with
      | Some _ => {| perm := perm st; temp := delete n (temp st) |}
      | None => {| perm := delete ("public", n) (perm st); temp := temp st |}
      end
  end.

(** ** The four statements of the merge, as functions on rows

    Each definition is the [WHERE] or [SET] clause of the statement of the
    same name in [_merge_historized_data]; [ts] is the interpolated
    [current_timestamp]. Both hash columns are [NOT NULL] text, so [=] and
    [!=] are two-valued. *)

Definition is_null {A} (o : option A) : bool :=
  match o with None => true | Some _ => false end.

(** [EXISTS (SELECT 1 FROM staging s WHERE s._id_hash = t._id_hash)] *)
Definition exists_id (staging : list Row) (t : Row) : bool :=
  existsb (fun s => String.eqb (_id_hash s) (_id_hash t)) staging.

Definition restore_where (staging : list Row) (t : Row) : bool :=
  negb (is_null (_deleted_at t)) && is_null (_valid_to t) && exists_id staging t.

Definition restore_set (ts : timestamp) (t : Row) : Row :=
  {| columns := columns t; _record_hash := _record_hash t; _id_hash := _id_hash t;
     _valid_from := ts; _valid_to := _valid_to t; _deleted_at := None;
     _loaded_at := _loaded_at t; _pipeline_run_id := _pipeline_run_id t;
     _source_system := _source_system t; _load_batch_id := _load_batch_id t |}.

Definition supersede_where (staging : list Row) (t : Row) : bool :=
  is_null (_valid_to t) && is_null (_deleted_at t)
  && existsb (fun s => String.eqb (_id_hash s) (_id_hash t)
                       && negb (String.eqb (_record_hash s) (_record_hash t))) staging.

Definition supersede_set (ts : timestamp) (t : Row) : Row :=
  {| columns := columns t; _record_hash := _record_hash t; _id_hash := _id_hash t;
     _valid_from := _valid_from t; _valid_to := Some ts; _deleted_at := _deleted_at t;
     _loaded_at := _loaded_at t; _pipeline_run_id := _pipeline_run_id t;
     _source_system := _source_system t; _load_batch_id := _load_batch_id t |}.

(** The [WHERE NOT EXISTS (...)] of the insert, for a staging row [s]. *)
Definition insert_where (target : list Row) (s : Row) : bool :=
  negb (existsb (fun t => String.eqb (_id_hash t) (_id_hash s)
                          && String.eqb (_record_hash t) (_record_hash s)
                          && is_null (_valid_to t) && is_null (_deleted_at t)) target).

(** The [SELECT] list of the insert. *)
Definition insert_select (ts : timestamp) (data_columns : list string) (s : Row) : Row :=
  {| columns := map (fun c => (c, get_or_none (columns s) c)) data_columns;
     _record_hash := _record_hash s; _id_hash := _id_hash s;
     _valid_from := ts; _valid_to := None; _deleted_at := None;
     _loaded_at := ts; _pipeline_run_id := _pipeline_run_id s;
     _source_system := _source_system s; _load_batch_id := _load_batch_id s |}.

Definition delete_where (staging : list Row) (t : Row) : bool :=
  is_null (_valid_to t) && is_null (_deleted_at t) && negb (exists_id staging t).

Definition delete_set (ts : timestamp) (t : Row) : Row :=
  {| columns := columns t; _record_hash := _record_hash t; _id_hash := _id_hash t;
     _valid_from := _valid_from t; _valid_to := _valid_to t; _deleted_at := Some ts;
     _loaded_at := _loaded_at t; _pipeline_run_id := _pipeline_run_id t;
     _source_system := _source_system t; _load_batch_id := _load_batch_id t |}.

(** [UPDATE ... SET ... WHERE ...]: the rows after the update and
    [cursor.rowcount]. *)
Definition sql_update (where_ : Row -> bool) (set : Row -> Row) (rows : list Row)
    : list Row * nat :=
  (map (fun t => if where_ t then set t else t) rows,
   length (List.filter where_ rows)).

(** [INSERT INTO target ... SELECT ... FROM staging s WHERE NOT EXISTS ...]:
    the subquery reads the target as it is before the statement. *)
Definition sql_insert_select (ts : timestamp) (data_columns : list string)
    (staging target : list Row) : list Row * nat :=
  let new_rows := map (insert_select ts data_columns)
                      (List.filter (insert_where target) staging) in
  (target ++ new_rows, length new_rows).

Definition restore_phase (ts : timestamp) (staging target : list Row) : list Row :=
  fst (sql_update (restore_where staging) (restore_set ts) target).
Definition supersede_phase (ts : timestamp) (staging target : list Row) : list Row :=
  fst (sql_update (supersede_where staging) (supersede_set ts) target).
Definition insert_phase (ts : timestamp) (data_columns : list string)
    (staging target : list Row) : list Row :=
  fst (sql_insert_select ts data_columns staging target).
Definition delete_phase (ts : timestamp) (staging target : list Row) : list Row :=
  fst (sql_update (delete_where staging) (delete_set ts) target).

(** ** SQL statements and their effect on a session's store *)

Inductive Stmt : Type :=
  | CreateTableIfNotExists (temporary : bool) (t : table_ref) (with_system_columns : bool)
  | CreateTemporaryTable (name : string)
  | CreateIndexIfNotExists (index : string) (t : table_ref)
  | TruncateTable (t : table_ref)
  | InsertRecords (t : table_ref) (rows : list record)
  | InsertEnriched (t : table_ref) (rows : list Row)
  | SelectLimit1 (t : table_ref)
  | Begin
  | Commit
  | Rollback
  | RestoreSql (target staging : table_ref) (ts : timestamp)
  | SupersedeSql (target staging : table_ref) (ts : timestamp)
  | InsertSql (target staging : table_ref) (ts : timestamp) (data_columns : list string)
  | DeleteSql (target staging : table_ref) (ts : timestamp)
  | DropTableIfExists (t : table_ref)
  | DropTable (t : table_ref)
  | AlterTableRename (t : table_ref) (new_name : string)
  | InsertSelectAll (target source : table_ref).

(** What the cursor holds after a statement: [rowcount], whether
    [fetchone()] yields a row, and the column names of [description]. *)
Record Answer : Type := {
  rowcount : nat;
  fetched : bool;
  description : list string;
}.

Definition affected (n : nat) : Answer :=
  {| rowcount := n; fetched := false; description := [] |}.

Definition empty_relation (with_system_columns : bool) : Relation :=
  if with_system_columns then HistRel [] else PlainRel [].

(** An [UPDATE] of a historized target that reads the staging relation. *)
Definition exec_update (st : Store) (target staging : table_ref)
    (upd : list Row -> list Row -> list Row * nat) : option (Store * Answer) :=
  match resolve st target, resolve st staging with
  | Some (HistRel tgt), Some (HistRel stg) =>
      let '(tgt', n) := upd stg tgt in
      Some (store_put st target (HistRel tgt'), affected n)
  | _, _ => None
  end.

(** [exec_stmt s st] is [None] when the server rejects the statement: a
    relation that does not exist or lacks the columns named, a name already
    taken, an empty column list.

    A relation carries no column types, and identifiers are kept as the
    statement writes them. PostgreSQL folds an unquoted identifier to lower
    case and cuts it after 63 bytes: the names are exact for the identifiers
    that are in lower case and short enough ([plain_identifier] below), and
    the properties that tell which columns a table holds assume that. What a
    server refuses for the type or the range of a value, or for a column the
    table does not have, is among the failures of [faults]. *)
Definition exec_stmt (s : Stmt) (st : Store) : option (Store * Answer) :=
  match s with
  | CreateTableIfNotExists true (Bare n) sys =>
      match temp st !! n with
      | Some _ => Some (st, affected 0)
      | None => Some ({| perm := perm st; temp := <[n := empty_relation sys]> (temp st) |},
                      affected 0)
      end
  | CreateTableIfNotExists true (Qualified _ _) _ => None
  | CreateTableIfNotExists false t sys =>
      let key := match t with Qualified s n => (s, n) | Bare n => ("public", n) end in
      match perm st !! key with
      | Some _ => Some (st, affected 0)
      | None => Some ({| perm := <[key := empty_relation sys]> (perm st); temp := temp st |},
                      affected 0)
      end
  | CreateTemporaryTable n =>
      match temp st !! n with
      | Some _ => None
      | None => Some ({| perm := perm st; temp := <[n := HistRel []]> (temp st) |}, affected 0)
      end
  | CreateIndexIfNotExists _ t =>
      match resolve st t with
      | Some _ => Some (st, affected 0)
      | None => None
      end
  | TruncateTable t =>
      match resolve st t with
      | Some (PlainRel _) => Some (store_put st t (PlainRel []), affected 0)
      | Some (HistRel _) => Some (store_put st t (HistRel []), affected 0)
      | None => None
      end
  | InsertRecords t rows =>
      match resolve st t with
      | Some (PlainRel old) => Some (store_put st t (PlainRel (old ++ rows)), affected (length rows))
      | _ => None
      end
  | InsertEnriched t rows =>
      match resolve st t with
      | Some (HistRel old) => Some (store_put st t (HistRel (old ++ rows)), affected (length rows))
      | _ => None
      end
  | SelectLimit1 t =>
      match resolve st t with
      | Some (HistRel (r :: _)) =>
          Some (st, {| rowcount := 1; fetched := true;
                       description := keys (columns r) ++ system_columns |})
      | Some (PlainRel (r :: _)) =>
          Some (st, {| rowcount := 1; fetched := true; description := keys r |})
      | Some _ => Some (st, {| rowcount := 0; fetched := false; description := [] |})
      | None => None
      end
  | Begin | Commit | Rollback => Some (st, affected 0)
  | RestoreSql target staging ts =>
      exec_update st target staging
        (fun stg tgt => sql_update (restore_where stg) (restore_set ts) tgt)
  | SupersedeSql target staging ts =>
      exec_update st target staging
        (fun stg tgt => sql_update (supersede_where stg) (supersede_set ts) tgt)
  | InsertSql target staging ts data_columns =>
      match data_columns with
      | [] => None
      | _ => exec_update st target staging
               (fun stg tgt => sql_insert_select ts data_columns stg tgt)
      end
  | DeleteSql target staging ts =>
      exec_update st target staging
        (fun stg tgt => sql_update (delete_where stg) (delete_set ts) tgt)
  | DropTableIfExists t =>
      match resolve st t with
      | Some _ => Some (store_drop st t, affected 0)
      | None => Some (st, affected 0)
      end
  | DropTable t =>
      match resolve st t with
      | Some _ => Some (store_drop st t, affected 0)
      | None => None
      end
  | AlterTableRename (Qualified s n) new_name =>
      match perm st !! (s, n), perm st !! (s, new_name) with
      | Some r, None =>
          Some ({| perm := <[(s, new_name) := r]> (delete (s, n) (perm st));
                   temp := temp st |}, affected 0)
      | _, _ => None
      end
  | AlterTableRename (Bare _) _ => None
  | InsertSelectAll target source =>
      match resolve st target, resolve st source with
      | Some (PlainRel old), Some (PlainRel rows) =>
          Some (store_put st target (PlainRel (old ++ rows)), affected (length rows))
      | Some (HistRel old), Some (HistRel rows) =>
          Some (store_put st target (HistRel (old ++ rows)), affected (length rows))
      | _, _ => None
      end
  end.

(** ** The outside world: database, connection, clock, failures *)

(** The calls that leave the process. *)
Inductive Op : Type :=
  | OpConnect
  | OpCursor
  | OpExecute (s : Stmt)
  | OpCommit
  | OpRollback
  | OpCursorClose
  | OpClose.

(** An open connection: the store its transaction works on, the temporary
    relations of its last commit, and whether the transaction is aborted by
    a failed statement. *)
Record Session : Type := {
  work : Store;
  temp_saved : gmap string Relation;
  aborted : bool;
}.

(** [db] holds the committed permanent relations; [clock] gives the reading
    of the [n]-th look at the wall clock; [faults n] tells whether the
    [n]-th external call fails for a reason of its own (lost connection,
    timeout, constraint, type mismatch), in which case it has no effect
    besides aborting the transaction of a statement; [trace] lists the
    external calls made so far with their success. One load runs alone on
    its target: the scheduler is required to allow no concurrent one. *)
Record World : Type := {
  db : gmap (string * string) Relation;
  session : option Session;
  clock : nat -> Z;
  ticks : nat;
  faults : nat -> bool;
  trace : list (Op * bool);
}.

Definition with_session (w : World) (s : option Session) : World :=
  {| db := db w; session := s; clock := clock w; ticks := ticks w;
     faults := faults w; trace := trace w |}.

Definition with_db (w : World) (d : gmap (string * string) Relation) : World :=
  {| db := d; session := session w; clock := clock w; ticks := ticks w;
     faults := faults w; trace := trace w |}.

Definition record_op (op : Op) (ok : bool) (w : World) : World :=
  {| db := db w; session := session w; clock := clock w; ticks := ticks w;
     faults := faults w; trace := trace w ++ [(op, ok)] |}.

Definition fault_now (w : World) : bool := faults w (length (trace w)).

(** ** Exceptions and the monad of effects *)

Inductive Exn : Type :=
  | ValueError (msg : string)
  | DatabaseError (msg : string).

(** [str(e)] *)
Definition exn_str (e : Exn) : string :=
  match e with ValueError msg => msg | DatabaseError msg => msg end.

Inductive Outcome (A : Type) : Type :=
  | Returns (a : A)
  | Raises (e : Exn).
Arguments Returns {A} a.
Arguments Raises {A} e.

Definition M (A : Type) : Type := World -> Outcome A * World.

Definition ret {A} (a : A) : M A := fun w => (Returns a, w).

Definition bind {A B} (m : M A) (k : A -> M B) : M B :=
  fun w => match m w with
           | (Returns a, w') => k a w'
           | (Raises e, w') => (Raises e, w')
           end.

Definition raise {A} (e : Exn) : M A := fun w => (Raises e, w).

(** [try: body except Exception as e: handler(e)] *)
Definition try_except {A} (body : M A) (handler : Exn -> M A) : M A :=
  fun w => match body w with
           | (Returns a, w') => (Returns a, w')
           | (Raises e, w') => handler e w'
           end.

Declare Scope py_scope.
Delimit Scope py_scope with py.
Notation "x <- m ;; k" := (bind m (fun x => k))
  (at level 100, m at next level, right associativity) : py_scope.
Notation "m ;; k" := (bind m (fun _ => k))
  (at level 100, right associativity) : py_scope.
Local Open Scope py_scope.

(** [try: body except: pass] *)
Definition try_pass (body : M unit) : M unit :=
  try_except body (fun _ => ret tt).

Definition when (b : bool) (m : M unit) : M unit := if b then m else ret tt.

(** [try: body finally: cleanup], which is what [with closing(x): body] is
    with [x.close()] as cleanup: the cleanup runs however the body ends, and
    an exception of the cleanup replaces the one of the body. *)
Definition finally {A} (body : M A) (cleanup : M unit) : M A :=
  fun w => match body w with
           | (Returns a, w') => (cleanup ;; ret a) w'
           | (Raises e, w') => (cleanup ;; raise e) w'
           end.

Fixpoint for_each {A B} (f : A -> M B) (l : list A) : M (list B) :=
  match l with
  | [] => ret []
  | x :: rest => (y <- f x ;; ys <- for_each f rest ;; ret (y :: ys))
  end.

Fixpoint for_each_ {A} (f : A -> M unit) (l : list A) : M unit :=
  match l with
  | [] => ret tt
  | x :: rest => (f x ;; for_each_ f rest)
  end.

(** [time.time()] and [datetime.now()]: one look at the clock. *)
Definition time_time : M Z :=
  fun w => (Returns (clock w (ticks w)),
            {| db := db w; session := session w; clock := clock w;
               ticks := S (ticks w); faults := faults w; trace := trace w |}).

Definition datetime_now : M timestamp := time_time.

(** ** The connection (psycopg2, not in autocommit) *)

Definition fresh_session (w : World) : Session :=
  {| work := {| perm := db w; temp := ∅ |}; temp_saved := ∅; aborted := false |}.

(** [hook.get_conn()] *)
Definition hook_get_conn : M unit :=
  fun w =>
    if fault_now w
    then (Raises (DatabaseError "could not connect"), record_op OpConnect false w)
    else (Returns tt, record_op OpConnect true (with_session w (Some (fresh_session w)))).

(** The transaction ends: a clean one is published, an aborted one is
    undone. *)
Definition commit_session (ss : Session) (w : World) : World :=
  if aborted ss
  then with_session w
         (Some {| work := {| perm := db w; temp := temp_saved ss |};
                  temp_saved := temp_saved ss; aborted := false |})
  else with_session (with_db w (perm (work ss)))
         (Some {| work := work ss; temp_saved := temp (work ss); aborted := false |}).

Definition rollback_session (ss : Session) (w : World) : World :=
  with_session w
    (Some {| work := {| perm := db w; temp := temp_saved ss |};
             temp_saved := temp_saved ss; aborted := false |}).

Definition abort_session (ss : Session) (w : World) : World :=
  with_session w
    (Some {| work := work ss; temp_saved := temp_saved ss; aborted := true |}).

(** [cursor.execute(sql)] and [cursor.executemany(sql, rows)] *)
Definition cursor_execute (s : Stmt) : M Answer :=
  fun w =>
    match session w with
    | None => (Raises (DatabaseError "connection already closed"),
               record_op (OpExecute s) false w)
    | Some ss =>
        if fault_now w
        then (Raises (DatabaseError "statement failed"),
              record_op (OpExecute s) false (abort_session ss w))
        else
          match s with
          | Commit => (Returns (affected 0), record_op (OpExecute s) true (commit_session ss w))
          | Rollback => (Returns (affected 0), record_op (OpExecute s) true (rollback_session ss w))
          | _ =>
              if aborted ss
              then (Raises (DatabaseError "current transaction is aborted"),
                    record_op (OpExecute s) false w)
              else
                match exec_stmt s (work ss) with
                | Some (st', ans) =>
                    (Returns ans,
                     record_op (OpExecute s) true
                       (with_session w
                          (Some {| work := st'; temp_saved := temp_saved ss;
                                   aborted := false |})))
                | None =>
                    (Raises (DatabaseError "statement rejected"),
                     record_op (OpExecute s) false (abort_session ss w))
                end
          end
    end.

(** [conn.commit()] *)
Definition conn_commit : M unit :=
  fun w =>
    match session w with
    | None => (Raises (DatabaseError "connection already closed"), record_op OpCommit false w)
    | Some ss =>
        if fault_now w
        then (Raises (DatabaseError "commit failed"), record_op OpCommit false w)
        else (Returns tt, record_op OpCommit true (commit_session ss w))
    end.

(** [conn.rollback()] *)
Definition conn_rollback : M unit :=
  fun w =>
    match session w with
    | None => (Raises (DatabaseError "connection already closed"), record_op OpRollback false w)
    | Some ss =>
        if fault_now w
        then (Raises (DatabaseError "rollback failed"), record_op OpRollback false w)
        else (Returns tt, record_op OpRollback true (rollback_session ss w))
    end.

(** [conn.cursor()] *)
Definition conn_cursor : M unit :=
  fun w =>
    match session w with
    | None => (Raises (DatabaseError "connection already closed"), record_op OpCursor false w)
    | Some _ =>
        if fault_now w
        then (Raises (DatabaseError "cursor failed"), record_op OpCursor false w)
        else (Returns tt, record_op OpCursor true w)
    end.

(** [cursor.close()] *)
Definition cursor_close : M unit :=
  fun w =>
    if fault_now w
    then (Raises (DatabaseError "close failed"), record_op OpCursorClose false w)
    else (Returns tt, record_op OpCursorClose true w).

(** [conn.close()]: what was not committed is gone with the session. *)
Definition conn_close : M unit :=
  fun w =>
    if fault_now w
    then (Raises (DatabaseError "close failed"), record_op OpClose false w)
    else (Returns tt, record_op OpClose true (with_session w None)).

(** ** The Airflow hook

    [DbApiHook.run] and [DbApiHook.insert_rows] of the common SQL provider,
    which [PostgresHook] inherits, as the Airflow release the DAGs import
    ([airflow.sdk]) has them; both work under [with closing(conn)] and
    [with closing(conn.cursor())].

    [run(sql)] takes a connection of its own, executes the statements on a
    cursor, closes the cursor, commits and closes the connection.

    [insert_rows(table, rows, commit_every=n)] takes a connection of its
    own, commits at once (an empty transaction), then sends the rows in
    chunks of [n] with [executemany], committing after every chunk, closes
    the cursor and closes the connection: the calls of a run in which
    nothing fails are connect, commit, cursor, (executemany, commit) per
    chunk, cursor close, close. *)
Definition hook_run (stmts : list Stmt) : M unit :=
  hook_get_conn ;;
  finally
    (conn_cursor ;;
     finally (for_each_ (fun s => _ <- cursor_execute s ;; ret tt) stmts)
             cursor_close ;;
     conn_commit)
    conn_close.

Fixpoint batches {A} (n fuel : nat) (l : list A) : list (list A) :=
  match fuel with
  | O => []
  | S fuel' =>
      match l with
      | [] => []
      | _ => firstn n l :: batches n fuel' (skipn n l)
      end
  end.

Definition hook_insert_rows (t : table_ref) (rows : list record) (commit_every : nat)
    : M unit :=
  hook_get_conn ;;
  finally
    (conn_commit ;;
     conn_cursor ;;
     finally (for_each_ (fun chunk => _ <- cursor_execute (InsertRecords t chunk) ;;
                                      conn_commit)
                        (batches commit_every (length rows) rows))
             cursor_close)
    conn_close.

(** ** PostgresDestination *)

Definition write_modes : list string := ["append"; "truncate"; "replace"; "historize"].
Definition hash_algorithms : list string := ["md5"; "sha256"].

(** [not config.get("table_name")] and [not historization.get("id_columns")] *)
Definition falsy_str (o : option string) : bool :=
  match o with None => true | Some s => String.eqb s "" end.
Definition falsy_list {A} (o : option (list A)) : bool :=
  match o with None => true | Some [] => true | Some _ => false end.

Definition validate_config (cfg : Config) : M unit :=
  if falsy_str (cfg_table_name cfg)
  then raise (ValueError "Missing required configuration field: table_name")
  else
    let write_mode := default "historize" (cfg_write_mode cfg) in
    if negb (bool_decide (write_mode ∈ write_modes))
    then raise (ValueError ("Invalid write_mode '" +:+ write_mode
                  +:+ "'. Must be 'append', 'truncate', 'replace', or 'historize'"))
    else if String.eqb write_mode "historize"
    then
      let historization := default empty_historization (cfg_historization cfg) in
      if falsy_list (cfg_id_columns historization)
      then raise (ValueError "historization.id_columns is required when write_mode='historize'")
      else
        let hash_algo := default "md5" (cfg_hash_algorithm historization) in
        if negb (bool_decide (hash_algo ∈ hash_algorithms))
        then raise (ValueError ("Invalid hash_algorithm '" +:+ hash_algo
                      +:+ "'. Must be 'md5' or 'sha256'"))
        else ret tt
    else ret tt.

Definition __init__ (cfg : Config) : M PostgresDestination :=
  validate_config cfg ;;
  let write_mode := default "historize" (cfg_write_mode cfg) in
  let historization_config := default empty_historization (cfg_historization cfg) in
  ret {| config := cfg;
         postgres_conn_id := default "postgres_default" (cfg_postgres_conn_id cfg);
         schema := default "public" (cfg_schema cfg);
         table_name := default "" (cfg_table_name cfg);
         write_mode := write_mode;
         create_table := default true (cfg_create_table cfg);
         temp_table_threshold := default 1000 (cfg_temp_table_threshold cfg);
         historization_config := historization_config;
         historization_enabled :=
           if String.eqb write_mode "historize"
           then default true (cfg_enabled historization_config) else false;
         id_columns := default [] (cfg_id_columns historization_config);
         hash_algorithm := default "md5" (cfg_hash_algorithm historization_config);
         track_deletes := default true (cfg_track_deletes historization_config);
         temp_table_name := None;
         staging_table_name := None;
         use_temp_table := false |}.

Definition set_staging_table_name (self : PostgresDestination) (name : string)
    : PostgresDestination :=
  {| config := config self; postgres_conn_id := postgres_conn_id self;
     schema := schema self; table_name := table_name self;
     write_mode := write_mode self; create_table := create_table self;
     temp_table_threshold := temp_table_threshold self;
     historization_config := historization_config self;
     historization_enabled := historization_enabled self;
     id_columns := id_columns self; hash_algorithm := hash_algorithm self;
     track_deletes := track_deletes self;
     temp_table_name := temp_table_name self;
     staging_table_name := Some name;
     use_temp_table := use_temp_table self |}.

Definition set_use_temp_table (self : PostgresDestination) (b : bool)
    : PostgresDestination :=
  {| config := config self; postgres_conn_id := postgres_conn_id self;
     schema := schema self; table_name := table_name self;
     write_mode := write_mode self; create_table := create_table self;
     temp_table_threshold := temp_table_threshold self;
     historization_config := historization_config self;
     historization_enabled := historization_enabled self;
     id_columns := id_columns self; hash_algorithm := hash_algorithm self;
     track_deletes := track_deletes self;
     temp_table_name := temp_table_name self;
     staging_table_name := staging_table_name self;
     use_temp_table := b |}.

Definition set_temp_table_name (self : PostgresDestination) (name : string)
    : PostgresDestination :=
  {| config := config self; postgres_conn_id := postgres_conn_id self;
     schema := schema self; table_name := table_name self;
     write_mode := write_mode self; create_table := create_table self;
     temp_table_threshold := temp_table_threshold self;
     historization_config := historization_config self;
     historization_enabled := historization_enabled self;
     id_columns := id_columns self; hash_algorithm := hash_algorithm self;
     track_deletes := track_deletes self;
     temp_table_name := Some name;
     staging_table_name := staging_table_name self;
     use_temp_table := use_temp_table self |}.

(** The Airflow context as far as the enrichment reads it: the [dag_id] and
    [run_id] of [context["dag_run"]], if any. *)
Definition Context : Type := option (string * string).

Definition enrich_record (self : PostgresDestination) (current_timestamp : timestamp)
    (pipeline_run_id : option string) (r : record) : M Row :=
  let record_hash := _calculate_record_hash (hash_algorithm self) r in
  let id_hash := _calculate_id_hash (hash_algorithm self) (id_columns self) r in
  t <- time_time ;;
  ret {| columns := List.filter (fun kv => negb (is_system_column (fst kv))) r;
         _record_hash := record_hash;
         _id_hash := id_hash;
         _valid_from := current_timestamp;
         _valid_to := None;
         _deleted_at := None;
         _loaded_at := current_timestamp;
         _pipeline_run_id := pipeline_run_id;
         _source_system := default "unknown" (cfg_type (config self));
         _load_batch_id := table_name self +:+ "_" +:+ pretty t |}.

Definition _enrich_with_system_columns (self : PostgresDestination)
    (data : list record) (context : Context) : M (list Row) :=
  current_timestamp <- datetime_now ;;
  let pipeline_run_id :=
    match context with
    | Some (dag_id, run_id) => Some (dag_id +:+ "_" +:+ run_id)
    | None => None
    end in
  for_each (enrich_record self current_timestamp pipeline_run_id) data.

Definition index_names : list string :=
  ["id_hash"; "record_hash"; "valid_to"; "deleted_at"].

Definition _create_indexes (self : PostgresDestination) (name : string) : M unit :=
  for_each_
    (fun col => try_pass (hook_run [CreateIndexIfNotExists
                                      ("idx_" +:+ name +:+ "_" +:+ col)
                                      (Qualified (schema self) name)]))
    index_names.

Definition _create_table_from_data (self : PostgresDestination) (name : string)
    (data : list record) (is_temp include_system_columns : bool) : M unit :=
  match data with
  | [] => ret tt
  | _ =>
      let with_system := include_system_columns && historization_enabled self in
      let table_ref := if is_temp then Bare name else Qualified (schema self) name in
      hook_run [CreateTableIfNotExists is_temp table_ref with_system] ;;
      when (with_system && negb is_temp) (_create_indexes self name)
  end.

Definition _create_staging_table_with_conn (self : PostgresDestination)
    (enriched_data : list Row) : M unit :=
  match enriched_data with
  | [] => ret tt
  | _ => (_ <- cursor_execute (CreateTemporaryTable (fmt_name (staging_table_name self))) ;;
          ret tt)
  end.

(** [pre_load_hook] returns [self] as it leaves it. *)
Definition pre_load_hook (self : PostgresDestination) (data : list record)
    : M PostgresDestination :=
  match data with
  | [] => ret self
  | _ =>
      if String.eqb (write_mode self) "historize"
      then
        t <- time_time ;;
        let self := set_staging_table_name self
                      (table_name self +:+ "_staging_" +:+ pretty t) in
        when (create_table self)
             (_create_table_from_data self (table_name self) data false true) ;;
        ret self
      else
        let self := set_use_temp_table self
                      (Z.of_nat (length data) >? temp_table_threshold self)%Z in
        if use_temp_table self
        then
          t <- time_time ;;
          let self := set_temp_table_name self
                        (table_name self +:+ "_temp_" +:+ pretty t) in
          when (create_table self)
               (_create_table_from_data self (fmt_name (temp_table_name self)) data true false) ;;
          ret self
        else
          when (create_table self)
               (_create_table_from_data self (table_name self) data false false) ;;
          when (String.eqb (write_mode self) "truncate")
               (hook_run [TruncateTable (Qualified (schema self) (table_name self))]) ;;
          ret self
  end.

Definition _swap_tables (self : PostgresDestination) : M unit :=
  let target := Qualified (schema self) (table_name self) in
  let shadow := Qualified (schema self) (fmt_name (temp_table_name self)) in
  if String.eqb (write_mode self) "replace"
  then hook_run [Begin; DropTableIfExists target;
                 AlterTableRename shadow (table_name self); Commit]
  else
    let truncate_sql :=
      if String.eqb (write_mode self) "truncate" then [TruncateTable target] else [] in
    hook_run ([Begin] ++ truncate_sql ++ [InsertSelectAll target shadow; DropTable shadow; Commit]).

Record MergeStats : Type := {
  restored : nat;
  superseded : nat;
  inserted : nat;
  deleted : nat;
}.

(** [_merge_historized_data(hook, staging_table, target_table, conn)];
    [conn_given] is whether a connection is passed.

    The handler of the [try] starts with [cursor.execute("ROLLBACK")] on
    whatever the name [cursor] holds. When [conn.cursor()] at the head of
    the [try] fails, that is still the cursor closed after the sample
    query; when [conn.commit()] at its end fails, it is the cursor closed
    the line before. On a closed cursor [execute] raises without reaching
    the server, so in these two cases the handler does nothing before it
    re-raises. *)
Definition _merge_historized_data (self : PostgresDestination)
    (staging_table target_table : string) (conn_given : bool) : M MergeStats :=
  current_timestamp <- datetime_now ;;
  let target_table_ref := Qualified (schema self) target_table in
  let staging := Bare staging_table in
  when (negb conn_given) hook_get_conn ;;
  conn_cursor ;;
  sample <- cursor_execute (SelectLimit1 staging) ;;
  let all_columns := description sample in
  let result := fetched sample in
  cursor_close ;;
  let insert_sql :=
    if result
    then Some (InsertSql target_table_ref staging current_timestamp
                 (List.filter (fun col => negb (startswith_underscore col)) all_columns))
    else None in
  let delete_sql :=
    if track_deletes self
    then Some (DeleteSql target_table_ref staging current_timestamp)
    else None in
  conn_cursor ;;
  stats <-
    try_except
      (cursor_execute Begin ;;
       r <- cursor_execute (RestoreSql target_table_ref staging current_timestamp) ;;
       s <- cursor_execute (SupersedeSql target_table_ref staging current_timestamp) ;;
       i <- match insert_sql with
            | Some sql => (a <- cursor_execute sql ;; ret (rowcount a))
            | None => ret O
            end ;;
       d <- match delete_sql with
            | Some sql => (a <- cursor_execute sql ;; ret (rowcount a))
            | None => ret O
            end ;;
       cursor_execute Commit ;;
       cursor_close ;;
       ret {| restored := rowcount r; superseded := rowcount s;
              inserted := i; deleted := d |})
      (fun e =>
         try_pass (_ <- cursor_execute Rollback ;; conn_rollback) ;;
         raise e) ;;
  conn_commit ;;
  when (negb conn_given) conn_close ;;
  ret stats.

(** The dictionary [load] returns; a key that is not set is [None]. A
    duration is the difference of two readings of the clock (the rounding to
    two decimals is not modelled). *)
Record LoadResult : Type := {
  rows_loaded : nat;
  status : string;
  duration_seconds : Z;
  message : option string;
  table : option string;
  historization_stats : option MergeStats;
  result_write_mode : option string;
  used_temp_table : option bool;
  error : option string;
}.

(** [columns = list(enriched_data[0].keys())] and
    [rows = [[row.get(col) for col in columns] for row in enriched_data]]:
    every staged row has the columns of the first one. *)
Definition with_columns (r : Row) (cols : record) : Row :=
  {| columns := cols; _record_hash := _record_hash r; _id_hash := _id_hash r;
     _valid_from := _valid_from r; _valid_to := _valid_to r;
     _deleted_at := _deleted_at r; _loaded_at := _loaded_at r;
     _pipeline_run_id := _pipeline_run_id r; _source_system := _source_system r;
     _load_batch_id := _load_batch_id r |}.

Definition staged_rows (enriched_data : list Row) : list Row :=
  match enriched_data with
  | [] => []
  | first :: _ =>
      map (fun row => with_columns row
                        (map (fun col => (col, get_or_none (columns row) col))
                             (keys (columns first))))
          enriched_data
  end.

Definition load_historize (self : PostgresDestination) (data : list record)
    (context : Context) (start_time : Z) : M LoadResult :=
  enriched_data <- _enrich_with_system_columns self data context ;;
  hook_get_conn ;;
  conn_cursor ;;
  try_except
    (_create_staging_table_with_conn self enriched_data ;;
     cursor_execute (InsertEnriched (Bare (fmt_name (staging_table_name self)))
                       (staged_rows enriched_data)) ;;
     conn_commit ;;
     merge_stats <- _merge_historized_data self (fmt_name (staging_table_name self))
                      (table_name self) true ;;
     cursor_execute (DropTableIfExists (Bare (fmt_name (staging_table_name self)))) ;;
     conn_commit ;;
     cursor_close ;;
     conn_close ;;
     now <- time_time ;;
     ret {| rows_loaded := length data; status := "success";
            duration_seconds := now - start_time; message := None;
            table := Some (schema self +:+ "." +:+ table_name self);
            historization_stats := Some merge_stats;
            result_write_mode := Some "historize";
            used_temp_table := None; error := None |})
    (fun e =>
       try_pass (conn_rollback ;; cursor_close ;; conn_close) ;;
       raise e).

(** [columns = list(data[0].keys())] and
    [rows = [[row.get(col) for col in columns] for row in data]] *)
Definition projected_rows (data : list record) : list record :=
  match data with
  | [] => []
  | first :: _ =>
      map (fun row => map (fun col => (col, get_or_none row col)) (keys first)) data
  end.

Definition load_plain (self : PostgresDestination) (data : list record)
    (start_time : Z) : M LoadResult :=
  let target_table :=
    if use_temp_table self then fmt_name (temp_table_name self) else table_name self in
  hook_insert_rows (Qualified (schema self) target_table) (projected_rows data) 1000 ;;
  when (use_temp_table self) (_swap_tables self) ;;
  now <- time_time ;;
  ret {| rows_loaded := length data; status := "success";
         duration_seconds := now - start_time; message := None;
         table := Some (schema self +:+ "." +:+ table_name self);
         historization_stats := None; result_write_mode := None;
         used_temp_table := Some (use_temp_table self); error := None |}.

(** [load(data, context)]: the historize branch and the plain branch are
    both inside the outer [try], whose handler turns any exception into a
    result with status [failed]. *)
Definition load (self : PostgresDestination) (data : list record) (context : Context)
    : M LoadResult :=
  start_time <- time_time ;;
  match data with
  | [] =>
      ret {| rows_loaded := 0; status := "success"; duration_seconds := 0;
             message := Some "No data to load"; table := None;
             historization_stats := None; result_write_mode := None;
             used_temp_table := None; error := None |}
  | _ =>
      try_except
        (if String.eqb (write_mode self) "historize"
         then load_historize self data context start_time
         else load_plain self data start_time)
        (fun e =>
           now <- time_time ;;
           ret {| rows_loaded := 0; status := "failed";
                  duration_seconds := now - start_time; message := None;
                  table := None; historization_stats := None;
                  result_write_mode := None; used_temp_table := None;
                  error := Some (exn_str e) |})
  end.

Definition post_load_hook (self : PostgresDestination) (result : LoadResult) : M unit :=
  when (negb (falsy_str (staging_table_name self)))
       (try_pass (hook_run [DropTableIfExists (Bare (fmt_name (staging_table_name self)))])) ;;
  when (use_temp_table self && negb (falsy_str (temp_table_name self)))
       (try_pass (hook_run [DropTableIfExists
                              (Qualified (schema self) (fmt_name (temp_table_name self)))])).

(** [str.lower()] on ASCII: the letters [A] to [Z] become [a] to [z] and
    every other byte is left as it is. Python also lowers the letters
    outside ASCII; none of them lowers to a letter of a key of the registry
    below, so the lookup by [type] is exact for every string and only the
    text of the error message for an unknown non-ASCII type differs. *)
Definition lower_ascii (c : ascii) : ascii :=
  let n := nat_of_ascii c in
  if (65 <=? n)%nat && (n <=? 90)%nat then ascii_of_nat (n + 32) else c.

Fixpoint lower (s : string) : string :=
  match s with
  | EmptyString => EmptyString
  | String c rest => String (lower_ascii c) (lower rest)
  end.

(** [DestinationFactory] of [factories/destination_factory.py]: every key
    of the registry stands for [PostgresDestination]. *)
Module DestinationFactory.

Definition _registry : list string := ["postgres"; "postgresql"; "pg"].

Definition create (cfg : Config) : M PostgresDestination :=
  match cfg_type cfg with
  | None => raise (ValueError "Destination configuration must include 'type' field")
  | Some type =>
      let destination_type := lower type in
      if negb (bool_decide (destination_type ∈ _registry))
      then raise (ValueError ("Unknown destination type '" +:+ destination_type
                    +:+ "'. Available types: " +:+ String.concat ", " _registry))
      else __init__ cfg
  end.

End DestinationFactory.

(** [DAGBuilder.load_data] of [dag_builder.py]. *)
Definition load_data (cfg : Config) (data : list record) : M LoadResult :=
  destination <- DestinationFactory.create cfg ;;
  destination <- pre_load_hook destination data ;;
  result <- load destination data None ;;
  post_load_hook destination result ;;
  ret result.

(** ** ValidateDuplicateIdsTransform (validation_transforms.py)

    The transform placed before a historized destination. [print] and the
    logging of [_log_duplicate_details] write to the standard output and do
    nothing else; they are left out. *)
Module ValidateDuplicateIds.

(** The attributes [__init__] sets on [self]. *)
Record ValidateDuplicateIdsTransform : Type := {
  id_columns : list string;
  action : string;
  keep : string;
  log_duplicates : bool;
}.

(** [collections.Counter(items)] *)
Definition Counter (items : list (list string)) : gmap (list string) nat :=
  fold_left (fun counts x => <[x := S (default O (counts !! x))]> counts) items ∅.

(** The dictionary [_find_duplicates] returns. *)
Record DuplicatesInfo : Type := {
  has_duplicates : bool;
  duplicate_count : nat;
  duplicate_ids : gset (list string);
  duplicate_record_count : nat;
  id_counts : gmap (list string) nat;
}.

Definition _find_duplicates (self : ValidateDuplicateIdsTransform) (data : list record)
    : DuplicatesInfo :=
  let id_tuples := map (id_tuple (id_columns self)) data in
  let id_counts := Counter id_tuples in
  let duplicate_ids : gset (list string) :=
    dom (filter (fun kv => (1 < snd kv)%nat) id_counts) in
  let duplicate_record_count :=
    map_fold (fun _ count acc => if (1 <? count)%nat then (count + acc)%nat else acc)
             O id_counts in
  {| has_duplicates := bool_decide (0 < size duplicate_ids)%nat;
     duplicate_count := size duplicate_ids;
     duplicate_ids := duplicate_ids;
     duplicate_record_count := duplicate_record_count;
     id_counts := id_counts |}.

(** The loop of [_deduplicate] over [data_to_process], with [seen_ids] and
    [result] as it goes. *)
Fixpoint _deduplicate_loop (self : ValidateDuplicateIdsTransform)
    (data_to_process : list record) (seen_ids : gset (list string))
    (result : list record) : list record :=
  match data_to_process with
  | [] => result
  | row :: rest =>
      let id_tuple := id_tuple (id_columns self) row in
      if bool_decide (id_tuple ∉ seen_ids)
      then _deduplicate_loop self rest ({[ id_tuple ]} ∪ seen_ids) (result ++ [row])
      else _deduplicate_loop self rest seen_ids result
  end.

(** [_deduplicate(data, duplicate_ids)]; the second argument is not read. *)
Definition _deduplicate (self : ValidateDuplicateIdsTransform) (data : list record)
    (duplicate_ids : gset (list string)) : list record :=
  let data_to_process := if String.eqb (keep self) "first" then data else rev data in
  let result := _deduplicate_loop self data_to_process ∅ [] in
  if String.eqb (keep self) "last" then rev result else result.

Definition newline : string := String (ascii_of_nat 10) "".

(** The head of the message of the [ValueError] raised on duplicates. The
    message goes on with [list(duplicate_ids)[:5]], whose order is the
    iteration order of a Python set, and two lines of advice; these are not
    part of the model. *)
Definition duplicates_message (self : ValidateDuplicateIdsTransform) (data : list record)
    (info : DuplicatesInfo) : string :=
  "Duplicate IDs found in source data!" +:+ newline
  +:+ "  ID columns: " +:+ String.concat ", " (id_columns self) +:+ newline
  +:+ "  Total records: " +:+ pretty (length data) +:+ newline
  +:+ "  Duplicate IDs: " +:+ pretty (duplicate_count info) +:+ newline
  +:+ "  Duplicate records: " +:+ pretty (duplicate_record_count info) +:+ newline.

(** [transform(data)]. [validate_data] checks that [data] is a list of
    dictionaries, which the type of [data] says. *)
Definition transform (self : ValidateDuplicateIdsTransform) (data : list record)
    : Outcome (list record) :=
  match data with
  | [] => Returns []
  | first :: _ =>
      let missing_columns :=
        List.filter (fun col => negb (bool_decide (col ∈ keys first))) (id_columns self) in
      match missing_columns with
      | _ :: _ =>
          Raises (ValueError ("ID columns not found in data: "
                              +:+ String.concat ", " missing_columns))
      | [] =>
          let duplicates_info := _find_duplicates self data in
          if has_duplicates duplicates_info
          then
            if String.eqb (action self) "fail"
            then Raises (ValueError (duplicates_message self data duplicates_info))
            else if String.eqb (action self) "warn"
            then Returns data
            else if String.eqb (action self) "deduplicate"
            then Returns (_deduplicate self data (duplicate_ids duplicates_info))
            else Returns data
          else Returns data
      end
  end.

End ValidateDuplicateIds.

(** ** The vocabulary of the specification *)

(** A current row: [valid_to = null AND deleted_at = null]; an open row is
    one not superseded: [valid_to = null]. *)
Definition is_current (r : Row) : bool := is_null (_valid_to r) && is_null (_deleted_at r).
Definition is_open (r : Row) : bool := is_null (_valid_to r).

Definition current_rows (id : string) (rows : list Row) : list Row :=
  List.filter (fun r => is_current r && String.eqb (_id_hash r) id) rows.
Definition open_rows (id : string) (rows : list Row) : list Row :=
  List.filter (fun r => is_open r && String.eqb (_id_hash r) id) rows.

(** At most one current row for every [id_hash]; the same with open rows is
    the invariant the merge keeps by induction. *)
Definition at_most_one_current (rows : list Row) : Prop :=
  forall id, (length (current_rows id rows) <= 1)%nat.
Definition at_most_one_open (rows : list Row) : Prop :=
  forall id, (length (open_rows id rows) <= 1)%nat.

(** The target after the statements of one merge, in the order
    [_merge_historized_data] executes them. *)
Definition merge_rows (ts : timestamp) (track : bool) (data_columns : list string)
    (staging target : list Row) : list Row :=
  let restored_ := restore_phase ts staging target in
  let superseded_ := supersede_phase ts staging restored_ in
  let inserted_ := insert_phase ts data_columns staging superseded_ in
  if track then delete_phase ts staging inserted_ else inserted_.

(** [data_columns] of the merge: the columns of the sample row of the
    staging relation that do not start with an underscore. *)
Definition staging_data_columns (staging : list Row) : list string :=
  match staging with
  | [] => []
  | r :: _ => List.filter (fun col => negb (startswith_underscore col))
                (keys (columns r) ++ system_columns)
  end.

(** The targets a historized table goes through: created empty, then one
    merge after another, each of a staged batch whose [_id_hash] values are
    pairwise distinct. *)
Inductive reachable : list Row -> Prop :=
  | reachable_empty : reachable []
  | reachable_merge ts track data_columns staging target :
      reachable target ->
      NoDup (map _id_hash staging) ->
      reachable (merge_rows ts track data_columns staging target).

(** Two rows that differ at most in the three lifecycle columns. *)
Definition same_payload (t t' : Row) : Prop :=
  columns t' = columns t /\ _record_hash t' = _record_hash t
  /\ _id_hash t' = _id_hash t /\ _loaded_at t' = _loaded_at t
  /\ _pipeline_run_id t' = _pipeline_run_id t
  /\ _source_system t' = _source_system t
  /\ _load_batch_id t' = _load_batch_id t.

Definition staged_id (staging : list Row) (id : string) : Prop :=
  In id (map _id_hash staging).

(** The four phases in the words of the specification, each relating the
    target before to the target after. *)
Definition restore_spec (ts : timestamp) (staging target target' : list Row) : Prop :=
  Forall2 (fun t t' =>
    let applies := _deleted_at t <> None /\ _valid_to t = None
                   /\ staged_id staging (_id_hash t) in
    (applies -> same_payload t t' /\ _deleted_at t' = None /\ _valid_from t' = ts
                /\ _valid_to t' = None)
    /\ (~ applies -> t' = t)) target target'.

Definition supersede_spec (ts : timestamp) (staging target target' : list Row) : Prop :=
  Forall2 (fun t t' =>
    let applies := _valid_to t = None /\ _deleted_at t = None
                   /\ exists s, In s staging /\ _id_hash s = _id_hash t
                                /\ _record_hash s <> _record_hash t in
    (applies -> same_payload t t' /\ _valid_to t' = Some ts /\ _deleted_at t' = None
                /\ _valid_from t' = _valid_from t)
    /\ (~ applies -> t' = t)) target target'.

Definition no_current_match (target : list Row) (s : Row) : Prop :=
  ~ exists t, In t target /\ _id_hash t = _id_hash s /\ _record_hash t = _record_hash s
              /\ _valid_to t = None /\ _deleted_at t = None.

(** The row the insert makes of a staged row, field by field: the data
    columns with the values the staged row has for them, the two hashes and
    the three fields of provenance of the staged row, both timestamps set to
    the merge timestamp, open and not deleted. *)
Definition inserted_from (ts : timestamp) (data_columns : list string) (s t : Row) : Prop :=
  keys (columns t) = data_columns
  /\ (forall c, In c data_columns -> dict_get (columns t) c = Some (get_or_none (columns s) c))
  /\ _record_hash t = _record_hash s /\ _id_hash t = _id_hash s
  /\ _valid_from t = ts /\ _loaded_at t = ts
  /\ _valid_to t = None /\ _deleted_at t = None
  /\ _pipeline_run_id t = _pipeline_run_id s
  /\ _source_system t = _source_system s
  /\ _load_batch_id t = _load_batch_id s.

(** The staged rows fall into those with no current match in the target,
    each of which gets one new row, and the others, which get none. A table
    has no order: the target afterwards is given up to the order of its
    rows. *)
Definition insert_spec (ts : timestamp) (data_columns : list string)
    (staging target target' : list Row) : Prop :=
  exists chosen skipped new,
    staging ≡ₚ chosen ++ skipped
    /\ Forall (no_current_match target) chosen
    /\ Forall (fun s => ~ no_current_match target s) skipped
    /\ Forall2 (inserted_from ts data_columns) chosen new
    /\ target' ≡ₚ target ++ new.

Definition delete_spec (ts : timestamp) (staging target target' : list Row) : Prop :=
  Forall2 (fun t t' =>
    let applies := _valid_to t = None /\ _deleted_at t = None
                   /\ ~ staged_id staging (_id_hash t) in
    (applies -> same_payload t t' /\ _deleted_at t' = Some ts /\ _valid_to t' = None
                /\ _valid_from t' = _valid_from t)
    /\ (~ applies -> t' = t)) target target'.

(** The statements a trace shows as executed, in order. *)
Definition executed (evs : list (Op * bool)) : list Stmt :=
  flat_map (fun ev => match ev with (OpExecute s, true) => [s] | _ => [] end) evs.

Definition is_phase (s : Stmt) : bool :=
  match s with
  | RestoreSql _ _ _ | SupersedeSql _ _ _ | InsertSql _ _ _ _ | DeleteSql _ _ _ => true
  | _ => false
  end.

(** One of the four phases was attempted and failed. *)
Definition phase_failed (evs : list (Op * bool)) : Prop :=
  exists s, is_phase s = true /\ In (OpExecute s, false) evs.

(** The [COMMIT] of the merge was executed. *)
Definition commit_done (evs : list (Op * bool)) : Prop := In (OpExecute Commit, true) evs.

(** Some commit succeeded: [conn.commit()] or a [COMMIT] statement. *)
Definition any_commit (evs : list (Op * bool)) : Prop :=
  In (OpCommit, true) evs \/ In (OpExecute Commit, true) evs.

(** A statement succeeded and, later, a commit did. *)
Definition wrote_then_committed (evs : list (Op * bool)) : Prop :=
  exists s before after,
    evs = before ++ (OpExecute s, true) :: after /\ any_commit after.

(** The commit that publishes what [load] writes to the target: the
    [COMMIT] of the merge in historize mode (the commit before it only
    publishes the staging relation, which is temporary); in the other modes
    the first commit that follows a statement, which is the one after the
    first chunk of the insert (the commit [insert_rows] starts with has
    nothing to publish). *)
Definition target_committed (self : PostgresDestination) (evs : list (Op * bool)) : Prop :=
  if String.eqb (write_mode self) "historize" then commit_done evs
  else wrote_then_committed evs.

(** The transaction of the open connection, if there is one and it is
    intact, has written nothing yet. *)
Definition in_sync (w : World) : Prop :=
  match session w with
  | Some ss => aborted ss = false -> perm (work ss) = db w
  | None => True
  end.

Definition no_statement (evs : list (Op * bool)) : Prop :=
  forall s, ~ In (OpExecute s, true) evs.

(** A computation is quiet when it only adds to the trace and changes the
    committed database only through a commit that succeeds. *)
Definition quiet {A} (m : M A) : Prop :=
  forall w out w', m w = (out, w') ->
  exists evs, trace w' = trace w ++ evs /\ (~ any_commit evs -> db w' = db w).

(** A computation is careful when, started on a transaction that has
    written nothing, it changes the committed database only through a commit
    that follows a statement, and leaves a transaction that has written
    nothing unless it executed a statement. *)
Definition careful {A} (m : M A) : Prop :=
  forall w out w', m w = (out, w') -> in_sync w ->
  exists evs, trace w' = trace w ++ evs
    /\ (~ wrote_then_committed evs -> db w' = db w)
    /\ (no_statement evs -> in_sync w').

(** The same without a condition on the transaction it starts on: what
    holds of a computation that works on connections of its own. *)
Definition sealed {A} (m : M A) : Prop :=
  forall w out w', m w = (out, w') ->
  exists evs, trace w' = trace w ++ evs
    /\ (~ wrote_then_committed evs -> db w' = db w).

(** The timestamps of a target row after a merge at [ts], against the row
    it was before: each is the old one or [ts] ([_deleted_at] may also have
    been cleared). *)
Definition stamped_from (ts : timestamp) (t t' : Row) : Prop :=
  (_valid_from t' = _valid_from t \/ _valid_from t' = ts)
  /\ (_valid_to t' = _valid_to t \/ _valid_to t' = Some ts)
  /\ (_deleted_at t' = _deleted_at t \/ _deleted_at t' = None \/ _deleted_at t' = Some ts)
  /\ _loaded_at t' = _loaded_at t.

Definition stamped_new (ts : timestamp) (r : Row) : Prop :=
  _valid_from r = ts /\ _loaded_at r = ts /\ _valid_to r = None /\ _deleted_at r = None.

(** The timestamp a statement of the merge carries. *)
Definition stmt_timestamp (s : Stmt) : option timestamp :=
  match s with
  | RestoreSql _ _ ts | SupersedeSql _ _ ts | InsertSql _ _ ts _ | DeleteSql _ _ ts => Some ts
  | _ => None
  end.

Definition stamped_with (ts : timestamp) (ev : Op * bool) : Prop :=
  match fst ev with
  | OpExecute s => match stmt_timestamp s with Some t => t = ts | None => True end
  | _ => True
  end.

(** The rows a trace shows as written to a staging relation. *)
Definition staged_in (evs : list (Op * bool)) : list Row :=
  flat_map (fun ev => match ev with
                      | (OpExecute (InsertEnriched _ rows), true) => rows
                      | _ => []
                      end) evs.

(** The world after [n] more looks at the clock and nothing else. *)
Definition advance (w : World) (n : nat) : World :=
  {| db := db w; session := session w; clock := clock w; ticks := (ticks w + n)%nat;
     faults := faults w; trace := trace w |}.

(** The four configuration errors, with the hash algorithm checked the way
    [validate_config] checks it: under [historize] only. *)
Definition effective_write_mode (cfg : Config) : string :=
  default "historize" (cfg_write_mode cfg).
Definition effective_historization (cfg : Config) : HistorizationConfig :=
  default empty_historization (cfg_historization cfg).
Definition effective_hash_algorithm (cfg : Config) : string :=
  default "md5" (cfg_hash_algorithm (effective_historization cfg)).

Definition config_error (cfg : Config) : Prop :=
  falsy_str (cfg_table_name cfg) = true
  \/ ~ In (effective_write_mode cfg) write_modes
  \/ (effective_write_mode cfg = "historize"
      /\ (falsy_list (cfg_id_columns (effective_historization cfg)) = true
          \/ ~ In (effective_hash_algorithm cfg) hash_algorithms)).

(** The same with the hash algorithm checked in every write mode, as the
    sentence of the specification reads. *)
Definition config_error_as_stated (cfg : Config) : Prop :=
  falsy_str (cfg_table_name cfg) = true
  \/ ~ In (effective_write_mode cfg) write_modes
  \/ (effective_write_mode cfg = "historize"
      /\ falsy_list (cfg_id_columns (effective_historization cfg)) = true)
  \/ ~ In (effective_hash_algorithm cfg) hash_algorithms.

(** What precedes and what follows one part of a joined string. *)
Definition joined_before (sep : string) (parts : list string) : string :=
  fold_right (fun p acc => p +:+ sep +:+ acc) "" parts.

Definition joined_after (sep : string) (parts : list string) : string :=
  match parts with
  | [] => ""
  | _ => sep +:+ String.concat sep parts
  end.

(** ** Further vocabulary: the merge row by row, fault-free runs, separators *)

(** What one merge makes of a row the target already holds: the three
    [UPDATE]s in the order they run. *)
Definition merged_row (ts : timestamp) (track : bool) (staging : list Row) (t : Row) : Row :=
  let t1 := if restore_where staging t then restore_set ts t else t in
  let t2 := if supersede_where staging t1 then supersede_set ts t1 else t1 in
  if track then (if delete_where staging t2 then delete_set ts t2 else t2) else t2.

(** The staged rows a merge inserts a version for. *)
Definition inserted_rows (ts : timestamp) (staging target : list Row) : list Row :=
  List.filter (insert_where (map (merged_row ts false staging) target)) staging.

(** What the statements of the merge read of a staged row. *)
Definition row_key (s : Row) : string * string := (_id_hash s, _record_hash s).

(** The counts a merge reports: the [rowcount] of each statement, on the
    target as the statement finds it. *)
Definition merge_stats (ts : timestamp) (track : bool) (cols : list string)
    (staging target : list Row) : MergeStats :=
  let t1 := restore_phase ts staging target in
  let t2 := supersede_phase ts staging t1 in
  let t3 := insert_phase ts cols staging t2 in
  {| restored := length (List.filter (restore_where staging) target);
     superseded := length (List.filter (supersede_where staging) t1);
     inserted := length (List.filter (insert_where t2) staging);
     deleted := if track then length (List.filter (delete_where staging) t3) else O |}.

(** What the merge reads of an enriched row, against the record it was
    made from: the two hashes. *)
Definition hashed_from (self : PostgresDestination) (r : record) (row : Row) : Prop :=
  _id_hash row = _calculate_id_hash (hash_algorithm self) (id_columns self) r
  /\ _record_hash row = _calculate_record_hash (hash_algorithm self) r.

(** An enriched row against the record it was made from, field by field,
    in a load without Airflow context: the fields of the record that do not
    carry the name of a system column, the two hashes of the record, the
    reading [now] of the clock the enrichment takes as both timestamps, open
    and not deleted, no pipeline run, the [type] of the configuration as
    source system and the table name with the reading [batch_time] of the
    clock as batch. *)
Definition enriched_from (self : PostgresDestination) (now : timestamp) (batch_time : Z)
    (r : record) (row : Row) : Prop :=
  columns row = List.filter (fun kv => negb (bool_decide (fst kv ∈ system_columns))) r
  /\ hashed_from self r row
  /\ _valid_from row = now /\ _loaded_at row = now
  /\ _valid_to row = None /\ _deleted_at row = None
  /\ _pipeline_run_id row = None
  /\ _source_system row = default "unknown" (cfg_type (config self))
  /\ _load_batch_id row = table_name self +:+ "_" +:+ pretty batch_time.

(** The enriched batch: one row for each record, in the order of the
    batch, the [i]-th with the reading of the clock at tick
    [first_tick + i] in its batch. *)
Definition enriched_batch (self : PostgresDestination) (now : timestamp)
    (clock : nat -> Z) (first_tick : nat) (data : list record) (rows : list Row) : Prop :=
  length rows = length data
  /\ forall (i : nat) r row, data !! i = Some r -> rows !! i = Some row ->
       enriched_from self now (clock (first_tick + i)%nat) r row.


(** The world after a call of the hook that ran to its end: the connection
    it took is closed again, [relations] is what it committed and [calls]
    are the external calls it made. *)
Definition after_hook (w : World) (relations : gmap (string * string) Relation)
    (calls : list Op) : World :=
  {| db := relations; session := None; clock := clock w; ticks := ticks w;
     faults := faults w; trace := trace w ++ map (fun op => (op, true)) calls |}.

(** The external calls of [hook.run] of one statement and of
    [hook.insert_rows] of the given chunks. *)
Definition run_calls (s : Stmt) : list Op :=
  [OpConnect; OpCursor; OpExecute s; OpCursorClose; OpCommit; OpClose].


(** A configuration with its [write_mode] key set. *)
Definition with_write_mode (cfg : Config) (mode : string) : Config :=
  {| cfg_type := cfg_type cfg; cfg_postgres_conn_id := cfg_postgres_conn_id cfg;
     cfg_schema := cfg_schema cfg; cfg_table_name := cfg_table_name cfg;
     cfg_write_mode := Some mode; cfg_create_table := cfg_create_table cfg;
     cfg_temp_table_threshold := cfg_temp_table_threshold cfg;
     cfg_historization := cfg_historization cfg |}.

(** How often a tuple occurs in a list of tuples. *)
Definition occurrences (x : list string) (l : list (list string)) : nat :=
  count_occ (fun a b => decide (a = b)) l x.

(** The rows [_deduplicate_loop] appends to [result]. *)
Fixpoint first_occurrences (ids : list string) (seen : gset (list string))
    (rows : list record) : list record :=
  match rows with
  | [] => []
  | row :: rest =>
      if bool_decide (id_tuple ids row ∉ seen)
      then row :: first_occurrences ids ({[ id_tuple ids row ]} ∪ seen) rest
      else first_occurrences ids seen rest
  end.

(** The first row of a batch with a given identifying tuple. *)
Definition first_with (ids : list string) (x : list string) (rows : list record)
    : option record :=
  List.find (fun row => bool_decide (id_tuple ids row = x)) rows.

(** [c in s] for a character [c]. *)
Fixpoint mentions (c : ascii) (s : string) : bool :=
  match s with
  | EmptyString => false
  | String x rest => Ascii.eqb x c || mentions c rest
  end.

(** A record whose keys hold neither ["|"] nor [":"] and whose values render
    without ["|"]. *)
Definition free_of_separators (r : record) : Prop :=
  Forall (fun kv => mentions "|" (fst kv) = false /\ mentions ":" (fst kv) = false
                    /\ mentions "|" (str (snd kv)) = false) r.

(** ** Concrete configurations, batches and worlds used below *)

Definition historize_config (id_cols : list string) : Config :=
  {| cfg_type := Some "postgres"; cfg_postgres_conn_id := None; cfg_schema := None;
     cfg_table_name := Some "emp"; cfg_write_mode := None; cfg_create_table := None;
     cfg_temp_table_threshold := None;
     cfg_historization :=
       Some {| cfg_enabled := None; cfg_id_columns := Some id_cols;
               cfg_hash_algorithm := None; cfg_track_deletes := None |} |}.

Definition plain_config (mode : string) (algo : option string) : Config :=
  {| cfg_type := Some "postgres"; cfg_postgres_conn_id := None; cfg_schema := None;
     cfg_table_name := Some "emp"; cfg_write_mode := Some mode; cfg_create_table := None;
     cfg_temp_table_threshold := None;
     cfg_historization :=
       Some {| cfg_enabled := None; cfg_id_columns := None;
               cfg_hash_algorithm := algo; cfg_track_deletes := None |} |}.

(** A world with the given committed relations, a clock that advances by one
    at every look, and the external calls listed in [failing] failing. *)
Definition world_of (relations : gmap (string * string) Relation) (failing : list nat)
    : World :=
  {| db := relations; session := None; clock := fun n => 100 + Z.of_nat n; ticks := 0;
     faults := fun n => bool_decide (n ∈ failing); trace := [] |}.

Definition alice : record := [("id", PyInt 1); ("name", PyStr "Alice")].
Definition alicia : record := [("id", PyInt 1); ("name", PyStr "Alicia")].
Definition bob : record := [("id", PyInt 2); ("name", PyStr "Bob")].

(** Two rows whose identifying tuples differ and whose [id_str] is the same. *)
Definition colliding_batch : list record :=
  [ [("a", PyStr "1|2"); ("b", PyStr "3")];
    [("a", PyStr "1"); ("b", PyStr "2|3")] ].

Definition target_of (w : World) : option Relation := db w !! ("public", "emp").

(** A destination as [__init__] leaves it for [historize_config ["id"]],
    after [pre_load_hook] named the staging relation. *)
Definition sample_destination : PostgresDestination :=
  {| config := historize_config ["id"]; postgres_conn_id := "postgres_default";
     schema := "public"; table_name := "emp"; write_mode := "historize";
     create_table := true; temp_table_threshold := 1000;
     historization_config :=
       {| cfg_enabled := None; cfg_id_columns := Some ["id"];
          cfg_hash_algorithm := None; cfg_track_deletes := None |};
     historization_enabled := true; id_columns := ["id"]; hash_algorithm := "md5";
     track_deletes := true; temp_table_name := None;
     staging_table_name := Some "emp_staging_100"; use_temp_table := false |}.

(** A row with the given hashes and lifecycle, staged or stored at time 0. *)
Definition sample_row (id_hash record_hash : string) (valid_to deleted_at : option timestamp)
    : Row :=
  {| columns := [("id", PyStr id_hash); ("name", PyStr record_hash)];
     _record_hash := record_hash; _id_hash := id_hash;
     _valid_from := 0; _valid_to := valid_to; _deleted_at := deleted_at;
     _loaded_at := 0; _pipeline_run_id := None; _source_system := "postgres";
     _load_batch_id := "emp_0" |}.

(** A world in the middle of a historize load: the connection is open, the
    target holds one current row and the staging relation one row of the
    same identity with another content. *)
Definition merge_world (failing : list nat) : World :=
  let relations : gmap (string * string) Relation :=
    {[ ("public", "emp") := HistRel [sample_row "x" "h1" None None] ]} in
  {| db := relations;
     session :=
       Some {| work := {| perm := relations;
                          temp := {[ "emp_staging_100" :=
                                       HistRel [sample_row "x" "h2" None None] ]} |};
               temp_saved := {[ "emp_staging_100" :=
                                  HistRel [sample_row "x" "h2" None None] ]};
               aborted := false |};
     clock := fun n => 100 + Z.of_nat n; ticks := 0;
     faults := fun n => bool_decide (n ∈ failing); trace := [] |}.

(** A configuration whose threshold a batch of two rows exceeds. *)
Definition shadow_config (mode : string) : Config :=
  {| cfg_type := Some "postgres"; cfg_postgres_conn_id := None; cfg_schema := None;
     cfg_table_name := Some "emp"; cfg_write_mode := Some mode; cfg_create_table := None;
     cfg_temp_table_threshold := Some 1; cfg_historization := None |}.

(** A transform that removes duplicates and keeps the last row. *)
Definition keep_last : ValidateDuplicateIds.ValidateDuplicateIdsTransform :=
  {| ValidateDuplicateIds.id_columns := ["id"];
     ValidateDuplicateIds.action := "deduplicate";
     ValidateDuplicateIds.keep := "last";
     ValidateDuplicateIds.log_duplicates := true |}.

(** The destination the factory constructs from a configuration of a
    registered type that passes [validate_config]. *)
Definition constructed (cfg : Config) : PostgresDestination :=
  match fst (DestinationFactory.create cfg (world_of ∅ [])) with
  | Returns self => self
  | Raises _ => sample_destination
  end.

(** The row the enrichment of [historize_config ["id"]] stages for a record,
    as far as the merge reads it. *)
Definition staged_of (r : record) : Row :=
  sample_row (_calculate_id_hash "md5" ["id"] r) (_calculate_record_hash "md5" r) None None.

(** * Properties *)

(** ** The embedding of hashlib against published digests *)

Example md5_empty : Hashlib.md5 "" = "d41d8cd98f00b204e9800998ecf8427e".
Proof. vm_compute. reflexivity. Qed.

Example md5_abc : Hashlib.md5 "abc" = "900150983cd24fb0d6963f7d28e17f72".
Proof. vm_compute. reflexivity. Qed.

Example md5_two_blocks :
  Hashlib.md5 "xxxxxxxxxxxxxxxxxxxxxxxxxxxxxxxxxxxxxxxxxxxxxxxxxxxxxxxx"
  = "668a72d5ba17f08e62dabcafad6db14b".
Proof. vm_compute. reflexivity. Qed.

Example sha256_empty :
  Hashlib.sha256 "" = "e3b0c44298fc1c149afbf4c8996fb92427ae41e4649b934ca495991b7852b855".
Proof. vm_compute. reflexivity. Qed.

Example sha256_abc :
  Hashlib.sha256 "abc" = "ba7816bf8f01cfea414140de5dae2223b00361a396177a9cb410ff61f20015ad".
Proof. vm_compute. reflexivity. Qed.

Example sha256_two_blocks :
  Hashlib.sha256 "xxxxxxxxxxxxxxxxxxxxxxxxxxxxxxxxxxxxxxxxxxxxxxxxxxxxxxxx"
  = "04c26261370ee7541549d16dee320c723e3fd14671e66a099afe0a377c16888e".
Proof. vm_compute. reflexivity. Qed.

Example record_str_sorts :
  record_str [("b", PyInt 2); ("a", PyStr "x"); ("c", PyNone)] = "a:x|b:2|c:None".
Proof. vm_compute. reflexivity. Qed.

Example record_hash_md5 :
  _calculate_record_hash "md5" [("c", PyInt 3); ("a", PyInt 1); ("b", PyInt 2)]
  = "eea1ebce0a4085d65c4085ea623ab3c5".
Proof. vm_compute. reflexivity. Qed.

Example id_hash_missing_column :
  id_str ["id"; "region"] [("id", PyInt 7)] = "7|".
Proof. vm_compute. reflexivity. Qed.

(** ** The scenarios of the specification *)

(** Scenario A: the first load of [alice] leaves one current row. *)
Example scenario_first_load :
  exists result w' row,
    load_data (historize_config ["id"]) [alice] (world_of ∅ []) = (Returns result, w')
    /\ historization_stats result
       = Some {| restored := 0; superseded := 0; inserted := 1; deleted := 0 |}
    /\ target_of w' = Some (HistRel [row])
    /\ is_current row = true /\ columns row = alice.
Proof.
  eexists _, _, _. split; [vm_compute; reflexivity|].
  split; [reflexivity|]. split; [vm_compute; reflexivity|]. split; reflexivity.
Qed.

(** Scenarios B and C: loading the same batch again changes nothing; loading
    [alicia] supersedes the row and inserts the new version. *)
Example scenario_reload_and_change :
  let w1 := snd (load_data (historize_config ["id"]) [alice] (world_of ∅ [])) in
  let run2 := load_data (historize_config ["id"]) [alice] w1 in
  let run3 := load_data (historize_config ["id"]) [alicia] (snd run2) in
  (exists result, fst run2 = Returns result
     /\ historization_stats result
        = Some {| restored := 0; superseded := 0; inserted := 0; deleted := 0 |})
  /\ target_of (snd run2) = target_of w1
  /\ (exists result old new, fst run3 = Returns result
        /\ historization_stats result
           = Some {| restored := 0; superseded := 1; inserted := 1; deleted := 0 |}
        /\ target_of (snd run3) = Some (HistRel [old; new])
        /\ columns old = alice /\ is_open old = false
        /\ columns new = alicia /\ is_current new = true).
Proof.
  cbv zeta. split; [|split].
  - eexists. split; [vm_compute; reflexivity|reflexivity].
  - vm_compute. reflexivity.
  - eexists _, _, _. split; [vm_compute; reflexivity|].
    split; [reflexivity|]. split; [vm_compute; reflexivity|].
    repeat split.
Qed.

(** Scenario E: an identity marked deleted (its row was absent from a load)
    and loaded again unchanged is restored, and no row is inserted for it. *)
Example scenario_restore :
  let w1 := snd (load_data (historize_config ["id"]) [alice] (world_of ∅ [])) in
  let w2 := snd (load_data (historize_config ["id"]) [bob] w1) in
  let run3 := load_data (historize_config ["id"]) [alice; bob] w2 in
  (exists gone kept, target_of w2 = Some (HistRel [gone; kept])
     /\ columns gone = alice /\ _deleted_at gone <> None /\ is_open gone = true)
  /\ (exists result back kept, fst run3 = Returns result
        /\ historization_stats result
           = Some {| restored := 1; superseded := 0; inserted := 0; deleted := 0 |}
        /\ target_of (snd run3) = Some (HistRel [back; kept])
        /\ columns back = alice /\ is_current back = true).
Proof.
  cbv zeta. split.
  - eexists _, _. split; [vm_compute; reflexivity|].
    split; [reflexivity|]. split; [discriminate|reflexivity].
  - eexists _, _, _. split; [vm_compute; reflexivity|].
    split; [reflexivity|]. split; [vm_compute; reflexivity|].
    split; reflexivity.
Qed.

(** ** Hash determinism *)

(** A closed decidable proposition, by evaluation. *)
Ltac by_decide :=
  unfold wf_dict;
  match goal with
  | |- ?P => apply (@bool_decide_unpack P _); vm_compute; exact I
  end.

Section HashFacts.

#[global] Instance item_le_trans : Transitive item_le.
Proof. intros x y z. unfold item_le. apply transitivity. Qed.

#[global] Instance item_le_total : Total item_le.
Proof. intros x y. unfold item_le. apply total, _. Qed.

Lemma wf_dict_unique (r : record) k v1 v2 :
  wf_dict r -> In (k, v1) r -> In (k, v2) r -> v1 = v2.
Proof.
  unfold wf_dict. induction r as [|[k' v'] r IH]; simpl; [tauto|].
  intros Hnd H1 H2. apply NoDup_cons in Hnd as [Hnotin Hnd].
  destruct H1 as [H1|H1], H2 as [H2|H2].
  - congruence.
  - inversion H1; subst. exfalso. apply Hnotin.
    apply list_elem_of_In. apply in_map_iff. exists (k, v2). auto.
  - inversion H2; subst. exfalso. apply Hnotin.
    apply list_elem_of_In. apply in_map_iff. exists (k, v1). auto.
  - auto.
Qed.

Lemma sorted_items_unique (r1 r2 : record) :
  wf_dict r1 -> r1 ≡ₚ r2 -> sorted_items r1 = sorted_items r2.
Proof.
  intros Hwf Hperm. unfold sorted_items.
  apply (Sorted_unique_strong item_le).
  - intros [k1 v1] [k2 v2] H1 H2 Hle1 Hle2.
    unfold item_le in Hle1, Hle2. simpl in *.
    assert (k1 = k2) as -> by (apply (anti_symm String.le); assumption).
    f_equal. apply (wf_dict_unique r1 k2); [assumption| |].
    + apply list_elem_of_In. rewrite <- (merge_sort_Permutation item_le r1). assumption.
    + apply list_elem_of_In. rewrite Hperm.
      rewrite <- (merge_sort_Permutation item_le r2). assumption.
  - apply Sorted_merge_sort, _.
  - apply Sorted_merge_sort, _.
  - rewrite !merge_sort_Permutation. assumption.
Qed.

End HashFacts.

Section StringFacts.

Lemma string_app_cons (x : ascii) (a b : string) :
  String x a +:+ b = String x (a +:+ b).
Proof. reflexivity. Qed.

Lemma string_app_assoc (a b c : string) : (a +:+ b) +:+ c = a +:+ (b +:+ c).
Proof.
  induction a as [|x a IH]; [reflexivity|].
  rewrite !string_app_cons. now rewrite IH.
Qed.

Lemma string_app_nil_r (a : string) : a +:+ "" = a.
Proof.
  induction a as [|x a IH]; [reflexivity|].
  rewrite string_app_cons. now rewrite IH.
Qed.

Lemma string_length_app (a b : string) :
  String.length (a +:+ b) = (String.length a + String.length b)%nat.
Proof.
  induction a as [|x a IH]; [reflexivity|].
  rewrite string_app_cons. simpl. now rewrite IH.
Qed.

Lemma string_app_inv_tail (a b c : string) : a +:+ c = b +:+ c -> a = b.
Proof.
  revert b. induction a as [|x a IH]; intros [|y b] H.
  - reflexivity.
  - apply (f_equal String.length) in H.
    rewrite !string_length_app in H. simpl in H. lia.
  - apply (f_equal String.length) in H.
    rewrite !string_length_app in H. simpl in H. lia.
  - rewrite !string_app_cons in H. inversion H; subst. f_equal. now apply IH.
Qed.

Lemma concat_middle (sep : string) (before after : list string) (x : string) :
  String.concat sep (before ++ x :: after)
  = joined_before sep before +:+ x +:+ joined_after sep after.
Proof.
  induction before as [|p before IH]; simpl.
  - destruct after; simpl; [now rewrite string_app_nil_r | reflexivity].
  - rewrite string_app_assoc, string_app_assoc. rewrite <- IH.
    destruct before; reflexivity.
Qed.

End StringFacts.

Section ValueChange.

Lemma dict_get_In (r : record) k v : dict_get r k = Some v -> In (k, v) r.
Proof.
  induction r as [|[k' v'] r IH]; simpl; [discriminate|].
  destruct (String.eqb_spec k' k) as [->|Hne].
  - intros [= ->]. now left.
  - intros H. right. now apply IH.
Qed.

Lemma dict_replace_keys (r : record) k v : keys (dict_replace r k v) = keys r.
Proof.
  unfold keys, dict_replace. rewrite map_map. apply map_ext_in. intros [k' v'] _. simpl.
  destruct (String.eqb_spec k' k) as [->|]; reflexivity.
Qed.

Lemma sorted_items_map (f : string * value -> string * value) (r : record) :
  (forall kv, fst (f kv) = fst kv) -> wf_dict r ->
  sorted_items (map f r) = map f (sorted_items r).
Proof.
  intros Hkey Hwf. unfold sorted_items.
  assert (Hwf' : wf_dict (map f r)).
  { unfold wf_dict. rewrite map_map.
    rewrite (map_ext _ fst) by (intros; apply Hkey). exact Hwf. }
  change (map f (merge_sort item_le r)) with (f <$> merge_sort item_le r).
  apply (Sorted_unique_strong item_le).
  - intros [k1 v1] [k2 v2] H1 H2 Hle1 Hle2.
    unfold item_le in Hle1, Hle2. simpl in *.
    assert (k1 = k2) as -> by (apply (anti_symm String.le); assumption).
    f_equal. apply (wf_dict_unique (map f r) k2); [assumption| |].
    + apply list_elem_of_In. rewrite <- (merge_sort_Permutation item_le (map f r)). assumption.
    + apply list_elem_of_In. change (map f r) with (f <$> r).
      rewrite <- (merge_sort_Permutation item_le r). assumption.
  - apply Sorted_merge_sort, _.
  - apply Sorted_fmap with (R1 := item_le); [|apply Sorted_merge_sort, _].
    intros x y. unfold item_le. now rewrite !Hkey.
  - rewrite !merge_sort_Permutation. reflexivity.
Qed.

Lemma map_replace_fresh (l : record) k v :
  ~ In k (keys l) -> map (fun kv => if String.eqb (fst kv) k then (k, v) else kv) l = l.
Proof.
  induction l as [|[k' v'] l IH]; simpl; [reflexivity|].
  intros Hnot. destruct (String.eqb_spec k' k) as [->|Hne]; [tauto|].
  f_equal. apply IH. tauto.
Qed.

(** Replacing the value of one field changes the digested string exactly
    when the two values render differently. *)
Lemma record_str_replace (r : record) k v v' :
  wf_dict r -> dict_get r k = Some v ->
  record_str (dict_replace r k v') = record_str r <-> str v' = str v.
Proof.
  intros Hwf Hget. unfold record_str, dict_replace.
  rewrite sorted_items_map; [|intros [k0 v0]; simpl; destruct (String.eqb_spec k0 k); now subst|assumption].
  assert (Hin : In (k, v) (sorted_items r)).
  { apply list_elem_of_In. unfold sorted_items. rewrite merge_sort_Permutation.
    apply list_elem_of_In. now apply dict_get_In. }
  assert (Hnd : NoDup (keys (sorted_items r))).
  { unfold keys, sorted_items.
    change (map fst (merge_sort item_le r)) with (fst <$> merge_sort item_le r).
    rewrite merge_sort_Permutation. exact Hwf. }
  apply in_split in Hin as (l1 & l2 & Heq). rewrite Heq in *.
  unfold keys in Hnd. rewrite map_app in Hnd. simpl in Hnd.
  apply NoDup_app in Hnd as (_ & Hdisj & Hnd2).
  apply NoDup_cons in Hnd2 as [Hk2 _].
  assert (Hk1 : ~ In k (keys l1)).
  { intros Hk. apply list_elem_of_In in Hk. apply (Hdisj k Hk). left. }
  assert (Hk2' : ~ In k (keys l2)) by (now rewrite <- list_elem_of_In).
  rewrite map_app. simpl. rewrite String.eqb_refl.
  rewrite (map_replace_fresh l1 k v' Hk1), (map_replace_fresh l2 k v' Hk2').
  rewrite !map_app. simpl. rewrite !concat_middle.
  unfold render_item. simpl. rewrite !string_app_assoc.
  split.
  - intros H. apply (inj (String.app _)) in H. apply (inj (String.app _)) in H.
    apply (inj (String.app _)) in H. now apply string_app_inv_tail in H.
  - intros ->. reflexivity.
Qed.

End ValueChange.

Lemma dict_get_ext_id_values (cols : list string) (r1 r2 : record) :
  (forall c, In c cols -> dict_get r1 c = dict_get r2 c) ->
  id_values cols r1 = id_values cols r2.
Proof.
  intros H. unfold id_values. apply map_ext_in. intros c Hc.
  unfold get_default. now rewrite (H c Hc).
Qed.

(** C7, as amended. [_calculate_record_hash] does not depend on the
    insertion order of the fields; replacing the value of one field changes
    the string that is digested exactly when the old and the new value
    render differently under [str()]; [_calculate_id_hash] is a function of
    what the record holds at the identifying columns, a missing column
    counting as the empty string. *)
Theorem hash_determinism (hash_algorithm : string) (r1 r2 : record) (k : string)
    (v v' : value) (id_cols : list string) :
  wf_dict r1 ->
  (r1 ≡ₚ r2 ->
   _calculate_record_hash hash_algorithm r1 = _calculate_record_hash hash_algorithm r2)
  /\ (dict_get r1 k = Some v ->
      (record_str (dict_replace r1 k v') = record_str r1 <-> str v' = str v))
  /\ ((forall c, In c id_cols -> dict_get r1 c = dict_get r2 c) ->
      _calculate_id_hash hash_algorithm id_cols r1
      = _calculate_id_hash hash_algorithm id_cols r2)
  /\ id_values id_cols r1
     = map (fun c => match dict_get r1 c with Some x => str x | None => "" end) id_cols.
Proof.
  intros Hwf. split; [|split; [|split]].
  - intros Hperm. unfold _calculate_record_hash, record_str.
    now rewrite (sorted_items_unique r1 r2 Hwf Hperm).
  - intros Hget. now apply record_str_replace.
  - intros Hsame. unfold _calculate_id_hash, id_str.
    now rewrite (dict_get_ext_id_values id_cols r1 r2 Hsame).
  - unfold id_values, get_default. apply map_ext. intros c.
    now destruct (dict_get r1 c).
Qed.

Lemma hash_determinism_witness :
  _calculate_record_hash "md5" alice = _calculate_record_hash "md5" (rev alice)
  /\ record_str (dict_replace alice "name" (PyStr "Alicia")) <> record_str alice
  /\ _calculate_id_hash "md5" ["id"; "region"] alice
     = _calculate_id_hash "md5" ["id"; "region"] (("note", PyNone) :: alice)
  /\ id_values ["id"; "region"] alice = ["1"; ""].
Proof.
  assert (Hwf : wf_dict alice) by (by_decide).
  destruct (hash_determinism "md5" alice (rev alice) "name" (PyStr "Alice")
              (PyStr "Alicia") ["id"; "region"] Hwf) as (Horder & Hvalue & Hid & Hmissing).
  split; [|split; [|split]].
  - apply Horder. apply Permutation_rev.
  - intros Heq. apply (Hvalue eq_refl) in Heq. discriminate Heq.
  - destruct (hash_determinism "md5" alice (("note", PyNone) :: alice) "name"
                (PyStr "Alice") (PyStr "Alicia") ["id"; "region"] Hwf) as (_ & _ & Hid' & _).
    apply Hid'. intros c Hc. simpl in Hc.
    destruct Hc as [<-|[<-|[]]]; reflexivity.
  - rewrite Hmissing. reflexivity.
Defined.

(** C7, as stated, fails: the integer [1] and the string ["1"] are different
    values of the field [id], and the record hash is the same under both
    algorithms. *)
Lemma record_hash_blind_to_rendering :
  wf_dict alice
  /\ dict_get alice "id" = Some (PyInt 1)
  /\ PyStr "1" <> PyInt 1
  /\ _calculate_record_hash "md5" (dict_replace alice "id" (PyStr "1"))
     = _calculate_record_hash "md5" alice
  /\ _calculate_record_hash "sha256" (dict_replace alice "id" (PyStr "1"))
     = _calculate_record_hash "sha256" alice.
Proof.
  split; [by_decide|].
  split; [reflexivity|]. split; [discriminate|].
  split; vm_compute; reflexivity.
Qed.

(** C10. The canonical string of a record does not determine the record:
    the separator is not escaped. The same holds for the identifying
    values, also for two rows the duplicate check tells apart. *)
Theorem canonicalization_not_injective :
  let r1 := [("a", PyStr "1"); ("b", PyStr "2"); ("c", PyStr "3")] in
  let r2 := [("a", PyStr "1"); ("b", PyStr "2|c:3")] in
  let i1 := [("a", PyStr "1|2"); ("b", PyStr "3")] in
  let i2 := [("a", PyStr "1"); ("b", PyStr "2|3")] in
  (r1 <> r2 /\ wf_dict r1 /\ wf_dict r2
   /\ record_str r1 = "a:1|b:2|c:3" /\ record_str r2 = "a:1|b:2|c:3"
   /\ forall hash_algorithm,
        _calculate_record_hash hash_algorithm r1 = _calculate_record_hash hash_algorithm r2)
  /\ (i1 <> i2 /\ id_tuple ["a"; "b"] i1 <> id_tuple ["a"; "b"] i2
      /\ id_str ["a"; "b"] i1 = "1|2|3" /\ id_str ["a"; "b"] i2 = "1|2|3"
      /\ forall hash_algorithm,
           _calculate_id_hash hash_algorithm ["a"; "b"] i1
           = _calculate_id_hash hash_algorithm ["a"; "b"] i2).
Proof.
  cbv zeta. split.
  - split; [discriminate|].
    split; [by_decide|].
    split; [by_decide|].
    split; [vm_compute; reflexivity|]. split; [vm_compute; reflexivity|].
    intros hash_algorithm. unfold _calculate_record_hash. f_equal.
  - split; [discriminate|]. split; [vm_compute; discriminate|].
    split; [vm_compute; reflexivity|]. split; [vm_compute; reflexivity|].
    intros hash_algorithm. unfold _calculate_id_hash. f_equal.
Qed.

(** ** Configuration errors *)

Lemma not_elem_of_bool_decide (x : string) (l : list string) :
  ~ In x l -> bool_decide (x ∈ l) = false.
Proof. intros H. apply bool_decide_eq_false. now rewrite list_elem_of_In. Qed.

(** C9, as amended. A missing [table_name], a [write_mode] outside the four
    modes and, under [historize], missing [id_columns] or a hash algorithm
    outside [md5] and [sha256] make [PostgresDestination(config)] raise a
    [ValueError]; nothing outside the process has been touched by then: the
    world is the one the constructor was called in. *)
Theorem config_errors_raise_before_io (cfg : Config) (w : World) :
  config_error cfg ->
  exists msg, __init__ cfg w = (Raises (ValueError msg), w).
Proof.
  unfold config_error, __init__, validate_config, bind, raise.
  unfold effective_write_mode, effective_hash_algorithm, effective_historization.
  intros Herr.
  destruct (falsy_str (cfg_table_name cfg)) eqn:Hname; [eauto|].
  destruct Herr as [Hmissing|[Hmode|(Hhist & Hrest)]]; [discriminate| |].
  - rewrite (not_elem_of_bool_decide _ _ Hmode). simpl. eauto.
  - destruct (bool_decide _); simpl; [|eauto].
    rewrite Hhist. simpl.
    destruct (falsy_list _) eqn:Hids; [eauto|].
    destruct Hrest as [Hfalsy|Halgo]; [discriminate|].
    rewrite (not_elem_of_bool_decide _ _ Halgo). simpl. eauto.
Qed.

Lemma config_errors_raise_before_io_witness :
  exists msg,
    __init__ (plain_config "upsert" None) (world_of ∅ [])
    = (Raises (ValueError msg), world_of ∅ []).
Proof.
  apply config_errors_raise_before_io.
  right. left. vm_compute. intuition discriminate.
Defined.

(** C9, as stated, fails: outside [historize] the hash algorithm is not
    looked at, and the destination is constructed. *)
Lemma hash_algorithm_unchecked_outside_historize :
  config_error_as_stated (plain_config "append" (Some "sha1"))
  /\ exists self,
       __init__ (plain_config "append" (Some "sha1")) (world_of ∅ [])
       = (Returns self, world_of ∅ [])
       /\ hash_algorithm self = "sha1".
Proof.
  split.
  - right. right. right. vm_compute. intuition discriminate.
  - eexists. split; reflexivity.
Qed.

(** ** The empty batch *)

(** C8. For an empty batch [load] returns the successful no-op result in
    every write mode and whatever the state of the destination; no external
    call is made and neither the database nor the connection changes (the
    clock has been looked at once). [pre_load_hook] returns at once. *)
Theorem empty_batch_is_a_no_op (self : PostgresDestination) (context : Context)
    (w : World) :
  (exists w',
     load self [] context w
     = (Returns {| rows_loaded := 0; status := "success"; duration_seconds := 0;
                   message := Some "No data to load"; table := None;
                   historization_stats := None; result_write_mode := None;
                   used_temp_table := None; error := None |}, w')
     /\ db w' = db w /\ session w' = session w /\ trace w' = trace w
     /\ faults w' = faults w)
  /\ pre_load_hook self [] w = (Returns self, w).
Proof.
  split; [|reflexivity].
  eexists. split; [reflexivity|]. repeat split.
Qed.

(** ** How a failure of [load] surfaces *)

Lemma load_never_raises (self : PostgresDestination) (data : list record)
    (context : Context) (w : World) :
  exists result w', load self data context w = (Returns result, w').
Proof.
  unfold load, bind, time_time. destruct data as [|r data]; [eauto|].
  unfold try_except.
  match goal with
  | |- context [match ?run with _ => _ end] => destruct run as [[result|e] w1]
  end; eauto.
Qed.

(** Membership in a closed list of events. *)
Ltac find_event := repeat (first [left; reflexivity | right]).

(** C6 against the code: the supersede statement of a historize load fails;
    the merge rolls back and re-raises, the handler inside [load] re-raises,
    and the outer handler of [load] turns the exception into a result. *)
Lemma historize_failure_is_returned_not_raised :
  exists w',
    load_data (historize_config ["id"]) [alice] (world_of ∅ [41%nat])
    = (Returns {| rows_loaded := 0; status := "failed"; duration_seconds := 4;
                  message := None; table := None; historization_stats := None;
                  result_write_mode := None; used_temp_table := None;
                  error := Some "statement failed" |}, w')
    /\ In (OpExecute (SupersedeSql (Qualified "public" "emp") (Bare "emp_staging_100") 104),
           false) (trace w')
    /\ In (OpExecute Rollback, true) (trace w')
    /\ target_of w' = Some (HistRel []).
Proof.
  eexists. split; [vm_compute; reflexivity|].
  split; [vm_compute; find_event|]. split; [vm_compute; find_event|].
  vm_compute. reflexivity.
Qed.

(** ** The merge keeps at most one open row per identity *)

Section Counting.
Context {A : Type}.

Lemma filter_map_length_eq (p : A -> bool) (g : A -> A) (l : list A) :
  (forall x, p (g x) = p x) ->
  length (List.filter p (map g l)) = length (List.filter p l).
Proof.
  intros H. induction l as [|x l IH]; simpl; [reflexivity|].
  rewrite H. destruct (p x); simpl; now rewrite IH.
Qed.

Lemma filter_map_length_le (p : A -> bool) (g : A -> A) (l : list A) :
  (forall x, p (g x) = true -> p x = true) ->
  (length (List.filter p (map g l)) <= length (List.filter p l))%nat.
Proof.
  intros H. induction l as [|x l IH]; simpl; [lia|].
  destruct (p (g x)) eqn:E.
  - rewrite (H x E). simpl. lia.
  - destruct (p x); simpl; lia.
Qed.

Lemma filter_length_le (p q : A -> bool) (l : list A) :
  (forall x, p x = true -> q x = true) ->
  (length (List.filter p l) <= length (List.filter q l))%nat.
Proof.
  intros H. induction l as [|x l IH]; simpl; [lia|].
  destruct (p x) eqn:E.
  - rewrite (H x E). simpl. lia.
  - destruct (q x); simpl; lia.
Qed.

Lemma filter_nil_iff (p : A -> bool) (l : list A) :
  (forall x, In x l -> p x = false) -> List.filter p l = [].
Proof.
  intros H. induction l as [|x l IH]; simpl; [reflexivity|].
  rewrite (H x) by now left. apply IH. intros y Hy. apply H. now right.
Qed.

End Counting.

Lemma filter_map_count {A B} (p : B -> bool) (q : A -> bool) (g : A -> B) (l : list A) :
  (forall x, p (g x) = q x) ->
  length (List.filter p (map g l)) = length (List.filter q l).
Proof.
  intros H. induction l as [|x l IH]; simpl; [reflexivity|].
  rewrite H. destruct (q x); simpl; now rewrite IH.
Qed.

Lemma filter_filter_length_le {A} (p q : A -> bool) (l : list A) :
  (length (List.filter q (List.filter p l)) <= length (List.filter q l))%nat.
Proof.
  induction l as [|x l IH]; simpl; [lia|].
  destruct (p x); simpl; destruct (q x); simpl; lia.
Qed.

Lemma NoDup_key_count {A} (key : A -> string) (id : string) (l : list A) :
  NoDup (map key l) ->
  (length (List.filter (fun s => String.eqb (key s) id) l) <= 1)%nat.
Proof.
  induction l as [|x l IH]; simpl; [lia|].
  intros Hnd. apply NoDup_cons in Hnd as [Hx Hnd].
  destruct (String.eqb_spec (key x) id) as [<-|Hne]; [|now apply IH].
  simpl. rewrite filter_nil_iff; [simpl; lia|].
  intros y Hy. apply String.eqb_neq. intros Heq. apply Hx.
  apply list_elem_of_In, in_map_iff. exists y. split; [assumption|assumption].
Qed.

Section MergeInvariant.
Variable ts : timestamp.
Variable staging : list Row.

Lemma restore_open_rows id target :
  length (open_rows id (restore_phase ts staging target)) = length (open_rows id target).
Proof.
  unfold open_rows, restore_phase, sql_update. simpl.
  apply filter_map_length_eq. intros t.
  destruct (restore_where staging t); reflexivity.
Qed.

Lemma supersede_open_rows id target :
  (length (open_rows id (supersede_phase ts staging target))
   <= length (open_rows id target))%nat.
Proof.
  unfold open_rows, supersede_phase, sql_update. simpl.
  apply filter_map_length_le. intros t.
  destruct (supersede_where staging t); [|auto].
  unfold is_open. simpl. discriminate.
Qed.

Lemma delete_open_rows id target :
  length (open_rows id (delete_phase ts staging target)) = length (open_rows id target).
Proof.
  unfold open_rows, delete_phase, sql_update. simpl.
  apply filter_map_length_eq. intros t.
  destruct (delete_where staging t); reflexivity.
Qed.

Lemma restored_row_current t :
  let t1 := if restore_where staging t then restore_set ts t else t in
  is_open t1 = true -> exists_id staging t1 = true -> is_current t1 = true.
Proof.
  unfold is_open, is_current, exists_id.
  destruct (restore_where staging t) eqn:Hres; simpl.
  - intros ->. reflexivity.
  - intros Hv Hex. unfold restore_where, exists_id in Hres.
    rewrite Hv, Hex in Hres. rewrite Hv.
    destruct (_deleted_at t); [discriminate Hres | reflexivity].
Qed.

(** After restore and supersede, an open row whose identity is staged is
    current and carries the record hash of every staged row of that
    identity. *)
Lemma open_after_supersede target r s :
  In r (supersede_phase ts staging (restore_phase ts staging target)) ->
  is_open r = true -> In s staging -> _id_hash s = _id_hash r ->
  is_current r = true /\ _record_hash s = _record_hash r.
Proof.
  unfold supersede_phase, restore_phase, sql_update. simpl.
  rewrite map_map. intros Hin Hopen Hs Hid.
  apply in_map_iff in Hin as (t & <- & Ht).
  pose proof (restored_row_current t) as Hcur. simpl in Hcur.
  set (t1 := if restore_where staging t then restore_set ts t else t) in *.
  destruct (supersede_where staging t1) eqn:Hsup; [discriminate Hopen|].
  assert (Hex : exists_id staging t1 = true).
  { unfold exists_id. apply existsb_exists. exists s. split; [assumption|].
    now apply String.eqb_eq. }
  specialize (Hcur Hopen Hex).
  split; [assumption|].
  unfold supersede_where in Hsup. unfold is_current in Hcur.
  apply andb_true_iff in Hcur as [Hv Hd]. rewrite Hv, Hd in Hsup. simpl in Hsup.
  destruct (String.eqb_spec (_record_hash s) (_record_hash t1)) as [|Hne]; [assumption|].
  exfalso. apply not_true_iff_false in Hsup. apply Hsup.
  apply existsb_exists. exists s. split; [assumption|].
  apply andb_true_iff. split; [now apply String.eqb_eq|].
  apply negb_true_iff. now apply String.eqb_neq.
Qed.

Lemma insert_open_rows data_columns id target :
  NoDup (map _id_hash staging) ->
  let t2 := supersede_phase ts staging (restore_phase ts staging target) in
  (length (open_rows id t2) <= 1)%nat ->
  (length (open_rows id (insert_phase ts data_columns staging t2)) <= 1)%nat.
Proof.
  intros Hnd t2 Hle. unfold insert_phase, sql_insert_select. simpl.
  unfold open_rows at 1. rewrite List.filter_app, length_app.
  fold (open_rows id t2).
  set (new_open := List.filter _ (map _ _)).
  assert (Hnew : (length new_open <= 1)%nat).
  { subst new_open.
    rewrite (filter_map_count _ (fun s => String.eqb (_id_hash s) id))
      by (intros s; reflexivity).
    etransitivity; [apply filter_filter_length_le|].
    now apply NoDup_key_count. }
  destruct (open_rows id t2) as [|r rest] eqn:Hopen; [simpl; lia|].
  assert (Hr : In r (open_rows id t2)) by (rewrite Hopen; now left).
  unfold open_rows in Hr. apply filter_In in Hr as [Hr_in Hr_p].
  apply andb_true_iff in Hr_p as [Hr_open Hr_id]. apply String.eqb_eq in Hr_id.
  assert (Hnil : new_open = []).
  { subst new_open. apply filter_nil_iff. intros n Hn.
    apply in_map_iff in Hn as (s & <- & Hs).
    apply filter_In in Hs as [Hs_in Hs_w].
    unfold is_open. simpl.
    destruct (String.eqb_spec (_id_hash s) id) as [Hsid|]; [|reflexivity].
    exfalso.
    destruct (open_after_supersede target r s Hr_in Hr_open Hs_in) as [Hcur Hrec];
      [congruence|].
    unfold insert_where in Hs_w. apply negb_true_iff, not_true_iff_false in Hs_w.
    apply Hs_w. apply existsb_exists. exists r. split; [assumption|].
    unfold is_current in Hcur. apply andb_true_iff in Hcur as [Hv Hd].
    rewrite Hv, Hd. rewrite !andb_true_r. apply andb_true_iff.
    split; apply String.eqb_eq; congruence. }
  rewrite Hnil. simpl in *. lia.
Qed.

Lemma merge_rows_open track data_columns target :
  NoDup (map _id_hash staging) ->
  at_most_one_open target ->
  at_most_one_open (merge_rows ts track data_columns staging target).
Proof.
  intros Hnd Hinv id. unfold merge_rows.
  assert (H3 : (length (open_rows id
            (insert_phase ts data_columns staging
               (supersede_phase ts staging (restore_phase ts staging target)))) <= 1)%nat).
  { apply insert_open_rows; [assumption|].
    etransitivity; [apply supersede_open_rows|].
    rewrite restore_open_rows. apply Hinv. }
  destruct track; [rewrite delete_open_rows|]; exact H3.
Qed.

End MergeInvariant.

Lemma at_most_one_open_current rows : at_most_one_open rows -> at_most_one_current rows.
Proof.
  intros H id. etransitivity; [|apply (H id)].
  unfold current_rows, open_rows. apply filter_length_le.
  intros r Hr. apply andb_true_iff in Hr as [Hc Hid].
  unfold is_current in Hc. apply andb_true_iff in Hc as [Hv _].
  unfold is_open. now rewrite Hv, Hid.
Qed.

Lemma reachable_open rows : reachable rows -> at_most_one_open rows.
Proof.
  induction 1 as [|ts track data_columns staging target _ IH Hnd].
  - intros id. simpl. lia.
  - now apply merge_rows_open.
Qed.

(** C1, as amended. A target that was created empty and has only been
    merged into has, after one more merge, at most one current row for every
    [id_hash], provided each staged batch has pairwise distinct [_id_hash]
    values. The induction goes through the stronger invariant of at most one
    open row ([_valid_to] null, deleted or not) per [id_hash]. *)
Theorem at_most_one_current_after_merge (ts : timestamp) (track : bool)
    (data_columns : list string) (staging target : list Row) :
  reachable target ->
  NoDup (map _id_hash staging) ->
  at_most_one_current target
  /\ at_most_one_current (merge_rows ts track data_columns staging target).
Proof.
  intros Hreach Hnd. split; apply at_most_one_open_current.
  - now apply reachable_open.
  - apply merge_rows_open; [assumption|]. now apply reachable_open.
Qed.

Lemma at_most_one_current_after_merge_witness :
  at_most_one_current
    (merge_rows 2 true ["id"; "name"]
       [sample_row "x" "h2" None None; sample_row "y" "h1" None None]
       (merge_rows 1 true ["id"; "name"] [sample_row "x" "h1" None None] [])).
Proof.
  apply (at_most_one_current_after_merge 2 true ["id"; "name"]
           [sample_row "x" "h2" None None; sample_row "y" "h1" None None]
           (merge_rows 1 true ["id"; "name"] [sample_row "x" "h1" None None] [])).
  - apply reachable_merge; [apply reachable_empty|]. by_decide.
  - by_decide.
Defined.

(** C1, as stated, fails: the two rows of [colliding_batch] have different
    identifying tuples, so the duplicate check passes, and the same
    [_id_hash]; one load into the empty table leaves two current rows for
    that [_id_hash]. *)
Lemma unique_keys_with_one_id_hash :
  has_duplicates ["a"; "b"] colliding_batch = false
  /\ exists result w' rows,
       load_data (historize_config ["a"; "b"]) colliding_batch (world_of ∅ [])
       = (Returns result, w')
       /\ status result = "success"
       /\ target_of w' = Some (HistRel rows)
       /\ length (current_rows "02b12e930c8bcc7e92e74ff5d96ce118" rows) = 2%nat
       /\ ~ at_most_one_current rows.
Proof.
  split; [vm_compute; reflexivity|].
  eexists _, _, _. split; [vm_compute; reflexivity|].
  split; [reflexivity|]. split; [vm_compute; reflexivity|].
  split; [vm_compute; reflexivity|].
  intros H. specialize (H "02b12e930c8bcc7e92e74ff5d96ce118").
  vm_compute in H. lia.
Qed.

(** At most one current row per [id_hash] is not by itself preserved: next
    to the current row a deleted open row of the same identity and content
    is restored by the merge and stays current. No run of merges from the
    empty table produces such a target. *)
Lemma at_most_one_current_alone_not_preserved :
  let target := [sample_row "x" "h1" None None; sample_row "x" "h1" None (Some 1)] in
  let staging := [sample_row "x" "h1" None None] in
  at_most_one_current target
  /\ NoDup (map _id_hash staging)
  /\ ~ at_most_one_current (merge_rows 2 true ["id"; "name"] staging target).
Proof.
  cbv zeta. split; [|split].
  - intros id. unfold current_rows.
    etransitivity; [apply (filter_length_le _ is_current)|vm_compute; lia].
    intros r Hr. now apply andb_true_iff in Hr.
  - by_decide.
  - intros H. specialize (H "x"). vm_compute in H. lia.
Qed.

(** ** The four phases against their description *)

Lemma Forall2_map_self {A} (P : A -> A -> Prop) (f : A -> A) (l : list A) :
  (forall x, In x l -> P x (f x)) -> Forall2 P l (map f l).
Proof.
  induction l as [|x l IH]; simpl; intros H; constructor.
  - apply H. now left.
  - apply IH. intros y Hy. apply H. now right.
Qed.

Lemma exists_id_staged (staging : list Row) (t : Row) :
  exists_id staging t = true <-> staged_id staging (_id_hash t).
Proof.
  unfold exists_id, staged_id. rewrite existsb_exists, in_map_iff.
  split; intros (s & H1 & H2).
  - apply String.eqb_eq in H2. eauto.
  - exists s. split; [assumption|]. now apply String.eqb_eq.
Qed.

Lemma is_null_true {A} (o : option A) : is_null o = true <-> o = None.
Proof. destruct o; simpl; split; congruence. Qed.

Lemma is_null_false {A} (o : option A) : is_null o = false <-> o <> None.
Proof. destruct o; simpl; split; congruence. Qed.

Lemma restore_where_iff (staging : list Row) (t : Row) :
  restore_where staging t = true
  <-> _deleted_at t <> None /\ _valid_to t = None /\ staged_id staging (_id_hash t).
Proof.
  unfold restore_where. rewrite !andb_true_iff, negb_true_iff.
  now rewrite is_null_false, is_null_true, exists_id_staged.
Qed.

Lemma supersede_where_iff (staging : list Row) (t : Row) :
  supersede_where staging t = true
  <-> _valid_to t = None /\ _deleted_at t = None
      /\ exists s, In s staging /\ _id_hash s = _id_hash t
                   /\ _record_hash s <> _record_hash t.
Proof.
  unfold supersede_where. rewrite !andb_true_iff, !is_null_true, existsb_exists.
  split.
  - intros ((Hv & Hd) & s & Hs & Hm). apply andb_true_iff in Hm as [Hid Hrec].
    apply String.eqb_eq in Hid. apply negb_true_iff, String.eqb_neq in Hrec. eauto 7.
  - intros (Hv & Hd & s & Hs & Hid & Hrec). split; [tauto|].
    exists s. split; [assumption|]. apply andb_true_iff.
    split; [now apply String.eqb_eq | now apply negb_true_iff, String.eqb_neq].
Qed.

Lemma delete_where_iff (staging : list Row) (t : Row) :
  delete_where staging t = true
  <-> _valid_to t = None /\ _deleted_at t = None /\ ~ staged_id staging (_id_hash t).
Proof.
  unfold delete_where. rewrite !andb_true_iff, negb_true_iff, !is_null_true.
  rewrite <- exists_id_staged, not_true_iff_false. tauto.
Qed.

Lemma insert_where_iff (target : list Row) (s : Row) :
  insert_where target s = true <-> no_current_match target s.
Proof.
  unfold insert_where, no_current_match.
  rewrite negb_true_iff, <- not_true_iff_false, existsb_exists.
  apply not_iff_compat. split; intros (t & Ht & Hm); exists t; (split; [assumption|]).
  - rewrite !andb_true_iff, !String.eqb_eq, !is_null_true in Hm. tauto.
  - rewrite !andb_true_iff, !String.eqb_eq, !is_null_true. tauto.
Qed.

Lemma restore_phase_spec ts staging target :
  restore_spec ts staging target (restore_phase ts staging target).
Proof.
  unfold restore_spec, restore_phase, sql_update. simpl.
  apply Forall2_map_self. intros t _. cbv zeta.
  rewrite <- restore_where_iff.
  destruct (restore_where staging t) eqn:Hw.
  - split; [|congruence]. intros _. apply restore_where_iff in Hw as (_ & Hv & _).
    unfold same_payload. simpl. tauto.
  - split; [congruence|reflexivity].
Qed.

Lemma supersede_phase_spec ts staging target :
  supersede_spec ts staging target (supersede_phase ts staging target).
Proof.
  unfold supersede_spec, supersede_phase, sql_update. simpl.
  apply Forall2_map_self. intros t _. cbv zeta.
  rewrite <- supersede_where_iff.
  destruct (supersede_where staging t) eqn:Hw.
  - split; [|congruence]. intros _. apply supersede_where_iff in Hw as (_ & Hd & _).
    unfold same_payload. simpl. tauto.
  - split; [congruence|reflexivity].
Qed.

Lemma delete_phase_spec ts staging target :
  delete_spec ts staging target (delete_phase ts staging target).
Proof.
  unfold delete_spec, delete_phase, sql_update. simpl.
  apply Forall2_map_self. intros t _. cbv zeta.
  rewrite <- delete_where_iff.
  destruct (delete_where staging t) eqn:Hw.
  - split; [|congruence]. intros _. apply delete_where_iff in Hw as (Hv & _ & _).
    unfold same_payload. simpl. tauto.
  - split; [congruence|reflexivity].
Qed.

Lemma filter_is_sublist {A} (p : A -> bool) (l : list A) : sublist (List.filter p l) l.
Proof.
  induction l as [|x l IH]; simpl; [constructor|].
  destruct (p x); now constructor.
Qed.

Lemma filter_split {A} (p : A -> bool) (l : list A) :
  l ≡ₚ List.filter p l ++ List.filter (fun x => negb (p x)) l.
Proof.
  induction l as [|x l IH]; simpl; [reflexivity|].
  destruct (p x); simpl.
  - now constructor.
  - rewrite <- Permutation_middle. now constructor.
Qed.

Lemma dict_get_map_self (f : string -> value) (cols : list string) (c : string) :
  In c cols -> dict_get (map (fun c => (c, f c)) cols) c = Some (f c).
Proof.
  induction cols as [|c' cols IH]; simpl; [contradiction|].
  destruct (String.eqb_spec c' c) as [->|Hne]; [reflexivity|].
  intros [Heq|Hin]; [contradiction|now apply IH].
Qed.

Lemma insert_select_inserted (ts : timestamp) (data_columns : list string) (s : Row) :
  inserted_from ts data_columns s (insert_select ts data_columns s).
Proof.
  unfold inserted_from, insert_select. cbn. split.
  - unfold keys. rewrite List.map_map. cbn. apply List.map_id.
  - split; [intros c Hc; now apply dict_get_map_self|]. repeat split.
Qed.

Lemma insert_phase_spec ts data_columns staging target :
  insert_spec ts data_columns staging target (insert_phase ts data_columns staging target).
Proof.
  unfold insert_spec, insert_phase, sql_insert_select. simpl.
  exists (List.filter (insert_where target) staging).
  exists (List.filter (fun s => negb (insert_where target s)) staging).
  exists (map (insert_select ts data_columns) (List.filter (insert_where target) staging)).
  split; [apply filter_split|].
  split.
  { apply List.Forall_forall. intros s Hs. apply filter_In in Hs as [_ Hs].
    now apply insert_where_iff. }
  split.
  { apply List.Forall_forall. intros s Hs. apply filter_In in Hs as [_ Hs].
    rewrite <- insert_where_iff. apply negb_true_iff in Hs. congruence. }
  split; [|reflexivity].
  clear. induction (List.filter (insert_where target) staging) as [|s l IH]; cbn.
  - constructor.
  - constructor; [apply insert_select_inserted|exact IH].
Qed.

(** ** Executing the merge *)

Arguments exec_stmt : simpl never.

Section ExecFacts.
Variables (p : gmap (string * string) Relation) (t : gmap string Relation).
Variables (sch n stg : string) (ts : timestamp) (tgt sta : list Row).
Hypothesis Htarget : p !! (sch, n) = Some (HistRel tgt).
Hypothesis Hstaging : t !! stg = Some (HistRel sta).

Lemma exec_select_staging :
  exec_stmt (SelectLimit1 (Bare stg)) {| perm := p; temp := t |}
  = Some ({| perm := p; temp := t |},
          match sta with
          | r :: _ => {| rowcount := 1; fetched := true;
                         description := keys (columns r) ++ system_columns |}
          | [] => {| rowcount := 0; fetched := false; description := [] |}
          end).
Proof. unfold exec_stmt, resolve. simpl. rewrite Hstaging. now destruct sta. Qed.

Lemma exec_update_target upd :
  exec_update {| perm := p; temp := t |} (Qualified sch n) (Bare stg) upd
  = Some ({| perm := <[(sch, n) := HistRel (fst (upd sta tgt))]> p; temp := t |},
          affected (snd (upd sta tgt))).
Proof.
  unfold exec_update, resolve. simpl. rewrite Htarget, Hstaging.
  now destruct (upd sta tgt).
Qed.

Lemma exec_restore :
  exec_stmt (RestoreSql (Qualified sch n) (Bare stg) ts) {| perm := p; temp := t |}
  = Some ({| perm := <[(sch, n) := HistRel (restore_phase ts sta tgt)]> p; temp := t |},
          affected (length (List.filter (restore_where sta) tgt))).
Proof. unfold exec_stmt. now rewrite exec_update_target. Qed.

Lemma exec_supersede :
  exec_stmt (SupersedeSql (Qualified sch n) (Bare stg) ts) {| perm := p; temp := t |}
  = Some ({| perm := <[(sch, n) := HistRel (supersede_phase ts sta tgt)]> p; temp := t |},
          affected (length (List.filter (supersede_where sta) tgt))).
Proof. unfold exec_stmt. now rewrite exec_update_target. Qed.

Lemma exec_insert cols :
  cols <> [] ->
  exec_stmt (InsertSql (Qualified sch n) (Bare stg) ts cols) {| perm := p; temp := t |}
  = Some ({| perm := <[(sch, n) := HistRel (insert_phase ts cols sta tgt)]> p; temp := t |},
          affected (length (List.filter (insert_where tgt) sta))).
Proof.
  intros Hc. unfold exec_stmt. destruct cols; [congruence|].
  rewrite exec_update_target. unfold insert_phase, sql_insert_select. simpl.
  now rewrite length_map.
Qed.

Lemma exec_delete :
  exec_stmt (DeleteSql (Qualified sch n) (Bare stg) ts) {| perm := p; temp := t |}
  = Some ({| perm := <[(sch, n) := HistRel (delete_phase ts sta tgt)]> p; temp := t |},
          affected (length (List.filter (delete_where sta) tgt))).
Proof. unfold exec_stmt. now rewrite exec_update_target. Qed.

End ExecFacts.

(** Running a computation on a world given field by field. *)
Ltac run_goal :=
  cbv beta iota zeta delta
      [bind try_except try_pass finally ret raise when negb
       hook_get_conn cursor_execute conn_commit conn_rollback conn_cursor cursor_close
       conn_close time_time datetime_now fault_now
       session db trace faults clock ticks
       with_session with_db record_op commit_session rollback_session abort_session
       aborted work temp_saved fresh_session perm temp
       fst snd].

Ltac run_in H :=
  cbv beta iota zeta delta
      [bind try_except try_pass finally ret raise when negb
       hook_get_conn cursor_execute conn_commit conn_rollback conn_cursor cursor_close
       conn_close time_time datetime_now fault_now
       session db trace faults clock ticks
       with_session with_db record_op commit_session rollback_session abort_session
       aborted work temp_saved fresh_session perm temp
       fst snd] in H.

(** One case split on what the outside world answers next. *)
Ltac run_step H :=
  match type of H with
  | context [match exec_stmt ?s ?st with _ => _ end] =>
      let E := fresh "Hexec" in destruct (exec_stmt s st) as [[? ?]|] eqn:E
  | context [if fetched ?a then _ else _] =>
      let E := fresh "Hfetched" in destruct (fetched a) eqn:E
  | context [if track_deletes ?a then _ else _] =>
      let E := fresh "Htrack" in destruct (track_deletes a) eqn:E
  | context [if ?f (length ?t) then _ else _] =>
      let E := fresh "Hfault" in destruct (f (length t)) eqn:E
  end.

Ltac run_all H := run_in H; repeat (run_step H; run_in H).

(** What every run of the merge satisfies, whatever fails: it looks at the
    clock once and every statement it issues carries that reading; a failed
    phase, and more generally a run that does not get to execute [COMMIT],
    ends in an exception with the committed database as it was. *)
Lemma merge_run_facts self staging_table target_table conn_given w out w' :
  _merge_historized_data self staging_table target_table conn_given w = (out, w') ->
  ticks w' = S (ticks w) /\ faults w' = faults w /\ clock w' = clock w /\
  exists evs, trace w' = trace w ++ evs /\
    Forall (stamped_with (clock w (ticks w))) evs /\
    (phase_failed evs -> (exists e, out = Raises e) /\ db w' = db w) /\
    (~ commit_done evs -> (exists e, out = Raises e) /\ db w' = db w) /\
    ((exists stats, out = Returns stats) -> commit_done evs).
Proof.
  unfold _merge_historized_data. intros Hrun.
  destruct w as [db0 [[wk sv [|]]|] clk tk flt tr], conn_given.
  all: run_all Hrun.
  all: injection Hrun as <- <-.
  all: cbn [ticks faults clock trace db].
  all: split; [reflexivity|split; [reflexivity|split; [reflexivity|]]].
  all: eexists; split; [rewrite <- ?app_assoc; simpl; reflexivity|].
  all: split; [repeat constructor|].
  all: unfold phase_failed, commit_done.
  all: split; [intros (s' & Hs & Hin)|split; [intros Hno|intros (st' & Hst)]].
  all: try (split; [eauto|reflexivity]).
  all: try discriminate.
  all: try (simpl; tauto).
  all: try (exfalso; apply Hno; simpl; tauto).
  all: try (exfalso; simpl in Hin;
    repeat (destruct Hin as [Hin|Hin];
            [inversion Hin; subst; simpl in Hs; discriminate Hs|]);
    contradiction).
Qed.

(** The merge when nothing fails. *)
Lemma merge_success self staging_table target_table w ss tgt sta :
  session w = Some ss -> aborted ss = false ->
  (forall k, faults w k = false) ->
  perm (work ss) !! (schema self, target_table) = Some (HistRel tgt) ->
  temp (work ss) !! staging_table = Some (HistRel sta) ->
  (sta <> [] -> staging_data_columns sta <> []) ->
  let ts := clock w (ticks w) in
  let target := Qualified (schema self) target_table in
  let staging := Bare staging_table in
  let cols := staging_data_columns sta in
  exists stats w' evs,
    _merge_historized_data self staging_table target_table true w = (Returns stats, w')
    /\ trace w' = trace w ++ evs
    /\ executed evs
       = [SelectLimit1 staging; Begin; RestoreSql target staging ts;
          SupersedeSql target staging ts]
         ++ (match sta with [] => [] | _ => [InsertSql target staging ts cols] end)
         ++ (if track_deletes self then [DeleteSql target staging ts] else [])
         ++ [Commit]
    /\ db w' = <[(schema self, target_table) :=
                   HistRel (merge_rows ts (track_deletes self) cols sta tgt)]> (perm (work ss)).
Proof.
  intros Hs Hab Hnf HT HS Hcols.
  destruct w as [db0 sess clk tk flt tr]. simpl in Hs, Hnf. subst sess.
  destruct ss as [[p t] sv ab]. simpl in Hab, HT, HS. subst ab.
  unfold _merge_historized_data. run_goal.
  rewrite ?Hnf.
  rewrite (exec_select_staging p t staging_table sta HS).
  assert (Hbegin : forall st, exec_stmt Begin st = Some (st, affected 0)) by reflexivity.
  rewrite ?Hnf. rewrite Hbegin. rewrite ?Hnf.
  rewrite (exec_restore p t _ _ _ (clk tk) tgt sta HT HS). rewrite ?Hnf.
  rewrite (exec_supersede _ t _ _ _ (clk tk) _ sta (lookup_insert_eq _ _ _) HS). rewrite ?Hnf.
  rewrite insert_insert_eq.
  destruct sta as [|r sta'].
  - cbv beta iota zeta delta [fetched description rowcount affected].
    destruct (track_deletes self).
    + rewrite (exec_delete _ t _ _ _ (clk tk) _ [] (lookup_insert_eq _ _ _) HS). rewrite ?Hnf.
      rewrite insert_insert_eq.
      eexists _, _, _. split; [reflexivity|].
      cbn [trace db]. split; [rewrite <- !app_assoc; simpl; reflexivity|].
      split; [reflexivity|].
      unfold merge_rows, insert_phase, sql_insert_select. simpl. now rewrite app_nil_r.
    + rewrite ?Hnf.
      eexists _, _, _. split; [reflexivity|].
      cbn [trace db]. split; [rewrite <- !app_assoc; simpl; reflexivity|].
      split; [reflexivity|].
      unfold merge_rows, insert_phase, sql_insert_select. simpl. now rewrite app_nil_r.
  - cbv beta iota zeta delta [fetched description rowcount affected].
    specialize (Hcols ltac:(discriminate)).
    rewrite (exec_insert _ t _ _ _ (clk tk) _ (r :: sta') (lookup_insert_eq _ _ _) HS _ Hcols).
    rewrite ?Hnf. rewrite insert_insert_eq.
    destruct (track_deletes self).
    + rewrite (exec_delete _ t _ _ _ (clk tk) _ (r :: sta') (lookup_insert_eq _ _ _) HS).
      rewrite ?Hnf. rewrite insert_insert_eq.
      eexists _, _, _. split; [reflexivity|].
      cbn [trace db]. split; [rewrite <- !app_assoc; simpl; reflexivity|].
      split; reflexivity.
    + rewrite ?Hnf.
      eexists _, _, _. split; [reflexivity|].
      cbn [trace db]. split; [rewrite <- !app_assoc; simpl; reflexivity|].
      split; reflexivity.
Qed.

(** What a merge that runs to its end commits is again a target of that
    kind, with at most one current row per [id_hash]. *)
Lemma merge_commits_reachable_target self staging_table target_table w ss tgt sta :
  session w = Some ss -> aborted ss = false ->
  (forall k, faults w k = false) ->
  perm (work ss) !! (schema self, target_table) = Some (HistRel tgt) ->
  temp (work ss) !! staging_table = Some (HistRel sta) ->
  (sta <> [] -> staging_data_columns sta <> []) ->
  reachable tgt -> NoDup (map _id_hash sta) ->
  exists stats w' tgt',
    _merge_historized_data self staging_table target_table true w = (Returns stats, w')
    /\ db w' !! (schema self, target_table) = Some (HistRel tgt')
    /\ reachable tgt' /\ at_most_one_current tgt'.
Proof.
  intros Hs Hab Hnf HT HS Hcols Hreach Hnd.
  destruct (merge_success self staging_table target_table w ss tgt sta
              Hs Hab Hnf HT HS Hcols) as (stats & w' & evs & Hrun & _ & _ & Hdb).
  eexists stats, w', _. split; [exact Hrun|].
  split; [rewrite Hdb; apply lookup_insert_eq|].
  split.
  - now apply reachable_merge.
  - apply at_most_one_open_current, merge_rows_open; [assumption|].
    now apply reachable_open.
Qed.

(** C2. On a connection whose transaction is intact and with nothing
    failing, [_merge_historized_data] returns, and between the sample query
    and [COMMIT] it has executed, in this order and nothing else, [BEGIN],
    restore, supersede, insert (the staging relation of a load is never
    empty; for an empty one the statement is not issued and would insert
    nothing) and, only when [track_deletes] is set, delete. Each statement
    does to the target what the specification says of its phase, each phase
    working on the target the previous one left, and the committed target is
    the outcome of the last one. *)
Theorem merge_runs_the_four_phases_in_order (self : PostgresDestination)
    (staging_table target_table : string) (w : World) (ss : Session)
    (tgt sta : list Row) :
  session w = Some ss -> aborted ss = false ->
  (forall k, faults w k = false) ->
  perm (work ss) !! (schema self, target_table) = Some (HistRel tgt) ->
  temp (work ss) !! staging_table = Some (HistRel sta) ->
  (sta <> [] -> staging_data_columns sta <> []) ->
  let ts := clock w (ticks w) in
  let target := Qualified (schema self) target_table in
  let staging := Bare staging_table in
  let cols := staging_data_columns sta in
  exists stats w' evs t1 t2 t3 t4,
    _merge_historized_data self staging_table target_table true w = (Returns stats, w')
    /\ trace w' = trace w ++ evs
    /\ executed evs
       = [SelectLimit1 staging; Begin; RestoreSql target staging ts;
          SupersedeSql target staging ts]
         ++ (match sta with [] => [] | _ => [InsertSql target staging ts cols] end)
         ++ (if track_deletes self then [DeleteSql target staging ts] else [])
         ++ [Commit]
    /\ restore_spec ts sta tgt t1
    /\ supersede_spec ts sta t1 t2
    /\ insert_spec ts cols sta t2 t3
    /\ (if track_deletes self then delete_spec ts sta t3 t4 else t4 = t3)
    /\ db w' = <[(schema self, target_table) := HistRel t4]> (perm (work ss)).
Proof.
  intros Hs Hab Hnf HT HS Hcols ts target staging cols.
  destruct (merge_success self staging_table target_table w ss tgt sta
              Hs Hab Hnf HT HS Hcols) as (stats & w' & evs & Hrun & Htrace & Hexec & Hdb).
  exists stats, w', evs.
  exists (restore_phase ts sta tgt).
  exists (supersede_phase ts sta (restore_phase ts sta tgt)).
  exists (insert_phase ts cols sta (supersede_phase ts sta (restore_phase ts sta tgt))).
  exists (merge_rows ts (track_deletes self) cols sta tgt).
  split; [exact Hrun|]. split; [exact Htrace|]. split; [exact Hexec|].
  split; [apply restore_phase_spec|]. split; [apply supersede_phase_spec|].
  split; [apply insert_phase_spec|]. split; [|exact Hdb].
  unfold merge_rows. destruct (track_deletes self); [apply delete_phase_spec|reflexivity].
Qed.

Lemma merge_runs_the_four_phases_in_order_witness :
  exists stats w' stored,
    _merge_historized_data sample_destination "emp_staging_100" "emp" true (merge_world [])
    = (Returns stats, w')
    /\ executed (trace w')
       = [SelectLimit1 (Bare "emp_staging_100"); Begin;
          RestoreSql (Qualified "public" "emp") (Bare "emp_staging_100") 100;
          SupersedeSql (Qualified "public" "emp") (Bare "emp_staging_100") 100;
          InsertSql (Qualified "public" "emp") (Bare "emp_staging_100") 100 ["id"; "name"];
          DeleteSql (Qualified "public" "emp") (Bare "emp_staging_100") 100;
          Commit]
    /\ target_of w' = Some (HistRel stored)
    /\ stored ≡ₚ [ sample_row "x" "h1" (Some 100) None;
                   {| columns := [("id", PyStr "x"); ("name", PyStr "h2")];
                      _record_hash := "h2"; _id_hash := "x";
                      _valid_from := 100; _valid_to := None; _deleted_at := None;
                      _loaded_at := 100; _pipeline_run_id := None;
                      _source_system := "postgres"; _load_batch_id := "emp_0" |} ].
Proof.
  destruct (merge_runs_the_four_phases_in_order sample_destination "emp_staging_100" "emp"
              (merge_world [])
              {| work := {| perm := {[ ("public", "emp")
                                       := HistRel [sample_row "x" "h1" None None] ]};
                            temp := {[ "emp_staging_100"
                                       := HistRel [sample_row "x" "h2" None None] ]} |};
                 temp_saved := {[ "emp_staging_100"
                                  := HistRel [sample_row "x" "h2" None None] ]};
                 aborted := false |}
              [sample_row "x" "h1" None None] [sample_row "x" "h2" None None])
    as (stats & w' & evs & t1 & t2 & t3 & t4 & Hrun & Htrace & Hexec & _).
  - reflexivity.
  - reflexivity.
  - intros k. reflexivity.
  - vm_compute. reflexivity.
  - vm_compute. reflexivity.
  - intros _. vm_compute. discriminate.
  - exists stats, w'. eexists. split; [exact Hrun|].
    split; [rewrite Htrace; simpl; exact Hexec|].
    vm_compute in Hrun. injection Hrun as <- <-.
    split; [vm_compute; reflexivity|reflexivity].
Defined.

(** C3. When one of the four phases fails, the merge ends in an exception
    and the committed database, the target table in it, is what it was when
    the merge started, also when the [ROLLBACK] of the handler fails in
    turn. *)
Theorem failed_phase_leaves_target_unchanged (self : PostgresDestination)
    (staging_table target_table : string) (conn_given : bool)
    (w w' : World) (out : Outcome MergeStats) (evs : list (Op * bool)) :
  _merge_historized_data self staging_table target_table conn_given w = (out, w') ->
  trace w' = trace w ++ evs ->
  phase_failed evs ->
  (exists e, out = Raises e) /\ db w' = db w.
Proof.
  intros Hrun Htrace Hfailed.
  destruct (merge_run_facts _ _ _ _ _ _ _ Hrun)
    as (_ & _ & _ & evs' & Htrace' & _ & Hphase & _).
  rewrite Htrace in Htrace'. apply app_inv_head in Htrace'. subst evs'.
  now apply Hphase.
Qed.

Lemma failed_phase_leaves_target_unchanged_witness :
  let run := _merge_historized_data sample_destination "emp_staging_100" "emp" true
               (merge_world [5%nat]) in
  (exists e, fst run = Raises e)
  /\ db (snd run) = {[ ("public", "emp") := HistRel [sample_row "x" "h1" None None] ]}.
Proof.
  cbv zeta.
  apply (failed_phase_leaves_target_unchanged sample_destination "emp_staging_100" "emp"
           true (merge_world [5%nat]) _ _
           (trace (snd (_merge_historized_data sample_destination "emp_staging_100" "emp"
                          true (merge_world [5%nat]))))).
  - apply surjective_pairing.
  - reflexivity.
  - exists (RestoreSql (Qualified "public" "emp") (Bare "emp_staging_100") 100).
    split; [reflexivity|]. vm_compute. find_event.
Defined.

(** ** Timestamps *)

Lemma for_each_enrich self ts pid data w :
  exists rows,
    for_each (enrich_record self ts pid) data w = (Returns rows, advance w (length data))
    /\ length rows = length data
    /\ Forall (stamped_new ts) rows.
Proof.
  revert w. induction data as [|r data IH]; intros w.
  - exists []. simpl. unfold ret, advance. rewrite Nat.add_0_r.
    destruct w; simpl. repeat split; constructor.
  - simpl. unfold bind at 1. unfold enrich_record at 1. unfold bind at 1, time_time, ret at 1.
    unfold bind at 1.
    match goal with
    | |- context [for_each _ data ?w1] => destruct (IH w1) as (rows & Hrun & Hlen & Hall)
    end.
    rewrite Hrun. eexists. split; [|split].
    + unfold ret, advance. simpl. repeat f_equal. lia.
    + simpl. now rewrite Hlen.
    + constructor; [|exact Hall]. unfold stamped_new. simpl. tauto.
Qed.

(** The enrichment never fails and touches nothing but the clock. *)
Lemma enrich_run self data context w :
  exists rows,
    _enrich_with_system_columns self data context w
    = (Returns rows, advance w (S (length data)))
    /\ length rows = length data
    /\ Forall (stamped_new (clock w (ticks w))) rows.
Proof.
  unfold _enrich_with_system_columns, bind, datetime_now, time_time.
  match goal with
  | |- context [for_each ?f data ?w1] =>
      destruct (for_each_enrich self (clock w (ticks w))
                  (match context with
                   | Some (dag_id, run_id) => Some (dag_id +:+ "_" +:+ run_id)
                   | None => None
                   end) data w1) as (rows & Hrun & Hlen & Hall)
  end.
  exists rows. rewrite Hrun. split; [|split; assumption].
  unfold advance. simpl. repeat f_equal. lia.
Qed.

Lemma inserted_row_not_deleted ts cols staging s :
  In s staging -> delete_where staging (insert_select ts cols s) = false.
Proof.
  intros Hs. unfold delete_where. simpl. apply negb_false_iff.
  unfold exists_id. simpl. apply existsb_exists. exists s.
  split; [assumption|apply String.eqb_refl].
Qed.

Lemma stamped_from_refl ts t : stamped_from ts t t.
Proof. unfold stamped_from. tauto. Qed.

Lemma stamped_restore ts a b : stamped_from ts a b -> stamped_from ts a (restore_set ts b).
Proof. unfold stamped_from. simpl. tauto. Qed.

Lemma stamped_supersede ts a b :
  stamped_from ts a b -> stamped_from ts a (supersede_set ts b).
Proof. unfold stamped_from. simpl. tauto. Qed.

Lemma stamped_delete ts a b : stamped_from ts a b -> stamped_from ts a (delete_set ts b).
Proof. unfold stamped_from. simpl. tauto. Qed.

Ltac stamps :=
  repeat match goal with
         | |- context [if ?c then _ else _] => destruct c
         end;
  repeat first [apply stamped_delete | apply stamped_supersede | apply stamped_restore];
  apply stamped_from_refl.

Lemma merge_rows_stamps ts track cols staging target :
  exists kept new,
    merge_rows ts track cols staging target = kept ++ new
    /\ Forall2 (stamped_from ts) target kept
    /\ Forall (stamped_new ts) new.
Proof.
  set (g1 := fun t => if restore_where staging t then restore_set ts t else t).
  set (g2 := fun t => if supersede_where staging t then supersede_set ts t else t).
  set (g4 := fun t => if delete_where staging t then delete_set ts t else t).
  set (new := map (insert_select ts cols)
                  (List.filter (insert_where (map g2 (map g1 target))) staging)).
  assert (Hnew : Forall (stamped_new ts) new).
  { apply Forall_forall. intros n Hn. apply list_elem_of_In, in_map_iff in Hn as (s & <- & _).
    unfold stamped_new. simpl. tauto. }
  assert (Hkeep : map g4 new = new).
  { subst new. rewrite map_map. apply map_ext_in. intros s Hs.
    apply filter_In in Hs as [Hs _]. subst g4. cbv beta.
    now rewrite inserted_row_not_deleted. }
  destruct track.
  - exists (map g4 (map g2 (map g1 target))), new. split; [|split; [|exact Hnew]].
    + unfold merge_rows, delete_phase, insert_phase, supersede_phase, restore_phase,
        sql_insert_select, sql_update. simpl. fold g1 g2 g4 new.
      now rewrite map_app, Hkeep.
    + rewrite !map_map. apply Forall2_map_self. intros t _.
      subst g1 g2 g4. cbv beta. stamps.
  - exists (map g2 (map g1 target)), new. split; [|split; [|exact Hnew]].
    + reflexivity.
    + rewrite !map_map. apply Forall2_map_self. intros t _.
      subst g1 g2. cbv beta. stamps.
Qed.

(** C5, as amended. The enrichment stamps every row of the batch with the
    one reading of the clock it takes at its start; the merge looks at the
    clock once, every statement of every phase carries that reading, and
    every timestamp the phases leave in the target is an old one or that
    reading ([_valid_from] and [_loaded_at] of an inserted row are that
    reading). The two readings are distinct looks at the clock, and the
    target receives the second only. *)
Theorem one_timestamp_per_merge (self : PostgresDestination) (data : list record)
    (context : Context) (staging_table target_table : string) (conn_given : bool)
    (w : World) (ts : timestamp) (track : bool) (cols : list string)
    (staging target : list Row) :
  (exists rows,
     _enrich_with_system_columns self data context w
     = (Returns rows, advance w (S (length data)))
     /\ Forall (stamped_new (clock w (ticks w))) rows)
  /\ (let run := _merge_historized_data self staging_table target_table conn_given w in
      ticks (snd run) = S (ticks w)
      /\ exists evs, trace (snd run) = trace w ++ evs
                     /\ Forall (stamped_with (clock w (ticks w))) evs)
  /\ (exists kept new,
        merge_rows ts track cols staging target = kept ++ new
        /\ Forall2 (stamped_from ts) target kept
        /\ Forall (stamped_new ts) new).
Proof.
  split; [|split].
  - destruct (enrich_run self data context w) as (rows & Hrun & _ & Hall). eauto.
  - cbv zeta.
    destruct (_merge_historized_data self staging_table target_table conn_given w)
      as [out w'] eqn:Hrun.
    destruct (merge_run_facts _ _ _ _ _ _ _ Hrun)
      as (Hticks & _ & _ & evs & Htrace & Hstamps & _).
    simpl. eauto.
  - apply merge_rows_stamps.
Qed.

(** C5, as stated, fails: in one load the staged row is stamped with the
    reading of the enrichment and the row the merge stores from it with the
    reading of the merge, two looks at the clock apart. *)
Lemma enrichment_and_merge_read_the_clock_apart :
  exists result w' stored,
    load_data (historize_config ["id"]) [alice] (world_of ∅ []) = (Returns result, w')
    /\ status result = "success"
    /\ map _valid_from (staged_in (trace w')) = [102]
    /\ map _loaded_at (staged_in (trace w')) = [102]
    /\ target_of w' = Some (HistRel [stored])
    /\ _valid_from stored = 104 /\ _loaded_at stored = 104.
Proof.
  eexists _, _, _. split; [vm_compute; reflexivity|].
  split; [reflexivity|]. split; [vm_compute; reflexivity|].
  split; [vm_compute; reflexivity|]. split; [vm_compute; reflexivity|].
  split; reflexivity.
Qed.

(** ** A failed load *)

Lemma exec_create_temporary st n st' a :
  exec_stmt (CreateTemporaryTable n) st = Some (st', a) ->
  perm st' = perm st /\ temp st' !! n = Some (HistRel []).
Proof.
  unfold exec_stmt. destruct (temp st !! n); [discriminate|].
  intros [= <- <-]. simpl. split; [reflexivity|apply lookup_insert_eq].
Qed.

Lemma exec_insert_staged st n rows st' a :
  exec_stmt (InsertEnriched (Bare n) rows) st = Some (st', a) ->
  is_Some (temp st !! n) ->
  perm st' = perm st.
Proof.
  unfold exec_stmt, resolve, store_put. intros Hexec [rel Hrel]. rewrite Hrel in Hexec.
  destruct rel; [discriminate|]. now injection Hexec as <- <-.
Qed.

(** The merge as one step of a longer run, through [merge_run_facts]. *)
Ltac merge_step H :=
  match type of H with
  | context [_merge_historized_data ?self ?s ?t ?c ?w] =>
      let Hm := fresh "Hmerge" in
      let out := fresh "out" in
      let wm := fresh "wm" in
      let evm := fresh "evm" in
      let Hphase := fresh "Hphase" in
      let Hnocommit := fresh "Hnocommit" in
      let Hreturns := fresh "Hreturns" in
      let dbm := fresh "dbm" in let wkm := fresh "wkm" in let svm := fresh "svm" in
      let clkm := fresh "clkm" in let tkm := fresh "tkm" in
      let fltm := fresh "fltm" in let trm := fresh "trm" in
      destruct (_merge_historized_data self s t c w) as [out wm] eqn:Hm;
      apply merge_run_facts in Hm;
      destruct Hm as (_ & Hm);
      destruct wm as [dbm [[wkm svm [|]]|] clkm tkm fltm trm];
      cbn [faults clock trace db ticks session] in Hm;
      destruct Hm as (-> & -> & evm & -> & _ & Hphase & Hnocommit & Hreturns);
      destruct out
  end.

Ltac trace_events Htrace :=
  cbn [trace] in Htrace; rewrite <- ?app_assoc in Htrace; simpl in Htrace;
  apply app_inv_head in Htrace; subst.

(** What the staging statements leave of the permanent relations. *)
Ltac staging_facts :=
  repeat match goal with
         | H : exec_stmt (CreateTemporaryTable _) _ = Some (?s, _) |- _ =>
             let Htemp := fresh "Htemp" in
             let p0 := fresh "p" in let t0 := fresh "t" in
             apply exec_create_temporary in H; destruct s as [p0 t0];
             cbn [perm temp] in H; destruct H as [-> Htemp]
         | H : exec_stmt (InsertEnriched (Bare _) _) _ = Some (?s, _) |- _ =>
             let p0 := fresh "p" in let t0 := fresh "t" in
             apply exec_insert_staged in H;
             [destruct s as [p0 t0]; cbn [perm temp] in H; subst
             | cbn [temp]; eexists; eassumption]
         end.

(** The historize mode: when [load] ends without the [COMMIT] of the merge
    having been executed, that is after a failure of any call up to and
    including that statement, the committed database is what it was when
    [load] was called and, for a batch that is not empty, the result
    reports [failed]. *)
Lemma historize_load_before_commit (self : PostgresDestination)
    (data : list record) (context : Context) (w w' : World) (result : LoadResult)
    (evs : list (Op * bool)) :
  write_mode self = "historize" ->
  load self data context w = (Returns result, w') ->
  trace w' = trace w ++ evs ->
  ~ commit_done evs ->
  db w' = db w /\ (data <> [] -> status result = "failed").
Proof.
  intros Hmode Hrun Htrace Hnc.
  unfold load in Hrun. unfold bind at 1, time_time at 1 in Hrun.
  destruct data as [|r data].
  { injection Hrun as <- <-. split; [reflexivity|congruence]. }
  unfold try_except at 1 in Hrun. rewrite Hmode in Hrun.
  change (String.eqb "historize" "historize") with true in Hrun. cbv iota in Hrun.
  unfold load_historize in Hrun. unfold bind at 1 in Hrun.
  match type of Hrun with
  | context [_enrich_with_system_columns ?s ?d ?c ?w1] =>
      destruct (enrich_run s d c w1) as (rows & Henrich & Hlen & _)
  end.
  rewrite Henrich in Hrun. clear Henrich.
  destruct rows as [|row rows]; [discriminate Hlen|].
  unfold _create_staging_table_with_conn, advance in Hrun.
  destruct w as [db0 sess clk tk flt tr].
  cbn [db session clock ticks faults trace] in *.
  run_all Hrun.
  all: try merge_step Hrun.
  all: run_all Hrun.
  all: injection Hrun as <- <-.
  all: trace_events Htrace.
  all: cbn [db status].
  all: try (split; [reflexivity|intros _; reflexivity]).
  all: staging_facts.
  all: try (split; [reflexivity|intros _; reflexivity]).
  all: try (assert (Hncm : ~ commit_done evm)
              by (intros Hc; apply Hnc; unfold commit_done in *; simpl;
                  rewrite ?in_app_iff; tauto)).
  all: try (destruct (Hnocommit Hncm) as [_ ->]; split; [reflexivity|intros _; reflexivity]).
  all: try (exfalso; apply Hncm, Hreturns; eexists; reflexivity).
Qed.

(** ** Quiet computations *)

Section Quiet.

Lemma any_commit_app evs1 evs2 :
  any_commit (evs1 ++ evs2) <-> any_commit evs1 \/ any_commit evs2.
Proof. unfold any_commit. rewrite !in_app_iff. tauto. Qed.

Lemma quiet_ret {A} (a : A) : quiet (ret a).
Proof.
  intros w out w' [= <- <-]. exists []. rewrite app_nil_r. split; reflexivity.
Qed.

Lemma quiet_raise {A} (e : Exn) : quiet (@raise A e).
Proof.
  intros w out w' [= <- <-]. exists []. rewrite app_nil_r. split; reflexivity.
Qed.

Lemma quiet_bind {A B} (m : M A) (k : A -> M B) :
  quiet m -> (forall a, quiet (k a)) -> quiet (bind m k).
Proof.
  intros Hm Hk w out w' Hrun. unfold bind in Hrun.
  destruct (m w) as [[a|e] w1] eqn:Hmw.
  - destruct (Hm _ _ _ Hmw) as (evs1 & Ht1 & Hd1).
    destruct (Hk a _ _ _ Hrun) as (evs2 & Ht2 & Hd2).
    exists (evs1 ++ evs2). rewrite Ht2, Ht1, app_assoc. split; [reflexivity|].
    rewrite any_commit_app. intros Hno. rewrite Hd2, Hd1; tauto.
  - injection Hrun as <- <-. apply (Hm _ _ _ Hmw).
Qed.

Lemma quiet_try_except {A} (m : M A) (h : Exn -> M A) :
  quiet m -> (forall e, quiet (h e)) -> quiet (try_except m h).
Proof.
  intros Hm Hh w out w' Hrun. unfold try_except in Hrun.
  destruct (m w) as [[a|e] w1] eqn:Hmw.
  - injection Hrun as <- <-. apply (Hm _ _ _ Hmw).
  - destruct (Hm _ _ _ Hmw) as (evs1 & Ht1 & Hd1).
    destruct (Hh e _ _ _ Hrun) as (evs2 & Ht2 & Hd2).
    exists (evs1 ++ evs2). rewrite Ht2, Ht1, app_assoc. split; [reflexivity|].
    rewrite any_commit_app. intros Hno. rewrite Hd2, Hd1; tauto.
Qed.

Lemma quiet_finally {A} (m : M A) (c : M unit) :
  quiet m -> quiet c -> quiet (finally m c).
Proof.
  intros Hm Hc w out w' Hrun. unfold finally in Hrun.
  destruct (m w) as [[a|e] w1] eqn:Hmw.
  all: destruct (Hm _ _ _ Hmw) as (evs1 & Ht1 & Hd1).
  all: unfold bind in Hrun; destruct (c w1) as [[[]|e'] w2] eqn:Hcw.
  all: destruct (Hc _ _ _ Hcw) as (evs2 & Ht2 & Hd2).
  all: injection Hrun as <- <-.
  all: exists (evs1 ++ evs2); rewrite Ht2, Ht1, app_assoc; split; [reflexivity|].
  all: rewrite any_commit_app; intros Hno; rewrite Hd2, Hd1; tauto.
Qed.

Lemma quiet_try_pass (m : M unit) : quiet m -> quiet (try_pass m).
Proof. intros Hm. apply quiet_try_except; [assumption|intros; apply quiet_ret]. Qed.

Lemma quiet_when (b : bool) (m : M unit) : quiet m -> quiet (when b m).
Proof. destruct b; [auto|intros; apply quiet_ret]. Qed.

Lemma quiet_for_each_ {A} (f : A -> M unit) (l : list A) :
  (forall x, quiet (f x)) -> quiet (for_each_ f l).
Proof.
  intros Hf. induction l as [|x l IH]; simpl; [apply quiet_ret|].
  apply quiet_bind; [apply Hf|intros; apply IH].
Qed.

Lemma quiet_for_each {A B} (f : A -> M B) (l : list A) :
  (forall x, quiet (f x)) -> quiet (for_each f l).
Proof.
  intros Hf. induction l as [|x l IH]; simpl; [apply quiet_ret|].
  apply quiet_bind; [apply Hf|intros].
  apply quiet_bind; [apply IH|intros; apply quiet_ret].
Qed.

(** A call that adds one event and leaves the committed database alone
    unless the event is a commit that succeeded. *)
Ltac quiet_call :=
  let w := fresh "w" in
  let Hrun := fresh "Hrun" in
  intros w ? ? Hrun; destruct w as [db0 [[wk sv [|]]|] clk tk flt tr];
  run_all Hrun;
  injection Hrun as <- <-;
  (eexists [_] || exists []);
  (split; [cbn [trace]; rewrite ?app_nil_r; reflexivity|]);
  cbn [db]; intros Hno; try reflexivity;
  exfalso; apply Hno; unfold any_commit; simpl; tauto.

Lemma quiet_time_time : quiet time_time.
Proof.
  intros w out w' [= <- <-]. exists []. rewrite app_nil_r. split; reflexivity.
Qed.

Lemma quiet_hook_get_conn : quiet hook_get_conn.
Proof. unfold hook_get_conn. quiet_call. Qed.

Lemma quiet_conn_commit : quiet conn_commit.
Proof. unfold conn_commit. quiet_call. Qed.

Lemma quiet_conn_rollback : quiet conn_rollback.
Proof. unfold conn_rollback. quiet_call. Qed.

Lemma quiet_conn_cursor : quiet conn_cursor.
Proof. unfold conn_cursor. quiet_call. Qed.

Lemma quiet_cursor_close : quiet cursor_close.
Proof. unfold cursor_close. quiet_call. Qed.

Lemma quiet_conn_close : quiet conn_close.
Proof. unfold conn_close. quiet_call. Qed.

Lemma quiet_cursor_execute (s : Stmt) : quiet (cursor_execute s).
Proof. unfold cursor_execute. destruct s; quiet_call. Qed.

End Quiet.

(** Quietness follows the structure of a computation. *)
Ltac quiet_auto :=
  repeat first
    [ apply quiet_ret | apply quiet_raise | apply quiet_time_time
    | apply quiet_hook_get_conn | apply quiet_conn_commit | apply quiet_conn_rollback
    | apply quiet_conn_cursor | apply quiet_cursor_close | apply quiet_conn_close
    | apply quiet_cursor_execute
    | apply quiet_try_pass | apply quiet_when
    | apply quiet_for_each_ | apply quiet_for_each
    | apply quiet_try_except | apply quiet_finally | apply quiet_bind
    | match goal with
      | |- quiet (if ?b then _ else _) => destruct b
      | |- quiet (match ?x with _ => _ end) => destruct x
      end
    | intro ].

Lemma quiet_hook_run (stmts : list Stmt) : quiet (hook_run stmts).
Proof. unfold hook_run. quiet_auto. Qed.

Lemma quiet_hook_insert_rows t rows n : quiet (hook_insert_rows t rows n).
Proof. unfold hook_insert_rows. quiet_auto. Qed.

Lemma quiet__swap_tables self : quiet (_swap_tables self).
Proof. unfold _swap_tables. cbv zeta. destruct (String.eqb _ _); apply quiet_hook_run. Qed.

Lemma bind_returns {A B} (m : M A) (k : A -> M B) w b w' :
  bind m k w = (Returns b, w') ->
  exists a w1, m w = (Returns a, w1) /\ k a w1 = (Returns b, w').
Proof.
  unfold bind. destruct (m w) as [[a|e] w1]; [eauto|discriminate].
Qed.

Lemma finally_returns {A} (m : M A) (c : M unit) w a w' :
  finally m c w = (Returns a, w') ->
  exists w1, m w = (Returns a, w1) /\ c w1 = (Returns tt, w').
Proof.
  unfold finally, bind, ret, raise.
  destruct (m w) as [[a1|e] w1]; destruct (c w1) as [[[]|e'] w2] eqn:Hc;
    try discriminate.
  intros [= <- <-]. exists w1. split; [reflexivity|exact Hc].
Qed.

Lemma quiet_grows {A} (m : M A) w out w' :
  quiet m -> m w = (out, w') -> exists evs, trace w' = trace w ++ evs.
Proof. intros Hq Hrun. destruct (Hq _ _ _ Hrun) as (evs & ? & _). eauto. Qed.

Lemma conn_commit_returns w w' :
  conn_commit w = (Returns tt, w') -> trace w' = trace w ++ [(OpCommit, true)].
Proof.
  intros Hrun. unfold conn_commit in Hrun.
  destruct w as [db0 [[wk sv [|]]|] clk tk flt tr].
  all: run_all Hrun.
  all: try discriminate Hrun.
  all: injection Hrun as <-; reflexivity.
Qed.

Lemma cursor_execute_returns s w a w' :
  cursor_execute s w = (Returns a, w') -> trace w' = trace w ++ [(OpExecute s, true)].
Proof.
  intros Hrun. unfold cursor_execute in Hrun.
  destruct w as [db0 [[wk sv [|]]|] clk tk flt tr], s.
  all: run_all Hrun.
  all: try discriminate Hrun.
  all: injection Hrun as _ <-; reflexivity.
Qed.

(** ** Careful computations *)

Section Careful.

Lemma wrote_then_committed_app_l evs1 evs2 :
  wrote_then_committed evs1 -> wrote_then_committed (evs1 ++ evs2).
Proof.
  intros (s & l1 & l2 & -> & Hc). exists s, l1, (l2 ++ evs2).
  split; [now rewrite <- app_assoc|]. apply any_commit_app. now left.
Qed.

Lemma wrote_then_committed_app_r evs1 evs2 :
  wrote_then_committed evs2 -> wrote_then_committed (evs1 ++ evs2).
Proof.
  intros (s & l1 & l2 & -> & Hc). exists s, (evs1 ++ l1), l2.
  split; [now rewrite <- app_assoc|exact Hc].
Qed.

Lemma wrote_then_committed_app evs1 evs2 s :
  In (OpExecute s, true) evs1 -> any_commit evs2 -> wrote_then_committed (evs1 ++ evs2).
Proof.
  intros Hin Hc. apply in_split in Hin as (l1 & l2 & ->).
  exists s, l1, (l2 ++ evs2). split; [now rewrite <- app_assoc|].
  apply any_commit_app. now right.
Qed.

Lemma statement_or_not (evs : list (Op * bool)) :
  no_statement evs \/ exists s, In (OpExecute s, true) evs.
Proof.
  induction evs as [|[op ok] evs IH]; [left; intros s []|].
  destruct IH as [Hn|(s & Hs)]; [|right; exists s; now right].
  destruct op, ok;
    try (left; intros s' [Heq|Hin]; [discriminate Heq|exact (Hn s' Hin)]).
  right. eexists. left. reflexivity.
Qed.

Lemma no_statement_app evs1 evs2 :
  no_statement (evs1 ++ evs2) <-> no_statement evs1 /\ no_statement evs2.
Proof.
  unfold no_statement. split.
  - intros H. split; intros s Hs; apply (H s), in_app_iff; tauto.
  - intros [H1 H2] s Hs. apply in_app_iff in Hs as [Hs|Hs]; [exact (H1 s Hs)|exact (H2 s Hs)].
Qed.

(** Two computations in a row, the second one chosen by how the first one
    ends. *)
Lemma careful_then {A B} (m : M A) (k : Outcome A -> M B) :
  careful m -> (forall o, quiet (k o)) -> (forall o, careful (k o)) ->
  careful (fun w => let (o, w1) := m w in k o w1).
Proof.
  intros Hm Hq Hk w out w' Hrun Hsync.
  destruct (m w) as [o w1] eqn:Hmw.
  destruct (Hm _ _ _ Hmw Hsync) as (evs1 & Ht1 & Hd1 & Hs1).
  destruct (Hq o _ _ _ Hrun) as (evs2 & Ht2 & Hd2).
  exists (evs1 ++ evs2). rewrite Ht2, Ht1, app_assoc. split; [reflexivity|]. split.
  - intros Hno.
    assert (Hdb1 : db w1 = db w).
    { apply Hd1. intros Hc. apply Hno. now apply wrote_then_committed_app_l. }
    rewrite <- Hdb1.
    destruct (statement_or_not evs1) as [Hns|(s & Hin)].
    + destruct (Hk o _ _ _ Hrun (Hs1 Hns)) as (evs2' & Ht2' & Hd2' & _).
      rewrite Ht2 in Ht2'. apply app_inv_head in Ht2'. subst evs2'.
      apply Hd2'. intros Hc. apply Hno. now apply wrote_then_committed_app_r.
    + apply Hd2. intros Hc. apply Hno. now apply (wrote_then_committed_app _ _ s).
  - intros Hns. apply no_statement_app in Hns as [Hns1 Hns2].
    destruct (Hk o _ _ _ Hrun (Hs1 Hns1)) as (evs2' & Ht2' & _ & Hs2').
    rewrite Ht2 in Ht2'. apply app_inv_head in Ht2'. subst evs2'. now apply Hs2'.
Qed.

Lemma careful_ext {A} (m1 m2 : M A) :
  (forall w, m1 w = m2 w) -> careful m1 -> careful m2.
Proof. intros Heq H w out w' Hrun. rewrite <- Heq in Hrun. exact (H _ _ _ Hrun). Qed.

Lemma careful_ret {A} (a : A) : careful (ret a).
Proof.
  intros w out w' [= <- <-] Hsync. exists []. rewrite app_nil_r.
  split; [reflexivity|]. split; [reflexivity|intros _; exact Hsync].
Qed.

Lemma careful_raise {A} (e : Exn) : careful (@raise A e).
Proof.
  intros w out w' [= <- <-] Hsync. exists []. rewrite app_nil_r.
  split; [reflexivity|]. split; [reflexivity|intros _; exact Hsync].
Qed.

Lemma careful_bind {A B} (m : M A) (k : A -> M B) :
  careful m -> (forall a, quiet (k a)) -> (forall a, careful (k a)) -> careful (bind m k).
Proof.
  intros Hm Hq Hk.
  apply (careful_ext (fun w => let (o, w1) := m w in
                               match o with Returns a => k a | Raises e => raise e end w1)).
  { intros w. unfold bind. now destruct (m w) as [[a|e] w1]. }
  apply (careful_then m (fun o => match o with Returns a => k a | Raises e => raise e end)).
  - exact Hm.
  - intros [a|e]; [apply Hq|apply quiet_raise].
  - intros [a|e]; [apply Hk|apply careful_raise].
Qed.

Lemma careful_try_except {A} (m : M A) (h : Exn -> M A) :
  careful m -> (forall e, quiet (h e)) -> (forall e, careful (h e)) ->
  careful (try_except m h).
Proof.
  intros Hm Hq Hh.
  apply (careful_ext (fun w => let (o, w1) := m w in
                               match o with Returns a => ret a | Raises e => h e end w1)).
  { intros w. unfold try_except. now destruct (m w) as [[a|e] w1]. }
  apply (careful_then m (fun o => match o with Returns a => ret a | Raises e => h e end)).
  - exact Hm.
  - intros [a|e]; [apply quiet_ret|apply Hq].
  - intros [a|e]; [apply careful_ret|apply Hh].
Qed.

Lemma careful_finally {A} (m : M A) (c : M unit) :
  careful m -> quiet c -> careful c -> careful (finally m c).
Proof.
  intros Hm Hq Hc.
  apply (careful_ext (fun w => let (o, w1) := m w in
                               match o with
                               | Returns a => c ;; ret a
                               | Raises e => c ;; raise e
                               end w1)).
  { intros w. unfold finally. now destruct (m w) as [[a|e] w1]. }
  apply (careful_then m (fun o => match o with
                                  | Returns a => c ;; ret a
                                  | Raises e => c ;; raise e
                                  end)).
  - exact Hm.
  - intros [a|e]; (apply quiet_bind; [exact Hq|intros]);
      [apply quiet_ret|apply quiet_raise].
  - intros [a|e]; (apply careful_bind; [exact Hc|intros|intros]);
      first [apply quiet_ret|apply quiet_raise|apply careful_ret|apply careful_raise].
Qed.

Lemma careful_for_each_ {A} (f : A -> M unit) (l : list A) :
  (forall x, quiet (f x)) -> (forall x, careful (f x)) -> careful (for_each_ f l).
Proof.
  intros Hq Hf. induction l as [|x l IH]; simpl; [apply careful_ret|].
  apply careful_bind; [apply Hf|intros; now apply quiet_for_each_|intros; apply IH].
Qed.

(** A call that adds one event. *)
Ltac careful_call :=
  let w := fresh "w" in
  let Hrun := fresh "Hrun" in
  let Hsync := fresh "Hsync" in
  intros w ? ? Hrun Hsync; destruct w as [db0 [[[pm tm] sv [|]]|] clk tk flt tr];
  unfold in_sync in Hsync; cbn in Hsync;
  run_all Hrun;
  injection Hrun as <- <-;
  (eexists [_] || exists []);
  (split; [cbn [trace]; rewrite ?app_nil_r; reflexivity|]);
  (split;
   [ intros _; cbn [db]; first [reflexivity | apply Hsync; reflexivity]
   | intros Hns; unfold in_sync; cbn;
     first [ exact I
           | exfalso; eapply Hns; left; reflexivity
           | intros; reflexivity
           | intros; discriminate
           | exact Hsync ] ]).

Lemma careful_conn_commit : careful conn_commit.
Proof. unfold conn_commit. careful_call. Qed.

Lemma careful_conn_rollback : careful conn_rollback.
Proof. unfold conn_rollback. careful_call. Qed.

Lemma careful_conn_cursor : careful conn_cursor.
Proof. unfold conn_cursor. careful_call. Qed.

Lemma careful_cursor_close : careful cursor_close.
Proof. unfold cursor_close. careful_call. Qed.

Lemma careful_conn_close : careful conn_close.
Proof. unfold conn_close. careful_call. Qed.

Lemma careful_cursor_execute (s : Stmt) : careful (cursor_execute s).
Proof. unfold cursor_execute. destruct s; careful_call. Qed.

Lemma sealed_ret {A} (a : A) : sealed (ret a).
Proof.
  intros w out w' [= <- <-]. exists []. rewrite app_nil_r. split; reflexivity.
Qed.

Lemma sealed_time_time : sealed time_time.
Proof.
  intros w out w' [= <- <-]. exists []. rewrite app_nil_r. split; reflexivity.
Qed.

Lemma sealed_bind {A B} (m : M A) (k : A -> M B) :
  sealed m -> (forall a, sealed (k a)) -> sealed (bind m k).
Proof.
  intros Hm Hk w out w' Hrun. unfold bind in Hrun.
  destruct (m w) as [[a|e] w1] eqn:Hmw.
  - destruct (Hm _ _ _ Hmw) as (evs1 & Ht1 & Hd1).
    destruct (Hk a _ _ _ Hrun) as (evs2 & Ht2 & Hd2).
    exists (evs1 ++ evs2). rewrite Ht2, Ht1, app_assoc. split; [reflexivity|].
    intros Hno. rewrite Hd2, Hd1; [reflexivity| |].
    + intros Hc. apply Hno. now apply wrote_then_committed_app_l.
    + intros Hc. apply Hno. now apply wrote_then_committed_app_r.
  - injection Hrun as <- <-. apply (Hm _ _ _ Hmw).
Qed.

Lemma sealed_when (b : bool) (m : M unit) : sealed m -> sealed (when b m).
Proof. destruct b; [auto|intros; apply sealed_ret]. Qed.

(** What is done on a connection of its own starts on a transaction that
    has written nothing. *)
Lemma sealed_on_connection {A} (body : M A) :
  careful body -> sealed (hook_get_conn ;; body).
Proof.
  intros Hbody w out w' Hrun. unfold bind, hook_get_conn in Hrun.
  destruct (fault_now w) eqn:Hfault.
  - injection Hrun as <- <-. exists [(OpConnect, false)]. split; reflexivity.
  - match type of Hrun with
    | body ?w1 = _ => destruct (Hbody w1 _ _ Hrun) as (evs & Ht & Hd & _)
    end.
    { unfold in_sync. cbn. reflexivity. }
    exists ((OpConnect, true) :: evs). split.
    + rewrite Ht. cbn [trace record_op with_session]. now rewrite <- app_assoc.
    + intros Hno. rewrite Hd; [reflexivity|].
      intros Hc. apply Hno. now apply (wrote_then_committed_app_r [_]).
Qed.

End Careful.

(** Carefulness follows the structure of a computation. *)
Ltac careful_auto :=
  repeat match goal with
         | |- quiet _ => solve [quiet_auto]
         | |- careful _ =>
             first
               [ apply careful_ret | apply careful_raise
               | apply careful_conn_commit | apply careful_conn_rollback
               | apply careful_conn_cursor | apply careful_cursor_close
               | apply careful_conn_close | apply careful_cursor_execute
               | apply careful_for_each_ | apply careful_try_except
               | apply careful_finally | apply careful_bind ]
         | |- forall _, _ => intro
         end.

Lemma sealed_hook_run (stmts : list Stmt) : sealed (hook_run stmts).
Proof. unfold hook_run. apply sealed_on_connection. careful_auto. Qed.

Lemma sealed_hook_insert_rows t rows n : sealed (hook_insert_rows t rows n).
Proof. unfold hook_insert_rows. apply sealed_on_connection. careful_auto. Qed.

Lemma sealed__swap_tables self : sealed (_swap_tables self).
Proof. unfold _swap_tables. cbv zeta. destruct (String.eqb _ _); apply sealed_hook_run. Qed.

Lemma sealed_load_plain self data start : sealed (load_plain self data start).
Proof.
  unfold load_plain. cbv zeta.
  apply sealed_bind; [apply sealed_hook_insert_rows|intros].
  apply sealed_bind; [apply sealed_when, sealed__swap_tables|intros].
  apply sealed_bind; [apply sealed_time_time|intros; apply sealed_ret].
Qed.

(** When [insert_rows] returns on rows to insert, a statement succeeded
    and a commit followed. *)
Lemma hook_insert_rows_publishes t row rows n w w' :
  hook_insert_rows t (row :: rows) (S n) w = (Returns tt, w') ->
  exists evs, trace w' = trace w ++ evs /\ wrote_then_committed evs.
Proof.
  intros Hrun. unfold hook_insert_rows in Hrun.
  apply bind_returns in Hrun as (? & w1 & Hconn & Hrun).
  apply finally_returns in Hrun as (w2 & Hbody & Hclose).
  apply bind_returns in Hbody as (? & w3 & Hcommit0 & Hbody).
  apply bind_returns in Hbody as (? & w4 & Hcursor & Hbody).
  apply finally_returns in Hbody as (w5 & Hchunks & Hcc).
  cbn [length batches for_each_] in Hchunks.
  apply bind_returns in Hchunks as ([] & w6 & Hchunk & Hrest).
  apply bind_returns in Hchunk as (ans & w7 & Hexec & Hcommit).
  apply cursor_execute_returns in Hexec.
  apply conn_commit_returns in Hcommit.
  apply (quiet_grows _ _ _ _ quiet_hook_get_conn) in Hconn as (e1 & Ht1).
  apply (quiet_grows _ _ _ _ quiet_conn_commit) in Hcommit0 as (e2 & Ht2).
  apply (quiet_grows _ _ _ _ quiet_conn_cursor) in Hcursor as (e3 & Ht3).
  apply quiet_grows in Hrest as (e4 & Ht4); [|quiet_auto].
  apply (quiet_grows _ _ _ _ quiet_cursor_close) in Hcc as (e5 & Ht5).
  apply (quiet_grows _ _ _ _ quiet_conn_close) in Hclose as (e6 & Ht6).
  eexists. split.
  - rewrite Ht6, Ht5, Ht4, Hcommit, Hexec, Ht3, Ht2, Ht1. rewrite <- !app_assoc. reflexivity.
  - eexists _, (e1 ++ e2 ++ e3), ([(OpCommit, true)] ++ e4 ++ e5 ++ e6).
    split; [rewrite <- !app_assoc; reflexivity|]. left. now left.
Qed.

Lemma load_plain_publishes (self : PostgresDestination) (r : record) (data : list record)
    (start : Z) (w : World) (result : LoadResult) (w' : World) :
  load_plain self (r :: data) start w = (Returns result, w') ->
  exists evs, trace w' = trace w ++ evs /\ wrote_then_committed evs.
Proof.
  intros Hrun. unfold load_plain in Hrun. cbv zeta in Hrun.
  apply bind_returns in Hrun as ([] & w1 & Hins & Hrest).
  cbn [projected_rows map] in Hins.
  apply hook_insert_rows_publishes in Hins as (e1 & Ht1 & Hc1).
  apply quiet_grows in Hrest as (e2 & Ht2).
  2:{ apply quiet_bind; [apply quiet_when, quiet__swap_tables|intros]. quiet_auto. }
  exists (e1 ++ e2). rewrite Ht2, Ht1, app_assoc. split; [reflexivity|].
  now apply wrote_then_committed_app_l.
Qed.

(** The append, truncate and replace modes: a [load] that ends with no
    commit having followed a statement has raised inside [insert_rows] no
    later than at the commit of its first chunk; the database is untouched
    and the result reports [failed]. *)
Lemma plain_load_failure_before_commit (self : PostgresDestination)
    (data : list record) (context : Context) (w w' : World) (result : LoadResult)
    (evs : list (Op * bool)) :
  write_mode self <> "historize" ->
  load self data context w = (Returns result, w') ->
  trace w' = trace w ++ evs ->
  ~ wrote_then_committed evs ->
  db w' = db w /\ (data <> [] -> status result = "failed").
Proof.
  intros Hmode Hrun Htrace Hnc.
  unfold load in Hrun. unfold bind at 1, time_time at 1 in Hrun.
  destruct data as [|r data].
  { injection Hrun as <- <-. split; [reflexivity|congruence]. }
  destruct (String.eqb (write_mode self) "historize") eqn:Heq.
  { apply String.eqb_eq in Heq. contradiction. }
  unfold try_except in Hrun.
  match type of Hrun with
  | context [load_plain ?s ?d ?t ?w0] =>
      destruct (load_plain s d t w0) as [[res|e] w1] eqn:Hplain
  end.
  - injection Hrun as <- <-.
    apply load_plain_publishes in Hplain as (evs' & Ht & Hc).
    rewrite Ht in Htrace. cbn [trace] in Htrace. apply app_inv_head in Htrace. subst. contradiction.
  - unfold bind, time_time, ret in Hrun. injection Hrun as <- <-.
    destruct (sealed_load_plain _ _ _ _ _ _ Hplain) as (evs' & Ht & Hdb).
    cbn [trace db] in *. rewrite Ht in Htrace. apply app_inv_head in Htrace. subst.
    split; [auto|reflexivity].
Qed.

(** C4, as amended. In every write mode, when [load] ends before the commit
    that publishes its writes to the target has succeeded (the [COMMIT] of
    the merge in historize mode; in the others the first commit that follows
    a statement, the one after the first chunk of the insert), the committed
    database is what it was when [load] was called and, for a batch that is
    not empty, the result reports [failed]. *)
Theorem load_failure_before_commit (self : PostgresDestination)
    (data : list record) (context : Context) (w w' : World) (result : LoadResult)
    (evs : list (Op * bool)) :
  load self data context w = (Returns result, w') ->
  trace w' = trace w ++ evs ->
  ~ target_committed self evs ->
  db w' = db w /\ (data <> [] -> status result = "failed").
Proof.
  unfold target_committed. intros Hrun Htrace Hnc.
  destruct (String.eqb (write_mode self) "historize") eqn:Hmode.
  - apply String.eqb_eq in Hmode.
    exact (historize_load_before_commit _ _ _ _ _ _ _ Hmode Hrun Htrace Hnc).
  - apply String.eqb_neq in Hmode.
    exact (plain_load_failure_before_commit _ _ _ _ _ _ _ Hmode Hrun Htrace Hnc).
Qed.

Lemma wrote_then_committed_statement (evs : list (Op * bool)) :
  wrote_then_committed evs -> exists s, In (OpExecute s, true) evs.
Proof.
  intros (s & l1 & l2 & -> & _). exists s. apply in_app_iff. right. now left.
Qed.

(** The append mode: [insert_rows] commits at once, the insert then fails;
    a commit has succeeded, none has followed a statement. *)
Lemma load_failure_before_commit_witness :
  let w := world_of {[ ("public", "emp") := PlainRel [alice] ]} [3%nat] in
  exists result w',
    load (constructed (plain_config "append" None)) [bob] None w = (Returns result, w')
    /\ trace w'
       = [(OpConnect, true); (OpCommit, true); (OpCursor, true);
          (OpExecute (InsertRecords (Qualified "public" "emp") [bob]), false);
          (OpCursorClose, true); (OpClose, true)]
    /\ db w' = db w /\ status result = "failed".
Proof.
  cbv zeta.
  destruct (load_never_raises (constructed (plain_config "append" None)) [bob] None
              (world_of {[ ("public", "emp") := PlainRel [alice] ]} [3%nat]))
    as (result & w' & Hrun).
  exists result, w'. split; [exact Hrun|].
  destruct (load_failure_before_commit (constructed (plain_config "append" None)) [bob] None
              _ w' result (trace w') Hrun eq_refl) as [Hdb Hstatus].
  - vm_compute in Hrun. injection Hrun as <- <-.
    intros Hc. apply wrote_then_committed_statement in Hc as (s & Hin).
    simpl in Hin. intuition discriminate.
  - split; [|split; [exact Hdb|apply Hstatus; discriminate]].
    vm_compute in Hrun. injection Hrun as <- <-. reflexivity.
Defined.

(** The historize mode: the supersede statement of the merge fails, no
    [COMMIT] of the merge is executed. *)
Example historize_failure_before_commit :
  let w := world_of {[ ("public", "emp") := HistRel [sample_row "x" "h1" None None] ]}
             [10%nat] in
  exists result w',
    load sample_destination [alicia] None w = (Returns result, w')
    /\ ~ commit_done (trace w')
    /\ db w' = db w /\ status result = "failed".
Proof.
  cbv zeta. eexists _, _. split; [vm_compute; reflexivity|].
  split; [|split; reflexivity].
  unfold commit_done. simpl. intuition discriminate.
Qed.

(** C4, as stated, fails in the truncate mode: [pre_load_hook] truncates
    the target and commits; the insert of [load] then fails, [load] reports
    [failed], and the rows the target held before the operation are gone. *)
Lemma truncate_is_not_undone :
  let w := world_of {[ ("public", "emp") := PlainRel [alice] ]} [15%nat] in
  exists result w',
    load_data (plain_config "truncate" None) [bob] w = (Returns result, w')
    /\ status result = "failed"
    /\ target_of w = Some (PlainRel [alice])
    /\ target_of w' = Some (PlainRel [])
    /\ In (OpExecute (InsertRecords (Qualified "public" "emp") [bob]), false) (trace w').
Proof.
  cbv zeta. eexists _, _. split; [vm_compute; reflexivity|].
  split; [reflexivity|]. split; [vm_compute; reflexivity|].
  split; [vm_compute; reflexivity|]. vm_compute. find_event.
Qed.

(** Nor does the historize mode undo a merge that was committed: when the
    drop of the staging relation fails after the [COMMIT], [load] reports
    [failed] and the target holds the merged rows. *)
Lemma failure_after_commit_keeps_the_merge :
  exists result w' stored,
    load_data (historize_config ["id"]) [alice] (world_of ∅ [47%nat]) = (Returns result, w')
    /\ status result = "failed"
    /\ commit_done (trace w')
    /\ target_of w' = Some (HistRel [stored]).
Proof.
  eexists _, _, _. split; [vm_compute; reflexivity|].
  split; [reflexivity|]. split; [vm_compute; find_event|].
  vm_compute. reflexivity.
Qed.

(** ** The merge, row by row *)

Lemma merge_rows_shape ts track cols staging target :
  merge_rows ts track cols staging target
  = map (merged_row ts track staging) target
    ++ map (insert_select ts cols) (inserted_rows ts staging target).
Proof.
  unfold merge_rows, delete_phase, insert_phase, supersede_phase, restore_phase,
    sql_insert_select, sql_update, inserted_rows. cbn [fst].
  destruct track.
  2:{ rewrite !List.map_map. reflexivity. }
  rewrite List.map_app, !List.map_map. f_equal.
  apply map_ext_in. intros s Hs. apply filter_In in Hs as [Hs _].
  now rewrite inserted_row_not_deleted.
Qed.

Lemma merged_row_payload ts track staging t :
  _id_hash (merged_row ts track staging t) = _id_hash t
  /\ _record_hash (merged_row ts track staging t) = _record_hash t.
Proof.
  unfold merged_row.
  repeat match goal with |- context [if ?c then _ else _] => destruct c end; simpl; tauto.
Qed.

Lemma eqb_hash_neq (a b : string) : negb (String.eqb a b) = true <-> a <> b.
Proof. rewrite negb_true_iff. apply String.eqb_neq. Qed.

Lemma restore_where_after_restore ts staging t :
  restore_where staging (if restore_where staging t then restore_set ts t else t) = false.
Proof.
  destruct (restore_where staging t) eqn:Hr; [|exact Hr].
  unfold restore_where. reflexivity.
Qed.

Lemma current_after_supersede ts staging t :
  is_current (if supersede_where staging t then supersede_set ts t else t) = true ->
  supersede_where staging t = false.
Proof.
  destruct (supersede_where staging t); [|reflexivity].
  unfold is_current. cbn. discriminate.
Qed.

Lemma current_after_delete ts staging t :
  is_current (if delete_where staging t then delete_set ts t else t) = true ->
  delete_where staging t = false.
Proof.
  destruct (delete_where staging t); [|reflexivity].
  unfold is_current. cbn. rewrite andb_false_r. discriminate.
Qed.

(** A row that is current after the merge is one that none of the four
    statements selects any more. *)
Lemma merged_row_current ts track staging t :
  is_current (merged_row ts track staging t) = true ->
  restore_where staging (merged_row ts track staging t) = false
  /\ supersede_where staging (merged_row ts track staging t) = false
  /\ (track = true -> delete_where staging (merged_row ts track staging t) = false).
Proof.
  unfold merged_row. cbv zeta.
  set (t1 := if restore_where staging t then restore_set ts t else t).
  assert (H1 : restore_where staging t1 = false) by apply restore_where_after_restore.
  destruct track.
  - intros Hcur. pose proof (current_after_delete _ _ _ Hcur) as Hd.
    rewrite Hd in *. pose proof (current_after_supersede _ _ _ Hcur) as Hs.
    rewrite Hs in *. auto.
  - intros Hcur. pose proof (current_after_supersede _ _ _ Hcur) as Hs.
    rewrite Hs in *. split; [assumption|]. split; [assumption|discriminate].
Qed.

Lemma existsb_In {A} (p : A -> bool) (l : list A) :
  existsb p l = true <-> exists x, In x l /\ p x = true.
Proof. apply existsb_exists. Qed.

(** Every staged row has, after the merge, a current row of its identity and
    content. *)
Lemma staged_row_is_current ts track cols staging target s :
  In s staging ->
  exists t, In t (merge_rows ts track cols staging target)
            /\ is_current t = true
            /\ _id_hash t = _id_hash s /\ _record_hash t = _record_hash s.
Proof.
  intros Hs. rewrite merge_rows_shape.
  destruct (insert_where (map (merged_row ts false staging) target) s) eqn:Hins.
  - exists (insert_select ts cols s). split; [|now cbn].
    apply in_or_app. right. apply in_map. unfold inserted_rows.
    apply filter_In. split; assumption.
  - unfold insert_where in Hins. apply negb_false_iff, existsb_exists in Hins.
    destruct Hins as (m & Hm & Hmatch).
    apply in_map_iff in Hm as (t & <- & Ht).
    repeat (apply andb_prop in Hmatch as [Hmatch ?]).
    apply String.eqb_eq in Hmatch. 
    match goal with H : String.eqb (_record_hash _) _ = true |- _ => apply String.eqb_eq in H end.
    exists (merged_row ts track staging t).
    assert (Hsame : merged_row ts track staging t = merged_row ts false staging t).
    { destruct track; [|reflexivity]. unfold merged_row at 1. cbv zeta.
      fold (merged_row ts false staging t).
      assert (Hd : delete_where staging (merged_row ts false staging t) = false).
      { unfold delete_where. apply andb_false_iff. right. apply negb_false_iff.
        unfold exists_id. apply existsb_exists. exists s. split; [assumption|].
        apply String.eqb_eq. congruence. }
      unfold merged_row in Hd |- *. cbv zeta in Hd. now rewrite Hd. }
    rewrite Hsame. split; [|split; [|split; assumption]].
    + apply in_or_app. left. rewrite <- Hsame. now apply in_map.
    + unfold is_current. now apply andb_true_intro.
Qed.

(** A current row of the merged target, when deletes are tracked or its
    identity is staged, has a staged row of its identity and content. *)
Lemma current_row_is_staged ts track cols staging target t :
  In t (merge_rows ts track cols staging target) ->
  is_current t = true ->
  track = true \/ exists_id staging t = true ->
  exists s, In s staging /\ _id_hash s = _id_hash t /\ _record_hash s = _record_hash t.
Proof.
  rewrite merge_rows_shape. intros Hin Hcur Hid.
  apply in_app_or in Hin as [Hin|Hin].
  - apply in_map_iff in Hin as (t0 & <- & _).
    destruct (merged_row_current _ _ _ _ Hcur) as (_ & Hsup & Hdel).
    set (m := merged_row ts track staging t0) in *.
    assert (Hex : exists_id staging m = true).
    { destruct Hid as [->|Hex]; [|exact Hex].
      specialize (Hdel eq_refl). unfold delete_where in Hdel.
      unfold is_current in Hcur. rewrite Hcur in Hdel. now apply negb_false_iff in Hdel. }
    unfold exists_id in Hex. apply existsb_exists in Hex as (s & Hs & Heq).
    apply String.eqb_eq in Heq. exists s. split; [assumption|]. split; [assumption|].
    unfold supersede_where in Hsup. unfold is_current in Hcur. rewrite Hcur in Hsup.
    cbn [andb] in Hsup.
    destruct (String.eqb (_record_hash s) (_record_hash m)) eqn:Hh;
      [now apply String.eqb_eq in Hh|].
    exfalso. apply not_true_iff_false in Hsup. apply Hsup, existsb_exists.
    exists s. split; [assumption|]. rewrite Hh. apply andb_true_intro. split; [|reflexivity].
    now apply String.eqb_eq.
  - apply in_map_iff in Hin as (s & <- & Hs). apply filter_In in Hs as [Hs _].
    exists s. now cbn.
Qed.

(** With deletes tracked, the current rows of the target after a merge are
    the batch: the pairs of identity and content of the current rows are
    those of the staged rows, whatever the target held. *)
Theorem merge_current_rows_are_the_batch (ts : timestamp) (cols : list string)
    (staging target : list Row) (id h : string) :
  (exists t, In t (merge_rows ts true cols staging target)
             /\ is_current t = true /\ _id_hash t = id /\ _record_hash t = h)
  <-> (exists s, In s staging /\ _id_hash s = id /\ _record_hash s = h).
Proof.
  split.
  - intros (t & Hin & Hcur & <- & <-).
    eapply current_row_is_staged; eauto.
  - intros (s & Hs & <- & <-).
    destruct (staged_row_is_current ts true cols staging target s Hs) as (t & ? & ? & ? & ?).
    eauto.
Qed.

Lemma NoDup_id_hash_eq (staging : list Row) (s1 s2 : Row) :
  NoDup (map _id_hash staging) -> In s1 staging -> In s2 staging ->
  _id_hash s1 = _id_hash s2 -> _record_hash s1 = _record_hash s2.
Proof.
  induction staging as [|s staging IH]; [contradiction|].
  cbn [map]. intros Hnd [<-|H1] [<-|H2] Heq.
  - reflexivity.
  - apply NoDup_cons_1_1 in Hnd. exfalso. apply Hnd. rewrite Heq.
    apply list_elem_of_In. now apply in_map.
  - apply NoDup_cons_1_1 in Hnd. exfalso. apply Hnd. rewrite <- Heq.
    apply list_elem_of_In. now apply in_map.
  - apply NoDup_cons_1_2 in Hnd. now apply IH.
Qed.

Lemma map_id_when {A} (p : A -> bool) (g : A -> A) (l : list A) :
  (forall x, In x l -> p x = false) -> map (fun x => if p x then g x else x) l = l.
Proof.
  intros Hp. induction l as [|x l IH]; [reflexivity|].
  cbn [map]. rewrite (Hp x (or_introl eq_refl)). f_equal. apply IH.
  intros y Hy. apply Hp. now right.
Qed.

Lemma filter_none {A} (p : A -> bool) (l : list A) :
  (forall x, In x l -> p x = false) -> List.filter p l = [].
Proof.
  intros Hp. induction l as [|x l IH]; [reflexivity|].
  cbn [List.filter]. rewrite (Hp x (or_introl eq_refl)). apply IH.
  intros y Hy. apply Hp. now right.
Qed.

(** The rows of a merged target are rows no statement of a second merge of
    the same batch selects. *)
Lemma merged_target_is_settled ts track cols staging target t :
  NoDup (map _id_hash staging) ->
  In t (merge_rows ts track cols staging target) ->
  restore_where staging t = false
  /\ supersede_where staging t = false
  /\ (track = true -> delete_where staging t = false).
Proof.
  intros Hnd Hin. pose proof Hin as Hin'. rewrite merge_rows_shape in Hin.
  apply in_app_or in Hin as [Hin|Hin].
  - apply in_map_iff in Hin as (t0 & <- & _).
    set (m := merged_row ts track staging t0) in *.
    destruct (is_current m) eqn:Hcur.
    + now apply merged_row_current.
    + assert (Hr : restore_where staging m = false).
      { subst m. unfold merged_row. cbv zeta.
        pose proof (restore_where_after_restore ts staging t0) as Hr.
        set (t1 := if restore_where staging t0 then restore_set ts t0 else t0) in *.
        assert (Hs : restore_where staging
                       (if supersede_where staging t1 then supersede_set ts t1 else t1) = false).
        { destruct (supersede_where staging t1); [|exact Hr].
          unfold restore_where. cbn. now rewrite andb_false_r. }
        destruct track; [|exact Hs].
        match goal with |- context [if delete_where ?st ?x then _ else _] =>
          destruct (delete_where st x) eqn:Hd; [|exact Hs] end.
        unfold delete_where in Hd. apply andb_prop in Hd as [_ Hd].
        apply negb_true_iff in Hd.
        unfold restore_where.
        replace (exists_id staging (delete_set ts
                   (if supersede_where staging t1 then supersede_set ts t1 else t1)))
          with false by (symmetry; exact Hd).
        apply andb_false_r. }
      split; [exact Hr|]. unfold is_current in Hcur.
      unfold supersede_where, delete_where. rewrite Hcur. cbn [andb]. auto.
  - apply in_map_iff in Hin as (s & <- & Hs). apply filter_In in Hs as [Hs _].
    split; [reflexivity|]. split.
    + unfold supersede_where. cbn [insert_select _valid_to _deleted_at is_null andb
                                   _id_hash _record_hash].
      apply not_true_iff_false. intros Hex. apply existsb_exists in Hex as (s' & Hs' & Hm).
      apply andb_prop in Hm as [Hi Hh]. apply String.eqb_eq in Hi.
      apply negb_true_iff, String.eqb_neq in Hh. apply Hh.
      now apply (NoDup_id_hash_eq staging).
    + intros _. now apply inserted_row_not_deleted.
Qed.

Lemma merged_row_same_payload ts track staging t :
  same_payload t (merged_row ts track staging t).
Proof.
  unfold merged_row, same_payload.
  repeat match goal with |- context [if ?c then _ else _] => destruct c end;
    cbn; tauto.
Qed.

Lemma merged_row_closed ts track staging t :
  _valid_to t <> None -> merged_row ts track staging t = t.
Proof.
  intros Hclosed. destruct (_valid_to t) as [v|] eqn:Hv; [|congruence].
  unfold merged_row, restore_where, supersede_where, delete_where.
  rewrite Hv. cbn [is_null andb]. rewrite andb_false_r. cbn [andb].
  rewrite Hv. cbn [is_null andb]. rewrite Hv. cbn [is_null andb]. now destruct track.
Qed.

(** No merge removes a row of the target or rewrites what it holds besides
    its three lifecycle columns, and a version that is closed ([_valid_to]
    set) is never touched again; what a merge adds are new versions of
    staged rows, no more than one for each staged row. A table has no order:
    the merged target is given up to the order of its rows. *)
Theorem merge_keeps_history (ts : timestamp) (track : bool) (cols : list string)
    (staging target : list Row) :
  exists kept chosen new,
    merge_rows ts track cols staging target ≡ₚ kept ++ new
    /\ Forall2 (fun t t' => same_payload t t' /\ (_valid_to t <> None -> t' = t))
               target kept
    /\ chosen ⊆+ staging
    /\ Forall2 (inserted_from ts cols) chosen new.
Proof.
  exists (map (merged_row ts track staging) target), (inserted_rows ts staging target).
  exists (map (insert_select ts cols) (inserted_rows ts staging target)).
  split; [now rewrite merge_rows_shape|]. split; [|split].
  - apply Forall2_map_self. intros t _. split.
    + apply merged_row_same_payload.
    + apply merged_row_closed.
  - apply sublist_submseteq, filter_is_sublist.
  - apply Forall2_map_self. intros s _. apply insert_select_inserted.
Qed.

(** ** Loads in which no external call fails *)

Section FaultFree.

Lemma hook_run_ok (s : Stmt) (w : World) (p : gmap (string * string) Relation)
    (tmp : gmap string Relation) (a : Answer) :
  (forall k, faults w k = false) ->
  s <> Commit -> s <> Rollback ->
  exec_stmt s {| perm := db w; temp := ∅ |} = Some ({| perm := p; temp := tmp |}, a) ->
  hook_run [s] w = (Returns tt, after_hook w p (run_calls s)).
Proof.
  intros Hnf Hc Hr Hexec. destruct w as [db0 sess clk tk flt tr].
  cbn [faults db] in *. unfold hook_run, for_each_, after_hook, run_calls.
  run_goal. rewrite ?Hnf.
  destruct s; try congruence; rewrite Hexec; rewrite ?Hnf; cbn [map];
    rewrite <- ?app_assoc; reflexivity.
Qed.




Lemma bind_eq {A B} (m : M A) (k : A -> M B) (w w1 : World) (a : A) :
  m w = (Returns a, w1) -> bind m k w = k a w1.
Proof. intros H. unfold bind. now rewrite H. Qed.

Lemma try_eq {A} (m : M A) (h : Exn -> M A) (w w1 : World) (a : A) :
  m w = (Returns a, w1) -> try_except m h w = (Returns a, w1).
Proof. intros H. unfold try_except. now rewrite H. Qed.



End FaultFree.

(** The replace mode replaces nothing when the batch is not above the
    threshold: [pre_load_hook] truncates only in truncate mode and the swap
    of [load] runs only on the temp-table path, so the whole operation is,
    outcome and world, the one of the append mode. *)
Theorem replace_mode_appends_small_batches (cfg : Config) (data : list record) (w : World) :
  Z.of_nat (length data) <= default 1000 (cfg_temp_table_threshold cfg) ->
  load_data (with_write_mode cfg "replace") data w
  = load_data (with_write_mode cfg "append") data w.
Proof.
  intros Hlen. destruct cfg as [ty conn sch tn wm ct thr hist].
  unfold with_write_mode in *. cbn [cfg_temp_table_threshold] in Hlen.
  unfold load_data, DestinationFactory.create, __init__, validate_config.
  cbn [cfg_table_name cfg_write_mode cfg_historization cfg_type
       cfg_postgres_conn_id cfg_schema cfg_create_table cfg_temp_table_threshold].
  destruct ty as [ty|]; [|reflexivity].
  destruct (negb (bool_decide (lower ty ∈ DestinationFactory._registry))); [reflexivity|].
  change (default "historize" (Some "replace")) with "replace".
  change (default "historize" (Some "append")) with "append".
  destruct (falsy_str tn); [reflexivity|].
  destruct data as [|r data]; [reflexivity|].
  assert (Hthr : (Z.of_nat (length (r :: data)) >? default 1000 thr) = false).
  { rewrite Z.gtb_ltb. apply Z.ltb_ge. exact Hlen. }
  change (negb (bool_decide ("replace" ∈ write_modes))) with false.
  change (negb (bool_decide ("append" ∈ write_modes))) with false.
  change (String.eqb "replace" "historize") with false.
  change (String.eqb "append" "historize") with false.
  cbv beta iota zeta delta
    [bind ret pre_load_hook write_mode set_use_temp_table use_temp_table
     temp_table_threshold create_table schema table_name historization_enabled
     staging_table_name temp_table_name].
  change (String.eqb "replace" "historize") with false.
  change (String.eqb "append" "historize") with false.
  cbv iota. rewrite !Hthr.
  change (String.eqb "replace" "truncate") with false.
  change (String.eqb "append" "truncate") with false.
  cbv beta iota zeta delta
    [load load_plain post_load_hook when bind ret write_mode use_temp_table schema
     table_name staging_table_name temp_table_name falsy_str andb negb
     _create_table_from_data historization_enabled].
  change (String.eqb "replace" "historize") with false.
  change (String.eqb "append" "historize") with false.
  cbv iota.
  destruct (default true ct).
  - destruct (hook_run _ w) as [[[]|e] w1]; reflexivity.
  - reflexivity.
Qed.

(** ** The direct load *)

Section DirectLoad.

Lemma exec_create_existing (p : gmap (string * string) Relation) (tmp : gmap string Relation)
    (s n : string) (sys : bool) (r : Relation) :
  p !! (s, n) = Some r ->
  exec_stmt (CreateTableIfNotExists false (Qualified s n) sys) {| perm := p; temp := tmp |}
  = Some ({| perm := p; temp := tmp |}, affected 0).
Proof. intros Hp. unfold exec_stmt. cbn. now rewrite Hp. Qed.


(** The factory returns what [__init__] constructs. *)
Lemma create_returns (cfg : Config) (w w1 : World) (self : PostgresDestination) :
  DestinationFactory.create cfg w = (Returns self, w1) ->
  __init__ cfg w = (Returns self, w1).
Proof.
  unfold DestinationFactory.create. destruct (cfg_type cfg); [|discriminate].
  now destruct (negb _).
Qed.

(** Otherwise it raises without a look at the world. *)
Lemma create_cases (cfg : Config) (w : World) :
  DestinationFactory.create cfg w = __init__ cfg w
  \/ exists msg, DestinationFactory.create cfg w = (Raises (ValueError msg), w).
Proof.
  unfold DestinationFactory.create. destruct (cfg_type cfg); [|right; eauto].
  destruct (negb _); [right; eauto|now left].
Qed.

(** What [__init__] leaves on the object it constructs. *)
Lemma init_facts (cfg : Config) (w w1 : World) (self : PostgresDestination) :
  __init__ cfg w = (Returns self, w1) ->
  w1 = w
  /\ config self = cfg
  /\ write_mode self = effective_write_mode cfg
  /\ In (write_mode self) write_modes
  /\ schema self = default "public" (cfg_schema cfg)
  /\ table_name self = default "" (cfg_table_name cfg)
  /\ temp_table_threshold self = default 1000 (cfg_temp_table_threshold cfg)
  /\ (write_mode self <> "historize" -> historization_enabled self = false)
  /\ temp_table_name self = None /\ staging_table_name self = None
  /\ use_temp_table self = false.
Proof.
  unfold __init__, validate_config, effective_write_mode.
  destruct (falsy_str (cfg_table_name cfg)); [discriminate|].
  destruct (bool_decide (default "historize" (cfg_write_mode cfg) ∈ write_modes)) eqn:Hin;
    [|discriminate].
  apply bool_decide_eq_true, list_elem_of_In in Hin. cbn [negb].
  destruct (String.eqb (default "historize" (cfg_write_mode cfg)) "historize") eqn:Hh.
  - destruct (falsy_list _); [discriminate|].
    destruct (negb _); [discriminate|].
    cbv beta iota zeta delta [bind ret]. intros [= <- <-].
    cbn [config write_mode schema table_name temp_table_threshold historization_enabled
         temp_table_name staging_table_name use_temp_table].
    apply String.eqb_eq in Hh. repeat split; auto. congruence.
  - cbv beta iota zeta delta [bind ret]. intros [= <- <-].
    cbn [config write_mode schema table_name temp_table_threshold historization_enabled
         temp_table_name staging_table_name use_temp_table].
    repeat split; auto.
Qed.




End DirectLoad.


(** ** The temp-table strategy *)

Section TempTable.

Lemma bind_cases {A B} (m : M A) (k : A -> M B) (w w' : World) (out : Outcome B) :
  bind m k w = (out, w') ->
  (exists a w1, m w = (Returns a, w1) /\ k a w1 = (out, w'))
  \/ (exists e, m w = (Raises e, w') /\ out = Raises e).
Proof.
  unfold bind. destruct (m w) as [[a|e] w1]; intros H.
  - left. eauto.
  - right. injection H as <- <-. eauto.
Qed.

(** [hook.run] of a statement that leaves the permanent relations as they
    are commits nothing new, whatever fails. *)
Lemma hook_run_keeps_db (s : Stmt) (w w' : World) (out : Outcome unit) :
  s <> Commit -> s <> Rollback ->
  (forall st' a, exec_stmt s {| perm := db w; temp := ∅ |} = Some (st', a) ->
                 perm st' = db w) ->
  hook_run [s] w = (out, w') ->
  db w' = db w.
Proof.
  intros Hc Hr Hperm Hrun. destruct w as [db0 sess clk tk flt tr]. cbn [db] in Hperm.
  unfold hook_run, for_each_ in Hrun.
  destruct s; try congruence.
  all: run_all Hrun.
  all: try (specialize (Hperm _ _ eq_refl)).
  all: injection Hrun as <- <-; cbn [db]; try reflexivity; exact Hperm.
Qed.

Lemma create_temporary_keeps_perm (n : string) (sys : bool) (st st' : Store) (a : Answer) :
  exec_stmt (CreateTableIfNotExists true (Bare n) sys) st = Some (st', a) ->
  perm st' = perm st.
Proof.
  unfold exec_stmt. destruct (temp st !! n); intros [= <- _]; reflexivity.
Qed.

Lemma drop_absent_keeps_perm (s n : string) (st st' : Store) (a : Answer) :
  perm st !! (s, n) = None ->
  exec_stmt (DropTableIfExists (Qualified s n)) st = Some (st', a) ->
  perm st' = perm st.
Proof.
  intros Hp. unfold exec_stmt, resolve. rewrite Hp. intros [= <- _]. reflexivity.
Qed.

(** Inserting into a relation that does not exist raises and commits
    nothing. *)
Lemma hook_insert_rows_absent (s n : string) (row : record) (rows : list record)
    (w w' : World) (out : Outcome unit) :
  db w !! (s, n) = None ->
  hook_insert_rows (Qualified s n) (row :: rows) 1000 w = (out, w') ->
  (exists e, out = Raises e) /\ db w' = db w.
Proof.
  intros Hp Hrun. destruct w as [db0 sess clk tk flt tr]. cbn [db] in Hp.
  unfold hook_insert_rows in Hrun. cbn [length batches for_each_] in Hrun.
  assert (Hexec : forall chunk tmp,
            exec_stmt (InsertRecords (Qualified s n) chunk) {| perm := db0; temp := tmp |}
            = None).
  { intros chunk tmp. unfold exec_stmt, resolve. cbn. now rewrite Hp. }
  run_in Hrun.
  repeat (match type of Hrun with
          | context [exec_stmt (InsertRecords ?t ?c) ?st] => rewrite (Hexec c) in Hrun
          | _ => run_step Hrun
          end; run_in Hrun).
  all: injection Hrun as <- <-; split; [eauto|reflexivity].
Qed.

Lemma try_pass_returns (m : M unit) (w : World) :
  exists w', try_pass m w = (Returns tt, w').
Proof.
  unfold try_pass, try_except, ret. destruct (m w) as [[[]|e] w']; eauto.
Qed.

Lemma try_pass_db (m : M unit) (w w' : World) (out : Outcome unit) :
  (forall o w1, m w = (o, w1) -> db w1 = db w) ->
  try_pass m w = (out, w') -> db w' = db w.
Proof.
  intros Hm. unfold try_pass, try_except, ret.
  destruct (m w) as [[[]|e] w1] eqn:Hrun; intros [= <- <-]; eapply Hm; reflexivity.
Qed.

(** [pre_load_hook] of a batch above the threshold names the shadow table
    and commits no change of a permanent relation, whatever fails. *)
Lemma pre_load_hook_shadow (self : PostgresDestination) (data : list record)
    (w w1 : World) (out : Outcome PostgresDestination) :
  write_mode self <> "historize" ->
  data <> [] ->
  Z.of_nat (length data) > temp_table_threshold self ->
  pre_load_hook self data w = (out, w1) ->
  db w1 = db w
  /\ forall self1, out = Returns self1 ->
       self1 = set_temp_table_name (set_use_temp_table self true)
                 (table_name self +:+ "_temp_" +:+ pretty (clock w (ticks w))).
Proof.
  intros Hmode Hdata Hlen Hpre.
  destruct data as [|r data]; [congruence|]. clear Hdata.
  assert (Hthr : (Z.of_nat (length (r :: data)) >? temp_table_threshold self) = true).
  { apply Z.gtb_lt. lia. }
  apply String.eqb_neq in Hmode.
  unfold pre_load_hook in Hpre. rewrite Hmode, Hthr in Hpre.
  cbn [use_temp_table set_use_temp_table] in Hpre.
  apply bind_cases in Hpre as [(t & w0 & Htime & Hpre)|(e' & Htime & _)];
    [|discriminate Htime].
  injection Htime as <- <-.
  cbn [create_table set_use_temp_table set_temp_table_name table_name temp_table_name
       fmt_name] in Hpre.
  assert (Hcreate : forall o w2,
            when (create_table self)
              (_create_table_from_data
                 (set_temp_table_name (set_use_temp_table self true)
                    (table_name self +:+ "_temp_" +:+ pretty (clock w (ticks w))))
                 (table_name self +:+ "_temp_" +:+ pretty (clock w (ticks w)))
                 (r :: data) true false)
              {| db := db w; session := session w; clock := clock w; ticks := S (ticks w);
                 faults := faults w; trace := trace w |} = (o, w2) ->
            db w2 = db w).
  { intros o w2 Hc. destruct (create_table self); [|now inversion Hc].
    unfold when, _create_table_from_data in Hc. cbn [andb negb] in Hc.
    apply bind_cases in Hc as [(? & w3 & Hc & Hret)|(e'' & Hc & _)].
    - injection Hret as _ <-.
      apply hook_run_keeps_db in Hc; [exact Hc|discriminate..|].
      intros st' a. apply (create_temporary_keeps_perm _ _ {| perm := _; temp := _ |}).
    - apply hook_run_keeps_db in Hc; [exact Hc|discriminate..|].
      intros st' a. apply (create_temporary_keeps_perm _ _ {| perm := _; temp := _ |}). }
  apply bind_cases in Hpre as [(? & w2 & Hc & Hret)|(e' & Hc & ->)].
  - injection Hret as <- <-. split; [now apply Hcreate in Hc|].
    now intros self1 [= <-].
  - split; [now apply Hcreate in Hc|discriminate].
Qed.

(** [load] into a shadow table that does not exist reports [failed] and
    commits nothing. *)
Lemma load_shadow_fails (self : PostgresDestination) (data : list record)
    (context : Context) (name : string) (w w1 : World) (out : Outcome LoadResult) :
  write_mode self <> "historize" ->
  use_temp_table self = true -> temp_table_name self = Some name ->
  data <> [] ->
  db w !! (schema self, name) = None ->
  load self data context w = (out, w1) ->
  db w1 = db w /\ exists result, out = Returns result /\ status result = "failed".
Proof.
  intros Hmode Hut Htn Hdata Habsent Hrun.
  destruct data as [|r data]; [congruence|]. clear Hdata.
  apply String.eqb_neq in Hmode.
  unfold load in Hrun. rewrite Hmode in Hrun.
  apply bind_cases in Hrun as [(t & w0 & Htime & Hrun)|(e' & Htime & _)];
    [|discriminate Htime].
  injection Htime as <- <-.
  unfold try_except in Hrun.
  match type of Hrun with
  | context [load_plain ?s ?d ?t ?w0] => destruct (load_plain s d t w0) as [o w2] eqn:Hplain
  end.
  unfold load_plain in Hplain. rewrite Hut, Htn in Hplain. cbn [fmt_name] in Hplain.
  apply bind_cases in Hplain as [(? & w3 & Hins & _)|(e & Hins & ->)].
  - apply hook_insert_rows_absent in Hins as [(e & He) _]; [discriminate He|exact Habsent].
  - apply hook_insert_rows_absent in Hins as [_ Hdb]; [|exact Habsent].
    unfold bind, time_time, ret in Hrun. injection Hrun as <- <-.
    split; [exact Hdb|]. eexists. split; reflexivity.
Qed.

(** [post_load_hook] when the shadow table does not exist. *)
Lemma post_load_hook_shadow (self : PostgresDestination) (result : LoadResult)
    (name : string) (w w1 : World) (out : Outcome unit) :
  staging_table_name self = None -> temp_table_name self = Some name ->
  db w !! (schema self, name) = None ->
  post_load_hook self result w = (out, w1) ->
  out = Returns tt /\ db w1 = db w.
Proof.
  intros Hsn Htn Habsent Hrun. unfold post_load_hook in Hrun.
  rewrite Hsn, Htn in Hrun. cbn [falsy_str negb when fmt_name] in Hrun.
  erewrite bind_eq in Hrun by reflexivity.
  destruct (use_temp_table self && negb (String.eqb name "")).
  - split.
    + destruct (try_pass_returns
                  (hook_run [DropTableIfExists (Qualified (schema self) name)]) w)
        as (w2 & Hret).
      unfold when in Hrun. rewrite Hret in Hrun. now injection Hrun as <- _.
    + eapply try_pass_db; [|exact Hrun].
      intros o w2 Hdrop. apply hook_run_keeps_db in Hdrop; [exact Hdrop|discriminate..|].
      intros st' a. now apply (drop_absent_keeps_perm _ _ {| perm := _; temp := _ |}).
  - now injection Hrun as <- <-.
Qed.

End TempTable.

(** A load in append, truncate or replace mode of a batch above the
    threshold never succeeds: [pre_load_hook] creates the shadow table as a
    temporary one on a connection that [hook.run] closes, so the table is
    gone when [load] inserts into it under the schema's name. [load_data]
    raises or reports a status that is not [success], and the committed
    database is left as it was, provided no permanent relation carries the
    name of the shadow table already. *)
Theorem load_above_threshold_never_succeeds (cfg : Config) (self : PostgresDestination)
    (data : list record) (w w' : World) (out : Outcome LoadResult) :
  __init__ cfg w = (Returns self, w) ->
  write_mode self <> "historize" ->
  data <> [] ->
  Z.of_nat (length data) > temp_table_threshold self ->
  db w !! (schema self, table_name self +:+ "_temp_" +:+ pretty (clock w (ticks w))) = None ->
  load_data cfg data w = (out, w') ->
  db w' = db w
  /\ forall result, out = Returns result -> status result = "failed".
Proof.
  intros Hinit Hmode Hdata Hlen Habsent Hrun.
  destruct (init_facts _ _ _ _ Hinit) as (_ & _ & _ & _ & _ & _ & _ & _ & Htn & Hsn & Hut).
  unfold load_data in Hrun.
  destruct (create_cases cfg w) as [Hcreate|(msg & Hcreate)].
  2:{ unfold bind at 1 in Hrun. rewrite Hcreate in Hrun. injection Hrun as <- <-.
      split; [reflexivity|discriminate]. }
  erewrite bind_eq in Hrun by (rewrite Hcreate; exact Hinit).
  set (name := table_name self +:+ "_temp_" +:+ pretty (clock w (ticks w))) in *.
  apply bind_cases in Hrun as [(self1 & w1 & Hpre & Hrun)|(e & Hpre & ->)].
  2:{ apply pre_load_hook_shadow in Hpre as [Hdb _]; auto. split; [exact Hdb|discriminate]. }
  apply pre_load_hook_shadow in Hpre as [Hdb1 Hself]; auto.
  specialize (Hself self1 eq_refl). fold name in Hself. subst self1.
  set (self' := set_temp_table_name (set_use_temp_table self true) name) in *.
  apply bind_cases in Hrun as [(result & w2 & Hload & Hrun)|(e & Hload & ->)].
  2:{ apply (load_shadow_fails self' _ _ name) in Hload as [_ (result & Hres & _)];
        auto; [discriminate Hres|now rewrite Hdb1]. }
  apply (load_shadow_fails self' _ _ name) in Hload as [Hdb2 (result' & Hres & Hstatus)];
    auto; [|now rewrite Hdb1].
  injection Hres as <-.
  apply bind_cases in Hrun as [([] & w3 & Hpost & Hret)|(e & Hpost & ->)].
  - apply (post_load_hook_shadow self' _ name) in Hpost as [_ Hdb3];
      auto; [|now rewrite Hdb2, Hdb1].
    injection Hret as <- <-. split; [congruence|]. now intros ? [= <-].
  - apply (post_load_hook_shadow self' _ name) in Hpost as [Hout _];
      auto; [discriminate Hout|now rewrite Hdb2, Hdb1].
Qed.

(** ** The historize load *)

Section Historize.

(** The merge when nothing fails: what it returns and the world it leaves. *)
Lemma merge_success_world self staging_table target_table w ss tgt sta :
  session w = Some ss -> aborted ss = false ->
  (forall k, faults w k = false) ->
  perm (work ss) !! (schema self, target_table) = Some (HistRel tgt) ->
  temp (work ss) !! staging_table = Some (HistRel sta) ->
  (sta <> [] -> staging_data_columns sta <> []) ->
  let ts := clock w (ticks w) in
  let cols := staging_data_columns sta in
  let merged := merge_rows ts (track_deletes self) cols sta tgt in
  exists w',
    _merge_historized_data self staging_table target_table true w
    = (Returns (merge_stats ts (track_deletes self) cols sta tgt), w')
    /\ db w' = <[(schema self, target_table) := HistRel merged]> (perm (work ss))
    /\ session w' = Some {| work := {| perm := db w'; temp := temp (work ss) |};
                            temp_saved := temp (work ss); aborted := false |}
    /\ (forall k, faults w' k = false)
    /\ clock w' = clock w /\ ticks w' = S (ticks w).
Proof.
  intros Hs Hab Hnf HT HS Hcols.
  destruct w as [db0 sess clk tk flt tr]. simpl in Hs, Hnf. subst sess.
  destruct ss as [[p t] sv ab]. simpl in Hab, HT, HS. subst ab.
  unfold _merge_historized_data. run_goal.
  rewrite ?Hnf.
  rewrite (exec_select_staging p t staging_table sta HS).
  assert (Hbegin : forall st, exec_stmt Begin st = Some (st, affected 0)) by reflexivity.
  rewrite ?Hnf. rewrite Hbegin. rewrite ?Hnf.
  rewrite (exec_restore p t _ _ _ (clk tk) tgt sta HT HS). rewrite ?Hnf.
  rewrite (exec_supersede _ t _ _ _ (clk tk) _ sta (lookup_insert_eq _ _ _) HS). rewrite ?Hnf.
  rewrite insert_insert_eq.
  unfold merge_stats.
  assert (Hempty : merge_rows (clk tk) (track_deletes self) (staging_data_columns []) [] tgt
                   = (if track_deletes self
                      then delete_phase (clk tk) []
                             (supersede_phase (clk tk) [] (restore_phase (clk tk) [] tgt))
                      else supersede_phase (clk tk) [] (restore_phase (clk tk) [] tgt))).
  { unfold merge_rows, insert_phase, sql_insert_select. cbn [List.filter map fst].
    now rewrite app_nil_r. }
  destruct sta as [|r sta'].
  - cbv beta iota zeta delta [fetched description rowcount affected].
    rewrite Hempty.
    destruct (track_deletes self).
    + rewrite (exec_delete _ t _ _ _ (clk tk) _ [] (lookup_insert_eq _ _ _) HS). rewrite ?Hnf.
      rewrite insert_insert_eq.
      eexists. split; [|split; [|split; [|split; [|split]]]].
      * cbv beta iota zeta delta [fetched description rowcount affected].
        unfold insert_phase, sql_insert_select. cbn [List.filter map length fst].
        rewrite !app_nil_r. reflexivity.
      * reflexivity.
      * reflexivity.
      * exact Hnf.
      * reflexivity.
      * reflexivity.
    + rewrite ?Hnf.
      eexists. split; [|split; [|split; [|split; [|split]]]].
      * reflexivity.
      * reflexivity.
      * reflexivity.
      * exact Hnf.
      * reflexivity.
      * reflexivity.
  - cbv beta iota zeta delta [fetched description rowcount affected].
    specialize (Hcols ltac:(discriminate)).
    rewrite (exec_insert _ t _ _ _ (clk tk) _ (r :: sta') (lookup_insert_eq _ _ _) HS _ Hcols).
    rewrite ?Hnf. rewrite insert_insert_eq.
    destruct (track_deletes self).
    + rewrite (exec_delete _ t _ _ _ (clk tk) _ (r :: sta') (lookup_insert_eq _ _ _) HS).
      rewrite ?Hnf. rewrite insert_insert_eq.
      eexists. split; [|split; [|split; [|split; [|split]]]].
      * reflexivity.
      * reflexivity.
      * reflexivity.
      * exact Hnf.
      * reflexivity.
      * reflexivity.
    + rewrite ?Hnf.
      eexists. split; [|split; [|split; [|split; [|split]]]].
      * reflexivity.
      * reflexivity.
      * reflexivity.
      * exact Hnf.
      * reflexivity.
      * reflexivity.
Qed.

Lemma for_each_enrich_rows self ts data w :
  exists rows,
    for_each (enrich_record self ts None) data w = (Returns rows, advance w (length data))
    /\ enriched_batch self ts (clock w) (ticks w) data rows.
Proof.
  revert w. induction data as [|r data IH]; intros w.
  - exists []. simpl. unfold ret, advance. rewrite Nat.add_0_r.
    destruct w; simpl. split; [reflexivity|]. split; [reflexivity|].
    intros i r row Hr. now rewrite lookup_nil in Hr.
  - simpl. unfold bind at 1. unfold enrich_record at 1. unfold bind at 1, time_time, ret at 1.
    unfold bind at 1.
    match goal with
    | |- context [for_each _ data ?w1] => destruct (IH w1) as (rows & Hrun & Hlen & Hall)
    end.
    rewrite Hrun. eexists. split.
    + unfold ret, advance. simpl. repeat f_equal. lia.
    + cbn [clock ticks] in Hall. split; [cbn; now rewrite Hlen|].
      intros [|i] r' row'; cbn [lookup list_lookup].
      * intros [= <-] [= <-]. rewrite Nat.add_0_r.
        unfold enriched_from, hashed_from. cbn. repeat split.
      * intros Hr Hrow. replace (ticks w + S i)%nat with (S (ticks w) + i)%nat by lia.
        exact (Hall i r' row' Hr Hrow).
Qed.

Lemma enrich_rows self data w :
  exists rows,
    _enrich_with_system_columns self data None w
    = (Returns rows, advance w (S (length data)))
    /\ enriched_batch self (clock w (ticks w)) (clock w) (S (ticks w)) data rows.
Proof.
  unfold _enrich_with_system_columns, bind, datetime_now, time_time.
  match goal with
  | |- context [for_each (enrich_record self ?ts None) data ?w1] =>
      destruct (for_each_enrich_rows self ts data w1) as (rows & Hrun & Hall)
  end.
  exists rows. rewrite Hrun. split; [|exact Hall].
  unfold advance. simpl. repeat f_equal. lia.
Qed.

(** The hashes of the rows of an enriched batch. *)
Lemma enriched_batch_hashed self now clk k data rows :
  enriched_batch self now clk k data rows -> Forall2 (hashed_from self) data rows.
Proof.
  intros [Hlen Hall]. apply Forall2_same_length_lookup. split; [now symmetry|].
  intros i r row Hr Hrow. now destruct (Hall i r row Hr Hrow) as (_ & Hh & _).
Qed.

Lemma for_each_enrich_columns self ts pid data w rows w1 :
  for_each (enrich_record self ts pid) data w = (Returns rows, w1) ->
  Forall2 (fun r row => columns row
                        = List.filter (fun kv => negb (is_system_column (fst kv))) r)
          data rows.
Proof.
  revert w rows w1. induction data as [|r data IH]; intros w rows w1 Hrun.
  - cbn in Hrun. injection Hrun as <- _. constructor.
  - cbn [for_each] in Hrun. unfold bind at 1 in Hrun.
    unfold enrich_record at 1 in Hrun. unfold bind at 1, time_time, ret at 1 in Hrun.
    unfold bind at 1 in Hrun.
    match type of Hrun with
    | context [for_each ?f data ?w0] => destruct (for_each f data w0) as [[rest|e] w2] eqn:Hrest
    end; [|discriminate Hrun].
    unfold ret in Hrun. injection Hrun as <- _.
    constructor; [reflexivity|]. eapply IH. exact Hrest.
Qed.

Lemma enrich_columns self data context w rows w1 :
  _enrich_with_system_columns self data context w = (Returns rows, w1) ->
  Forall2 (fun r row => columns row
                        = List.filter (fun kv => negb (is_system_column (fst kv))) r)
          data rows.
Proof.
  unfold _enrich_with_system_columns, bind, datetime_now, time_time.
  match goal with
  | |- context [for_each ?f data ?w0] => destruct (for_each f data w0) as [[rest|e] w2] eqn:Hrest
  end; [|discriminate].
  intros [= <- _]. eapply for_each_enrich_columns. exact Hrest.
Qed.

Lemma filter_keys_not_system (r : record) :
  List.filter (fun col => negb (startswith_underscore col))
    (keys (List.filter (fun kv => negb (is_system_column (fst kv))) r))
  = List.filter (fun col => negb (startswith_underscore col)) (keys r).
Proof.
  induction r as [|[k v] r IH]; [reflexivity|].
  cbn [List.filter keys map fst].
  destruct (is_system_column k) eqn:Hsys; cbn [negb].
  - assert (Hu : startswith_underscore k = true).
    { unfold is_system_column in Hsys. apply bool_decide_eq_true in Hsys.
      unfold system_columns in Hsys.
      repeat (apply elem_of_cons in Hsys as [->|Hsys]; [reflexivity|]).
      now apply elem_of_nil in Hsys. }
    rewrite Hu. cbn [negb]. exact IH.
  - cbn [List.filter keys map fst]. fold (keys r).
    destruct (startswith_underscore k); cbn [negb]; [exact IH|].
    f_equal. exact IH.
Qed.

(** The data columns the merge reads off the staging relation are the keys
    of the first record of the batch that do not start with an underscore. *)
Lemma staged_data_columns self data context w rows w1 first rest :
  data = first :: rest ->
  _enrich_with_system_columns self data context w = (Returns rows, w1) ->
  staging_data_columns (staged_rows rows)
  = List.filter (fun col => negb (startswith_underscore col)) (keys first).
Proof.
  intros -> Hrun. apply enrich_columns in Hrun.
  inversion Hrun as [|? row ? rows' Hcols _]; subst.
  unfold staged_rows, staging_data_columns. cbn [map columns with_columns].
  rewrite List.filter_app.
  replace (List.filter (fun col => negb (startswith_underscore col)) system_columns)
    with (@nil string) by reflexivity.
  rewrite app_nil_r. unfold keys at 1. rewrite List.map_map. cbn [fst]. rewrite List.map_id.
  rewrite Hcols. apply filter_keys_not_system.
Qed.

Lemma staged_rows_hashed self data rows :
  Forall2 (hashed_from self) data rows ->
  Forall2 (hashed_from self) data (staged_rows rows).
Proof.
  intros Hall. unfold staged_rows. destruct rows as [|first rest]; [exact Hall|].
  apply Forall2_fmap_r. eapply Forall2_impl; [exact Hall|].
  intros r row H. exact H.
Qed.

Lemma after_hook_fields w relations calls :
  db (after_hook w relations calls) = relations
  /\ faults (after_hook w relations calls) = faults w
  /\ clock (after_hook w relations calls) = clock w
  /\ ticks (after_hook w relations calls) = ticks w.
Proof. repeat split. Qed.

(** The index statements on a table that exists, nothing failing. *)
Lemma create_indexes_ok (self : PostgresDestination) (name : string) (w : World) (r : Relation) :
  (forall k, faults w k = false) ->
  db w !! (schema self, name) = Some r ->
  exists w1,
    _create_indexes self name w = (Returns tt, w1)
    /\ db w1 = db w /\ faults w1 = faults w /\ clock w1 = clock w /\ ticks w1 = ticks w.
Proof.
  unfold _create_indexes. generalize index_names as names.
  intros names. revert w. induction names as [|col names IH]; intros w Hnf Hr.
  - exists w. cbn. auto.
  - cbn [for_each_].
    assert (Hone : try_pass (hook_run [CreateIndexIfNotExists
                                          ("idx_" +:+ name +:+ "_" +:+ col)
                                          (Qualified (schema self) name)]) w
                   = (Returns tt, after_hook w (db w)
                                    (run_calls (CreateIndexIfNotExists
                                                  ("idx_" +:+ name +:+ "_" +:+ col)
                                                  (Qualified (schema self) name))))).
    { unfold try_pass. apply try_eq.
      eapply hook_run_ok; [exact Hnf|discriminate..|].
      unfold exec_stmt, resolve. cbn. rewrite Hr. reflexivity. }
    erewrite bind_eq by exact Hone.
    destruct (IH (after_hook w (db w) (run_calls (CreateIndexIfNotExists
                                          ("idx_" +:+ name +:+ "_" +:+ col)
                                          (Qualified (schema self) name)))))
      as (w1 & Hrun & Hdb & Hf & Hc & Ht); [exact Hnf|exact Hr|].
    exists w1. split; [exact Hrun|]. auto.
Qed.

(** [pre_load_hook] in historize mode, nothing failing: the target exists
    afterwards, with the rows it had, or empty when it was created. *)
Lemma pre_load_hook_historize (self : PostgresDestination) (data : list record) (w : World)
    (tgt : list Row) :
  (forall k, faults w k = false) ->
  write_mode self = "historize" ->
  data <> [] ->
  db w !! (schema self, table_name self) = Some (HistRel tgt)
  \/ (db w !! (schema self, table_name self) = None /\ tgt = []
      /\ create_table self = true /\ historization_enabled self = true) ->
  exists w1,
    pre_load_hook self data w
    = (Returns (set_staging_table_name self
                  (table_name self +:+ "_staging_" +:+ pretty (clock w (ticks w)))), w1)
    /\ db w1 = <[(schema self, table_name self) := HistRel tgt]> (db w)
    /\ faults w1 = faults w /\ clock w1 = clock w /\ ticks w1 = S (ticks w).
Proof.
  intros Hnf Hmode Hdata Htarget.
  destruct data as [|r data]; [congruence|]. clear Hdata.
  unfold pre_load_hook. rewrite Hmode. change (String.eqb "historize" "historize") with true.
  cbv iota. erewrite bind_eq by reflexivity.
  cbn [create_table set_staging_table_name table_name].
  set (name := table_name self +:+ "_staging_" +:+ pretty (clock w (ticks w))).
  set (w0 := {| db := db w; session := session w; clock := clock w; ticks := S (ticks w);
                faults := faults w; trace := trace w |}).
  assert (Hcreate : exists w1,
            when (create_table self)
              (_create_table_from_data (set_staging_table_name self name) (table_name self)
                 (r :: data) false true) w0 = (Returns tt, w1)
            /\ db w1 = <[(schema self, table_name self) := HistRel tgt]> (db w)
            /\ faults w1 = faults w /\ clock w1 = clock w /\ ticks w1 = S (ticks w)).
  { destruct Htarget as [Hex|(Habs & -> & Hct & Hen)].
    - destruct (create_table self).
      2:{ exists w0. cbn. rewrite insert_id by exact Hex. auto. }
      unfold when, _create_table_from_data.
      cbn [andb negb schema historization_enabled set_staging_table_name].
      erewrite bind_eq.
      2:{ eapply hook_run_ok; [exact Hnf|discriminate..|].
          apply (exec_create_existing _ _ _ _ _ _ Hex). }
      rewrite andb_true_r.
      destruct (historization_enabled self).
      + destruct (create_indexes_ok (set_staging_table_name self name) (table_name self)
                    (after_hook w0 (db w0) (run_calls
                       (CreateTableIfNotExists false
                          (Qualified (schema self) (table_name self)) true)))
                    (HistRel tgt)) as (w1 & Hrun & Hdb & Hf & Hc & Ht);
          [exact Hnf|exact Hex|].
        exists w1. split; [exact Hrun|]. rewrite Hdb, Hf, Hc, Ht. cbn.
        rewrite insert_id by exact Hex. auto.
      + eexists. split; [reflexivity|]. cbn. rewrite insert_id by exact Hex. auto.
    - rewrite Hct. unfold when, _create_table_from_data.
      cbn [andb negb schema historization_enabled set_staging_table_name].
      rewrite Hen. cbn [andb].
      erewrite bind_eq.
      2:{ eapply hook_run_ok; [exact Hnf|discriminate..|].
          unfold exec_stmt. cbn. rewrite Habs. reflexivity. }
      destruct (create_indexes_ok (set_staging_table_name self name) (table_name self)
                  (after_hook w0 (<[(schema self, table_name self) := HistRel []]> (db w0))
                     (run_calls (CreateTableIfNotExists false
                                   (Qualified (schema self) (table_name self)) true)))
                  (HistRel [])) as (w1 & Hrun & Hdb & Hf & Hc & Ht);
        [exact Hnf|apply lookup_insert_eq|].
      exists w1. split; [exact Hrun|]. rewrite Hdb, Hf, Hc, Ht. cbn. auto. }
  destruct Hcreate as (w1 & Hrun & Hfacts).
  exists w1. erewrite bind_eq by exact Hrun. split; [reflexivity|exact Hfacts].
Qed.

Lemma exec_create_staging (p : gmap (string * string) Relation) (n : string) :
  exec_stmt (CreateTemporaryTable n) {| perm := p; temp := ∅ |}
  = Some ({| perm := p; temp := {[ n := HistRel [] ]} |}, affected 0).
Proof. unfold exec_stmt. cbn. rewrite lookup_empty. now rewrite insert_empty. Qed.

Lemma exec_insert_staging (p : gmap (string * string) Relation) (n : string)
    (rows : list Row) :
  exec_stmt (InsertEnriched (Bare n) rows) {| perm := p; temp := {[ n := HistRel [] ]} |}
  = Some ({| perm := p; temp := {[ n := HistRel rows ]} |}, affected (length rows)).
Proof.
  unfold exec_stmt, resolve, store_put. cbn. rewrite lookup_singleton_eq.
  cbn. now rewrite insert_singleton_eq.
Qed.

Lemma exec_drop_staging (p : gmap (string * string) Relation) (n : string) (r : Relation) :
  exec_stmt (DropTableIfExists (Bare n)) {| perm := p; temp := {[ n := r ]} |}
  = Some ({| perm := p; temp := ∅ |}, affected 0).
Proof.
  unfold exec_stmt, resolve, store_drop. cbn. rewrite lookup_singleton_eq.
  now rewrite delete_singleton_eq.
Qed.

(** [load] in historize mode on a target that exists, nothing failing. *)
Lemma load_historize_ok (self : PostgresDestination) (data : list record)
    (w : World) (tgt : list Row) (name : string) (first : record)
    (rest : list record) :
  (forall k, faults w k = false) ->
  write_mode self = "historize" ->
  staging_table_name self = Some name ->
  data = first :: rest ->
  List.filter (fun col => negb (startswith_underscore col)) (keys first) <> [] ->
  db w !! (schema self, table_name self) = Some (HistRel tgt) ->
  let ts := clock w (ticks w + 2 + length data)%nat in
  let cols := List.filter (fun col => negb (startswith_underscore col)) (keys first) in
  exists result w1 enriched,
    load self data None w = (Returns result, w1)
    /\ enriched_batch self (clock w (S (ticks w))) (clock w) (S (S (ticks w))) data enriched
    /\ status result = "success" /\ rows_loaded result = length data
    /\ historization_stats result
       = Some (merge_stats ts (track_deletes self) cols (staged_rows enriched) tgt)
    /\ db w1 = <[(schema self, table_name self) :=
                   HistRel (merge_rows ts (track_deletes self) cols (staged_rows enriched)
                              tgt)]> (db w)
    /\ (forall k, faults w1 k = false).
Proof.
  intros Hnf Hmode Hname -> Hcols Htgt. cbv zeta.
  destruct w as [db0 sess clk tk flt tr]. cbn [faults db clock ticks] in *.
  destruct (enrich_rows self (first :: rest)
              {| db := db0; session := sess; clock := clk; ticks := S tk;
                 faults := flt; trace := tr |}) as (rows & Henrich & Hall).
  cbn [clock ticks] in Hall.
  pose proof (staged_data_columns _ _ _ _ _ _ _ _ eq_refl Henrich) as Hstaged_cols.
  assert (Hticks : (S tk + S (length (first :: rest)) = tk + 2 + length (first :: rest))%nat)
    by lia.
  destruct rows as [|row rows']; [destruct Hall as [Hlen _]; discriminate Hlen|].
  assert (Hrows : staged_rows (row :: rows') <> []) by discriminate.
  set (staged := staged_rows (row :: rows')) in *.
  match goal with
  | |- context [load ?s ?d ?c ?W] => destruct (load s d c W) as [out w1] eqn:Hrun
  end.
  unfold load in Hrun. erewrite bind_eq in Hrun by reflexivity.
  rewrite Hmode in Hrun. change (String.eqb "historize" "historize") with true in Hrun.
  cbv iota in Hrun.
  unfold load_historize in Hrun. rewrite Hname in Hrun. cbn [fmt_name] in Hrun.
  unfold try_except at 1 in Hrun.
  erewrite bind_eq in Hrun by exact Henrich.
  unfold _create_staging_table_with_conn in Hrun. rewrite Hname in Hrun.
  cbn [fmt_name] in Hrun. fold staged in Hrun.
  unfold advance in Hrun. run_in Hrun. rewrite ?Hnf in Hrun.
  rewrite exec_create_staging in Hrun. run_in Hrun. rewrite ?Hnf in Hrun.
  rewrite exec_insert_staging in Hrun. run_in Hrun. rewrite ?Hnf in Hrun.
  match type of Hrun with
  | context [_merge_historized_data ?s ?a ?b ?c ?W] =>
      destruct (merge_success_world s a b W
                  {| work := {| perm := db0; temp := {[ name := HistRel staged ]} |};
                     temp_saved := {[ name := HistRel staged ]}; aborted := false |}
                  tgt staged)
        as (wm & Hmerge & Hdbm & Hsessm & Hnfm & Hclkm & Htkm);
        [reflexivity|reflexivity|exact Hnf|exact Htgt|apply lookup_singleton_eq| |]
  end.
  { intros _. now rewrite Hstaged_cols. }
  rewrite Hmerge in Hrun.
  destruct wm as [dbm sessm clkm tkm fltm trm].
  cbn [db session faults clock ticks work perm temp] in Hdbm, Hsessm, Hnfm, Hclkm, Htkm.
  subst sessm clkm tkm.
  run_in Hrun. rewrite ?Hnfm in Hrun.
  rewrite exec_drop_staging in Hrun. run_in Hrun. rewrite ?Hnfm in Hrun.
  injection Hrun as <- <-.
  eexists _, _, (row :: rows'). split; [reflexivity|].
  split; [exact Hall|]. cbn [status rows_loaded historization_stats db faults].
  rewrite <- Hstaged_cols, <- Hticks.
  split; [reflexivity|]. split; [reflexivity|]. split; [reflexivity|].
  split; [exact Hdbm|assumption].
Qed.

Lemma drop_absent_bare_keeps_perm (n : string) (st st' : Store) (a : Answer) :
  temp st = ∅ -> perm st !! ("public", n) = None ->
  exec_stmt (DropTableIfExists (Bare n)) st = Some (st', a) ->
  perm st' = perm st.
Proof.
  intros Ht Hp. unfold exec_stmt, resolve. rewrite Ht, lookup_empty, Hp.
  intros [= <- _]. reflexivity.
Qed.

(** [post_load_hook] after a historize load: the staging relation went with
    the connection of [load], and the statement finds nothing to drop. *)
Lemma post_load_hook_staging (self : PostgresDestination) (result : LoadResult)
    (name : string) (w w1 : World) (out : Outcome unit) :
  staging_table_name self = Some name -> use_temp_table self = false ->
  db w !! ("public", name) = None ->
  post_load_hook self result w = (out, w1) ->
  out = Returns tt /\ db w1 = db w.
Proof.
  intros Hsn Hut Habsent Hrun. unfold post_load_hook in Hrun.
  rewrite Hsn, Hut in Hrun. cbn [falsy_str negb when fmt_name andb] in Hrun.
  destruct (negb (String.eqb name "")).
  - destruct (try_pass_returns (hook_run [DropTableIfExists (Bare name)]) w) as (w2 & Hret).
    pose proof Hret as Hdb. apply try_pass_db in Hdb.
    + erewrite bind_eq in Hrun by exact Hret. injection Hrun as <- <-. auto.
    + intros o w3 Hdrop. apply hook_run_keeps_db in Hdrop; [exact Hdrop|discriminate..|].
      intros st' a. now apply (drop_absent_bare_keeps_perm _ {| perm := _; temp := _ |}).
  - cbn in Hrun. now injection Hrun as <- <-.
Qed.

Lemma staging_name_differs (t x : string) : t +:+ "_staging_" +:+ x <> t.
Proof.
  intros Heq. apply (f_equal String.length) in Heq.
  rewrite !string_length_app in Heq. cbn in Heq. lia.
Qed.

(** [load_data] in historize mode, nothing failing: the steps in a row. *)
Lemma historize_load_run (cfg : Config) (self : PostgresDestination)
    (data : list record) (w : World) (tgt : list Row) (first : record)
    (rest : list record) :
  DestinationFactory.create cfg w = (Returns self, w) ->
  (forall k, faults w k = false) ->
  write_mode self = "historize" ->
  data = first :: rest ->
  List.filter (fun col => negb (startswith_underscore col)) (keys first) <> [] ->
  db w !! (schema self, table_name self) = Some (HistRel tgt)
  \/ (db w !! (schema self, table_name self) = None /\ tgt = []
      /\ create_table self = true /\ historization_enabled self = true) ->
  db w !! ("public", table_name self +:+ "_staging_" +:+ pretty (clock w (ticks w))) = None ->
  let ts := clock w (ticks w + 3 + length data)%nat in
  let cols := List.filter (fun col => negb (startswith_underscore col)) (keys first) in
  exists result w' enriched,
    load_data cfg data w = (Returns result, w')
    /\ enriched_batch self (clock w (ticks w + 2)%nat) (clock w) (ticks w + 3)%nat
         data enriched
    /\ status result = "success" /\ rows_loaded result = length data
    /\ historization_stats result
       = Some (merge_stats ts (track_deletes self) cols (staged_rows enriched) tgt)
    /\ db w' = <[(schema self, table_name self) :=
                   HistRel (merge_rows ts (track_deletes self) cols (staged_rows enriched)
                              tgt)]> (db w).
Proof.
  intros Hcreate Hnf Hmode Hdata Hcols Htarget Hstaging. cbv zeta.
  pose proof (create_returns _ _ _ _ Hcreate) as Hinit.
  destruct (init_facts _ _ _ _ Hinit) as (_ & _ & _ & _ & _ & _ & _ & _ & Htn & Hsn & Hut).
  set (name := table_name self +:+ "_staging_" +:+ pretty (clock w (ticks w))) in *.
  destruct (pre_load_hook_historize self data w tgt Hnf Hmode) as
    (w1 & Hpre & Hdb1 & Hf1 & Hc1 & Ht1); [rewrite Hdata; discriminate|exact Htarget|].
  fold name in Hpre.
  set (self' := set_staging_table_name self name) in *.
  destruct (load_historize_ok self' data w1 tgt name first rest)
    as (result & w2 & enriched & Hload & Hall & Hstatus & Hrows & Hstats & Hdb2 & Hnf2).
  { intros k. rewrite Hf1. apply Hnf. }
  { exact Hmode. }
  { reflexivity. }
  { exact Hdata. }
  { exact Hcols. }
  { rewrite Hdb1. apply lookup_insert_eq. }
  cbv zeta in Hstats, Hdb2.
  cbn [schema table_name track_deletes self' set_staging_table_name] in Hstats, Hdb2.
  rewrite Hc1, Ht1 in Hstats, Hdb2, Hall.
  replace (S (ticks w) + 2 + length data)%nat with (ticks w + 3 + length data)%nat
    in Hstats, Hdb2 by lia.
  replace (S (S (ticks w))) with (ticks w + 2)%nat in Hall by lia.
  replace (S (ticks w + 2)) with (ticks w + 3)%nat in Hall by lia.
  rewrite Hdb1, insert_insert_eq in Hdb2.
  destruct (post_load_hook self' result w2) as [out w3] eqn:Hpost.
  pose proof Hpost as Hpost0.
  apply (post_load_hook_staging self' result name) in Hpost0 as [-> Hdb3];
    [|reflexivity|exact Hut|].
  2:{ rewrite Hdb2. rewrite lookup_insert_ne; [exact Hstaging|].
      intros [= _ Heq]. symmetry in Heq. now apply staging_name_differs in Heq. }
  exists result, w3, enriched.
  split; [|split; [exact Hall|split; [exact Hstatus|split; [exact Hrows|split;
            [exact Hstats|congruence]]]]].
  unfold load_data. erewrite bind_eq by exact Hcreate.
  erewrite bind_eq by exact Hpre. erewrite bind_eq by exact Hload.
  erewrite bind_eq by exact Hpost. reflexivity.
Qed.

End Historize.


(** ** What never raises *)

Lemma for_each_try_pass_returns {A} (f : A -> M unit) (l : list A) (w : World) :
  exists w', for_each_ (fun x => try_pass (f x)) l w = (Returns tt, w').
Proof.
  revert w. induction l as [|x l IH]; intros w; [eexists; reflexivity|].
  cbn [for_each_]. destruct (try_pass_returns (f x) w) as (w1 & H1).
  destruct (IH w1) as (w2 & H2). exists w2.
  erewrite bind_eq by exact H1. exact H2.
Qed.

Lemma create_indexes_returns (self : PostgresDestination) (name : string) (w : World) :
  exists w', _create_indexes self name w = (Returns tt, w').
Proof. unfold _create_indexes. apply for_each_try_pass_returns. Qed.

Lemma post_load_hook_returns (self : PostgresDestination) (result : LoadResult) (w : World) :
  exists w', post_load_hook self result w = (Returns tt, w').
Proof.
  unfold post_load_hook.
  assert (Hwhen : forall b m w0, exists w1, when b (try_pass m) w0 = (Returns tt, w1)).
  { intros [|] m w0; [apply try_pass_returns|eexists; reflexivity]. }
  destruct (Hwhen (negb (falsy_str (staging_table_name self)))
              (hook_run [DropTableIfExists (Bare (fmt_name (staging_table_name self)))]) w)
    as (w1 & H1).
  erewrite bind_eq by exact H1. apply Hwhen.
Qed.

(** Neither the creation of the indexes nor the cleanup after a load ever
    raises: a failure of any of their statements is caught and the next
    statement is tried. *)
Theorem index_and_cleanup_failures_are_swallowed (self : PostgresDestination)
    (name : string) (result : LoadResult) (w : World) :
  (exists w', _create_indexes self name w = (Returns tt, w'))
  /\ (exists w', post_load_hook self result w = (Returns tt, w')).
Proof. split; [apply create_indexes_returns|apply post_load_hook_returns]. Qed.

(** [load_data] raises only out of the factory, which looks the type up
    and constructs the destination, or out of [pre_load_hook]: once
    [pre_load_hook] has returned, every failure comes back as a result. *)
Theorem load_data_raises_only_before_load (cfg : Config) (data : list record)
    (w w' : World) (e : Exn) :
  load_data cfg data w = (Raises e, w') ->
  DestinationFactory.create cfg w = (Raises e, w')
  \/ exists self, DestinationFactory.create cfg w = (Returns self, w)
                  /\ pre_load_hook self data w = (Raises e, w').
Proof.
  intros Hrun. unfold load_data in Hrun.
  apply bind_cases in Hrun as [(self & w1 & Hcreate & Hrun)|(e' & Hcreate & [= <-])];
    [|now left].
  right. exists self.
  destruct (init_facts _ _ _ _ (create_returns _ _ _ _ Hcreate)) as (-> & _).
  split; [exact Hcreate|].
  apply bind_cases in Hrun as [(self' & w2 & Hpre & Hrun)|(e' & Hpre & [= <-])];
    [|exact Hpre].
  exfalso.
  destruct (load_never_raises self' data None w2) as (result & w3 & Hload).
  erewrite bind_eq in Hrun by exact Hload.
  destruct (post_load_hook_returns self' result w3) as (w4 & Hpost).
  erewrite bind_eq in Hrun by exact Hpost. discriminate Hrun.
Qed.

(** ** The current view after a merge *)

(** After a merge with delete tracking into a target built by merges from
    the empty table, an identity of the batch has exactly one current row
    and any other identity has none. *)
Theorem current_view_after_tracked_merge (ts : timestamp) (cols : list string)
    (staging target : list Row) (id : string) :
  reachable target ->
  NoDup (map _id_hash staging) ->
  let merged := merge_rows ts true cols staging target in
  (staged_id staging id -> length (current_rows id merged) = 1%nat)
  /\ (~ staged_id staging id -> length (current_rows id merged) = 0%nat).
Proof.
  intros Hreach Hnd. cbv zeta. split.
  - intros Hid. unfold staged_id in Hid. apply in_map_iff in Hid as (s & <- & Hs).
    assert (Hle : (length (current_rows (_id_hash s)
                             (merge_rows ts true cols staging target)) <= 1)%nat).
    { apply at_most_one_open_current, merge_rows_open; [exact Hnd|].
      now apply reachable_open. }
    destruct (staged_row_is_current ts true cols staging target s Hs)
      as (t & Hin & Hcur & Hi & _).
    assert (Hmem : In t (current_rows (_id_hash s) (merge_rows ts true cols staging target))).
    { unfold current_rows. apply filter_In. split; [exact Hin|].
      rewrite Hcur, Hi, String.eqb_refl. reflexivity. }
    destruct (current_rows _ _); [contradiction|]. cbn [length] in *. lia.
  - intros Hnot. unfold current_rows. rewrite filter_none; [reflexivity|].
    intros t Hin. apply not_true_iff_false. intros Hsel.
    apply andb_prop in Hsel as [Hcur Hi]. apply String.eqb_eq in Hi. subst id.
    destruct (current_row_is_staged ts true cols staging target t Hin Hcur (or_introl eq_refl))
      as (s & Hs & Heq & _).
    apply Hnot. unfold staged_id. rewrite <- Heq. now apply in_map.
Qed.

(** ** Loading a batch again *)

Section Reload.

Lemma existsb_same_keys (g : string -> string -> bool) (l2 l1 : list Row) :
  map row_key l2 = map row_key l1 ->
  existsb (fun s => g (_id_hash s) (_record_hash s)) l2
  = existsb (fun s => g (_id_hash s) (_record_hash s)) l1.
Proof.
  revert l1. induction l2 as [|s2 l2 IH]; intros [|s1 l1] Hkeys; try discriminate.
  - reflexivity.
  - cbn [map] in Hkeys. unfold row_key at 1 3 in Hkeys.
    injection Hkeys as Hi Hh Hrest. cbn [existsb]. rewrite Hi, Hh. f_equal. now apply IH.
Qed.

Lemma where_same_keys (staging1 staging2 : list Row) (t : Row) :
  map row_key staging2 = map row_key staging1 ->
  restore_where staging2 t = restore_where staging1 t
  /\ supersede_where staging2 t = supersede_where staging1 t
  /\ delete_where staging2 t = delete_where staging1 t.
Proof.
  intros Hkeys.
  assert (Hid : exists_id staging2 t = exists_id staging1 t).
  { exact (existsb_same_keys (fun i _ => String.eqb i (_id_hash t)) _ _ Hkeys). }
  unfold restore_where, supersede_where, delete_where. rewrite Hid.
  now rewrite (existsb_same_keys
                 (fun i h => String.eqb i (_id_hash t) && negb (String.eqb h (_record_hash t)))
                 _ _ Hkeys).
Qed.

Variables (ts1 ts2 : timestamp) (track : bool) (cols1 cols2 : list string).
Variables (staging1 staging2 target merged : list Row).
Hypothesis Hdistinct : NoDup (map _id_hash staging1).
Hypothesis Hkeys : map row_key staging2 = map row_key staging1.
Hypothesis Hmerged : merged = merge_rows ts1 track cols1 staging1 target.

Lemma reload_settled (t : Row) :
  In t merged ->
  restore_where staging2 t = false /\ supersede_where staging2 t = false
  /\ (track = true -> delete_where staging2 t = false).
Proof.
  rewrite Hmerged. intros Ht.
  destruct (where_same_keys staging1 staging2 t Hkeys) as (-> & -> & ->).
  now apply (merged_target_is_settled ts1 track cols1 staging1 target).
Qed.

Lemma reload_inserts_nothing : List.filter (insert_where merged) staging2 = [].
Proof.
  apply filter_none. intros s2 Hs2.
  assert (Hk : In (row_key s2) (map row_key staging1)).
  { rewrite <- Hkeys. now apply in_map. }
  apply in_map_iff in Hk as (s1 & Hk & Hs1).
  unfold row_key in Hk. injection Hk as Hi Hh.
  unfold insert_where. apply negb_false_iff, existsb_exists.
  destruct (staged_row_is_current ts1 track cols1 staging1 target s1 Hs1)
    as (t & Ht & Hcur & Hti & Hth).
  exists t. split; [now rewrite Hmerged|]. unfold is_current in Hcur.
  apply andb_prop in Hcur as [Hv Hdl].
  rewrite Hv, Hdl, Hti, Hth, Hi, Hh, !String.eqb_refl. reflexivity.
Qed.

Lemma reload_rows : merge_rows ts2 track cols2 staging2 merged = merged.
Proof.
  assert (Hrow : forall b t, In t merged ->
            (b = true -> track = true) -> merged_row ts2 b staging2 t = t).
  { intros b t Ht Hb. destruct (reload_settled t Ht) as (Hr & Hs & Hd).
    unfold merged_row. rewrite Hr, Hs. destruct b; [|reflexivity].
    now rewrite (Hd (Hb eq_refl)). }
  rewrite merge_rows_shape.
  rewrite (map_ext_in _ id merged) by (intros t Ht; apply Hrow; auto).
  rewrite List.map_id. unfold inserted_rows.
  rewrite (map_ext_in _ id merged) by (intros t Ht; apply Hrow; [auto|discriminate]).
  rewrite List.map_id, reload_inserts_nothing. apply app_nil_r.
Qed.

Lemma reload_stats :
  merge_stats ts2 track cols2 staging2 merged
  = {| restored := 0; superseded := 0; inserted := 0; deleted := 0 |}.
Proof.
  assert (H1 : restore_phase ts2 staging2 merged = merged).
  { unfold restore_phase, sql_update. cbn [fst]. apply map_id_when.
    intros t Ht. now apply reload_settled. }
  assert (H2 : supersede_phase ts2 staging2 merged = merged).
  { unfold supersede_phase, sql_update. cbn [fst]. apply map_id_when.
    intros t Ht. now apply reload_settled. }
  unfold merge_stats. cbv zeta. rewrite H1, H2.
  unfold insert_phase, sql_insert_select. cbn [fst].
  rewrite reload_inserts_nothing. cbn [map]. rewrite app_nil_r.
  rewrite (filter_none (restore_where staging2) merged)
    by (intros t Ht; now apply reload_settled).
  rewrite (filter_none (supersede_where staging2) merged)
    by (intros t Ht; now apply reload_settled).
  assert (Hdel : track = true -> List.filter (delete_where staging2) merged = []).
  { intros Htrack. apply filter_none. intros t Ht. now apply reload_settled. }
  destruct track; [|reflexivity]. now rewrite (Hdel eq_refl).
Qed.

End Reload.

(** Merging a batch again changes nothing: when a second batch holds, row
    for row, the identities and contents of the batch merged before, and
    these identities are pairwise distinct, the second merge leaves every
    row of the target as it is, adds none, and reports zero restored,
    superseded, inserted and deleted rows. *)
Theorem merge_of_unchanged_batch_changes_nothing (ts1 ts2 : timestamp) (track : bool)
    (cols1 cols2 : list string) (staging1 staging2 target : list Row) :
  NoDup (map _id_hash staging1) ->
  map row_key staging2 = map row_key staging1 ->
  let merged := merge_rows ts1 track cols1 staging1 target in
  merge_rows ts2 track cols2 staging2 merged = merged
  /\ merge_stats ts2 track cols2 staging2 merged
     = {| restored := 0; superseded := 0; inserted := 0; deleted := 0 |}.
Proof.
  intros Hnd Hkeys. cbv zeta. split.
  - now apply (reload_rows ts1 ts2 track cols1 cols2 staging1 staging2 target).
  - now apply (reload_stats ts1 ts2 track cols1 cols2 staging1 staging2 target).
Qed.

Lemma hashed_row_keys (self : PostgresDestination) (data : list record)
    (staged : list Row) :
  Forall2 (hashed_from self) data staged ->
  map row_key staged
  = map (fun r => (_calculate_id_hash (hash_algorithm self) (id_columns self) r,
                   _calculate_record_hash (hash_algorithm self) r)) data.
Proof.
  induction 1 as [|r row data staged (Hi & Hh) _ IH]; [reflexivity|].
  cbn [map]. unfold row_key at 1. now rewrite Hi, Hh, IH.
Qed.

(** Loading again the batch the target was merged from changes nothing:
    when the target holds the merge of rows that carry, record by record,
    the hashes of [data], whose identities are pairwise distinct, a whole
    historize load of [data] in which no external call fails reports
    success, zero restored, superseded, inserted and deleted rows, and
    leaves the database as it was. *)
Theorem historize_reload_changes_nothing (cfg : Config) (self : PostgresDestination)
    (data : list record) (w : World) (first : record) (rest : list record)
    (ts0 : timestamp) (cols0 : list string) (staged0 tgt0 : list Row) :
  DestinationFactory.create cfg w = (Returns self, w) ->
  (forall k, faults w k = false) ->
  write_mode self = "historize" ->
  data = first :: rest ->
  List.filter (fun col => negb (startswith_underscore col)) (keys first) <> [] ->
  NoDup (map (_calculate_id_hash (hash_algorithm self) (id_columns self)) data) ->
  Forall2 (hashed_from self) data staged0 ->
  db w !! (schema self, table_name self)
  = Some (HistRel (merge_rows ts0 (track_deletes self) cols0 staged0 tgt0)) ->
  db w !! ("public", table_name self +:+ "_staging_" +:+ pretty (clock w (ticks w))) = None ->
  exists result w',
    load_data cfg data w = (Returns result, w')
    /\ status result = "success"
    /\ historization_stats result
       = Some {| restored := 0; superseded := 0; inserted := 0; deleted := 0 |}
    /\ db w' = db w.
Proof.
  intros Hcreate Hnf Hmode Hdata Hcols Hdistinct Hstaged0 Htarget Hstaging.
  destruct (historize_load_run cfg self data w _ first rest Hcreate Hnf Hmode Hdata Hcols
              (or_introl Htarget) Hstaging)
    as (result & w' & enriched & Hrun & Hall & Hstatus & _ & Hstats & Hdb).
  cbv zeta in Hstats, Hdb.
  apply enriched_batch_hashed, staged_rows_hashed in Hall.
  assert (Hkeys : map row_key (staged_rows enriched) = map row_key staged0).
  { now rewrite (hashed_row_keys self data _ Hall), (hashed_row_keys self data staged0). }
  assert (Hnd : NoDup (map _id_hash staged0)).
  { replace (map _id_hash staged0) with (map fst (map row_key staged0))
      by (rewrite List.map_map; reflexivity).
    rewrite (hashed_row_keys self data staged0 Hstaged0), List.map_map. exact Hdistinct. }
  exists result, w'. split; [exact Hrun|]. split; [exact Hstatus|].
  rewrite Hstats, Hdb.
  rewrite (reload_stats ts0 _ _ cols0 _ staged0 _ tgt0 _ Hnd Hkeys eq_refl).
  rewrite (reload_rows ts0 _ _ cols0 _ staged0 _ tgt0 _ Hnd Hkeys eq_refl).
  split; [reflexivity|]. now apply insert_id.
Qed.

(** ** ValidateDuplicateIdsTransform *)

Section DuplicateIds.
Import ValidateDuplicateIds.

Lemma Counter_fold (l : list (list string)) (m : gmap (list string) nat) (x : list string) :
  default O (fold_left (fun counts y => <[y := S (default O (counts !! y))]> counts) l m !! x)
  = (default O (m !! x) + occurrences x l)%nat.
Proof.
  revert m. induction l as [|y l IH]; intros m.
  - cbn. lia.
  - cbn [fold_left]. rewrite IH. unfold occurrences. cbn [count_occ].
    destruct (decide (y = x)) as [->|Hne].
    + rewrite lookup_insert_eq. cbn. lia.
    + rewrite lookup_insert_ne by exact Hne. lia.
Qed.

Lemma Counter_lookup (l : list (list string)) (x : list string) :
  default O (Counter l !! x) = occurrences x l.
Proof. unfold Counter. rewrite Counter_fold. now rewrite lookup_empty. Qed.

Lemma NoDup_occurrences (l : list (list string)) :
  NoDup l <-> forall x, (occurrences x l <= 1)%nat.
Proof. rewrite NoDup_ListNoDup. apply NoDup_count_occ. Qed.

Lemma not_NoDup_occurrences (l : list (list string)) :
  ~ NoDup l <-> exists x, (1 < occurrences x l)%nat.
Proof.
  split.
  - intros Hnd. induction l as [|y l IH].
    + exfalso. apply Hnd. constructor.
    + destruct (decide (y ∈ l)) as [Hin|Hnin].
      * exists y. unfold occurrences. cbn [count_occ]. rewrite decide_True by reflexivity.
        apply list_elem_of_In in Hin.
        apply (count_occ_In (fun a b => decide (a = b))) in Hin. lia.
      * destruct IH as (x & Hx).
        { intros Hl. apply Hnd. now constructor. }
        exists x. unfold occurrences in *. cbn [count_occ]. destruct (decide (y = x)); lia.
  - intros (x & Hx) Hnd. apply NoDup_occurrences with (x := x) in Hnd. lia.
Qed.

Lemma duplicate_ids_spec self data x :
  x ∈ duplicate_ids (_find_duplicates self data)
  <-> (1 < occurrences x (map (id_tuple (id_columns self)) data))%nat.
Proof.
  cbn [_find_duplicates duplicate_ids]. rewrite elem_of_dom.
  rewrite <- Counter_lookup. unfold is_Some. split.
  - intros (n & Hn). apply map_lookup_filter_Some in Hn as [Hn Hgt]. now rewrite Hn.
  - intros Hgt. destruct (Counter _ !! x) as [n|] eqn:Hn; [|cbn in Hgt; lia].
    exists n. apply map_lookup_filter_Some. split; [exact Hn|exact Hgt].
Qed.

Lemma deduplicate_loop_result self rows seen result :
  _deduplicate_loop self rows seen result
  = result ++ first_occurrences (id_columns self) seen rows.
Proof.
  revert seen result. induction rows as [|row rows IH]; intros seen result.
  - cbn. now rewrite app_nil_r.
  - cbn [_deduplicate_loop first_occurrences].
    destruct (bool_decide _); rewrite IH; [|reflexivity].
    now rewrite <- app_assoc.
Qed.

Lemma first_occurrences_sublist ids seen rows :
  sublist (first_occurrences ids seen rows) rows.
Proof.
  revert seen. induction rows as [|row rows IH]; intros seen; [constructor|].
  cbn [first_occurrences]. destruct (bool_decide _).
  - apply sublist_skip, IH.
  - apply sublist_cons, IH.
Qed.

Lemma first_occurrences_ids ids seen rows x :
  x ∈ map (id_tuple ids) (first_occurrences ids seen rows)
  <-> x ∈ map (id_tuple ids) rows /\ x ∉ seen.
Proof.
  revert seen. induction rows as [|row rows IH]; intros seen.
  - cbn. rewrite elem_of_nil. tauto.
  - cbn [first_occurrences map]. destruct (bool_decide _) eqn:Hd.
    + apply bool_decide_eq_true in Hd. cbn [map].
      rewrite !elem_of_cons, IH, not_elem_of_union, not_elem_of_singleton.
      destruct (decide (x = id_tuple ids row)) as [->|Hne]; tauto.
    + apply bool_decide_eq_false in Hd. rewrite elem_of_cons, IH.
      assert (id_tuple ids row ∈ seen) by (destruct (decide (id_tuple ids row ∈ seen)); tauto).
      destruct (decide (x = id_tuple ids row)) as [->|Hne]; tauto.
Qed.

Lemma first_occurrences_NoDup ids seen rows :
  NoDup (map (id_tuple ids) (first_occurrences ids seen rows)).
Proof.
  revert seen. induction rows as [|row rows IH]; intros seen; [constructor|].
  cbn [first_occurrences]. destruct (bool_decide _); [|apply IH].
  cbn [map]. constructor; [|apply IH].
  rewrite first_occurrences_ids, not_elem_of_union, not_elem_of_singleton. tauto.
Qed.

Lemma first_occurrences_first ids seen rows x :
  x ∉ seen ->
  first_with ids x (first_occurrences ids seen rows) = first_with ids x rows.
Proof.
  revert seen. induction rows as [|row rows IH]; intros seen Hx; [reflexivity|].
  unfold first_with in *. cbn [first_occurrences List.find].
  destruct (bool_decide (id_tuple ids row ∉ seen)) eqn:Hd.
  - cbn [List.find]. destruct (bool_decide (id_tuple ids row = x)) eqn:He; [reflexivity|].
    apply IH. apply bool_decide_eq_false in He.
    rewrite not_elem_of_union, not_elem_of_singleton. split; congruence.
  - apply bool_decide_eq_false in Hd.
    destruct (bool_decide (id_tuple ids row = x)) eqn:He.
    + apply bool_decide_eq_true in He. subst x. contradiction.
    + now apply IH.
Qed.

Lemma first_occurrences_distinct ids seen rows :
  NoDup (map (id_tuple ids) rows) ->
  (forall row, In row rows -> id_tuple ids row ∉ seen) ->
  first_occurrences ids seen rows = rows.
Proof.
  revert seen. induction rows as [|row rows IH]; intros seen Hnd Hseen; [reflexivity|].
  cbn [first_occurrences]. cbn [map] in Hnd.
  rewrite bool_decide_eq_true_2 by (apply Hseen; now left).
  f_equal. apply IH; [now apply NoDup_cons_1_2 in Hnd|].
  intros r Hr. apply NoDup_cons_1_1 in Hnd.
  assert (id_tuple ids r <> id_tuple ids row).
  { intros Heq. apply Hnd. rewrite <- Heq. apply list_elem_of_In. now apply in_map. }
  specialize (Hseen r (or_intror Hr)).
  rewrite not_elem_of_union, not_elem_of_singleton. tauto.
Qed.

Lemma sublist_rev {A} (k l : list A) : sublist k l -> sublist (rev k) (rev l).
Proof.
  induction 1 as [|x k l _ IH|x k l _ IH]; cbn [rev].
  - constructor.
  - apply sublist_app; [exact IH|reflexivity].
  - apply sublist_inserts_r, IH.
Qed.

Lemma NoDup_rev {A} (l : list A) : NoDup l -> NoDup (rev l).
Proof. intros Hnd. now rewrite <- Permutation_rev. Qed.

Lemma elem_of_rev {A} (x : A) (l : list A) : x ∈ rev l <-> x ∈ l.
Proof. now rewrite <- Permutation_rev. Qed.

(** [_deduplicate] in terms of the rows kept. *)
Lemma deduplicate_unfold self data dups :
  _deduplicate self data dups
  = let kept := first_occurrences (id_columns self) ∅
                  (if String.eqb (keep self) "first" then data else rev data) in
    if String.eqb (keep self) "last" then rev kept else kept.
Proof. unfold _deduplicate. now rewrite deduplicate_loop_result. Qed.

Lemma has_duplicates_NoDup self data :
  has_duplicates (_find_duplicates self data) = true
  <-> ~ NoDup (map (id_tuple (id_columns self)) data).
Proof.
  rewrite not_NoDup_occurrences. cbn [_find_duplicates has_duplicates].
  rewrite bool_decide_eq_true. split.
  - intros Hsize.
    destruct (set_choose_L (duplicate_ids (_find_duplicates self data))) as (x & Hx).
    { intros Hempty. cbn [_find_duplicates duplicate_ids] in Hempty.
      rewrite Hempty, size_empty in Hsize. lia. }
    exists x. now apply duplicate_ids_spec.
  - intros (x & Hx). apply duplicate_ids_spec in Hx.
    cbn [_find_duplicates duplicate_ids] in Hx.
    destruct (decide (size (dom (filter (fun kv => (1 < snd kv)%nat)
                (Counter (map (id_tuple (id_columns self)) data)))) = 0)%nat) as [Hz|Hnz];
      [|lia].
    apply size_empty_iff in Hz. rewrite Hz in Hx. now apply not_elem_of_empty in Hx.
Qed.

Lemma deduplicate_NoDup self data dups :
  NoDup (map (id_tuple (id_columns self)) (_deduplicate self data dups)).
Proof.
  rewrite deduplicate_unfold. cbv zeta.
  destruct (String.eqb (keep self) "last").
  - rewrite map_rev. apply NoDup_rev, first_occurrences_NoDup.
  - apply first_occurrences_NoDup.
Qed.

(** [_find_duplicates] reports as duplicate exactly the identifying tuples
    that occur more than once in the batch, and says that there are
    duplicates exactly when the tuples of the rows are not pairwise distinct. *)
Theorem find_duplicates_reports_repeated_tuples (self : ValidateDuplicateIdsTransform)
    (data : list record) :
  let info := _find_duplicates self data in
  let id_tuples := map (id_tuple (id_columns self)) data in
  (forall x, x ∈ duplicate_ids info <-> (1 < occurrences x id_tuples)%nat)
  /\ duplicate_count info = size (duplicate_ids info)
  /\ (has_duplicates info = true <-> ~ NoDup id_tuples).
Proof.
  cbv zeta. split; [intros x; apply duplicate_ids_spec|].
  split; [reflexivity|apply has_duplicates_NoDup].
Qed.

(** What [_deduplicate] returns has pairwise distinct identifying tuples
    and holds the same identifying tuples as the batch; with [keep] set to
    [first] or [last] it is the batch with rows left out, in the order of
    the batch. *)
Theorem deduplicate_leaves_one_row_per_id (self : ValidateDuplicateIdsTransform)
    (data : list record) (dups : gset (list string)) :
  let result := _deduplicate self data dups in
  NoDup (map (id_tuple (id_columns self)) result)
  /\ (forall x, x ∈ map (id_tuple (id_columns self)) result
                <-> x ∈ map (id_tuple (id_columns self)) data)
  /\ (keep self = "first" \/ keep self = "last" -> sublist result data).
Proof.
  cbv zeta. split; [apply deduplicate_NoDup|].
  rewrite deduplicate_unfold. cbv zeta.
  set (ids := id_columns self).
  destruct (String.eqb (keep self) "first") eqn:Hf;
    destruct (String.eqb (keep self) "last") eqn:Hl.
  - apply String.eqb_eq in Hf, Hl. congruence.
  - split.
    + intros x. rewrite first_occurrences_ids. rewrite elem_of_empty. tauto.
    + intros _. apply first_occurrences_sublist.
  - split.
    + intros x. rewrite map_rev, elem_of_rev, first_occurrences_ids, map_rev, elem_of_rev.
      rewrite elem_of_empty. tauto.
    + intros _. rewrite <- (rev_involutive data) at 2.
      apply sublist_rev, first_occurrences_sublist.
  - split.
    + intros x. rewrite first_occurrences_ids, map_rev, elem_of_rev.
      rewrite elem_of_empty. tauto.
    + apply String.eqb_neq in Hf, Hl. tauto.
Qed.

(** Which row [_deduplicate] keeps for an identifying tuple: with [keep]
    set to [first] the first row of the batch that has it, with [last] the
    last one. *)
Theorem deduplicate_keeps_first_or_last (self : ValidateDuplicateIdsTransform)
    (data : list record) (dups : gset (list string)) (x : list string) :
  let ids := id_columns self in
  let result := _deduplicate self data dups in
  (keep self = "first" -> first_with ids x result = first_with ids x data)
  /\ (keep self = "last" -> first_with ids x (rev result) = first_with ids x (rev data)).
Proof.
  cbv zeta. rewrite deduplicate_unfold. cbv zeta. split; intros Hk; rewrite Hk.
  - cbn. apply first_occurrences_first. apply not_elem_of_empty.
  - cbn. rewrite rev_involutive. apply first_occurrences_first. apply not_elem_of_empty.
Qed.

(** On a batch whose identifying tuples are pairwise distinct
    [_deduplicate] returns the batch. *)
Theorem deduplicate_keeps_a_distinct_batch (self : ValidateDuplicateIdsTransform)
    (data : list record) (dups : gset (list string)) :
  keep self = "first" \/ keep self = "last" ->
  NoDup (map (id_tuple (id_columns self)) data) ->
  _deduplicate self data dups = data.
Proof.
  intros Hk Hnd. rewrite deduplicate_unfold. cbv zeta.
  destruct Hk as [Hk|Hk]; rewrite Hk; cbn.
  - apply first_occurrences_distinct; [exact Hnd|]. intros. apply not_elem_of_empty.
  - rewrite first_occurrences_distinct; [apply rev_involutive| |].
    + rewrite map_rev. now apply NoDup_rev.
    + intros. apply not_elem_of_empty.
Qed.

(** A batch that [transform] returns under the action [fail] or
    [deduplicate] has pairwise distinct identifying tuples; under [fail] it
    is the batch that was given. *)
Theorem transform_returns_distinct_ids (self : ValidateDuplicateIdsTransform)
    (data out : list record) :
  action self = "fail" \/ action self = "deduplicate" ->
  transform self data = Returns out ->
  NoDup (map (id_tuple (id_columns self)) out)
  /\ (action self = "fail" -> out = data).
Proof.
  intros Hact Hrun. unfold transform in Hrun.
  destruct data as [|first rest].
  { injection Hrun as <-. split; [constructor|reflexivity]. }
  destruct (List.filter _ (id_columns self)); [|discriminate Hrun].
  destruct (has_duplicates (_find_duplicates self (first :: rest))) eqn:Hd.
  - destruct Hact as [Hact|Hact]; rewrite Hact in Hrun; cbn in Hrun; [discriminate|].
    injection Hrun as <-. split; [|rewrite Hact; discriminate].
    apply deduplicate_NoDup.
  - assert (out = first :: rest) as ->.
    { repeat match type of Hrun with
             | (if ?c then _ else _) = _ => destruct c
             end; congruence. }
    split; [|reflexivity].
    destruct (decide (NoDup (map (id_tuple (id_columns self)) (first :: rest))))
      as [Hnd|Hnd]; [exact Hnd|].
    apply has_duplicates_NoDup in Hnd. congruence.
Qed.

(** [transform] raises exactly when the batch is not empty and either its
    first row lacks an identifying column or, under the action [fail], two
    rows have the same identifying tuple. Only the first row is looked at
    for the columns: a later row that lacks one counts as holding the empty
    string. *)
Theorem transform_raises_exactly_when (self : ValidateDuplicateIdsTransform)
    (data : list record) :
  (exists e, transform self data = Raises e)
  <-> exists first rest,
        data = first :: rest
        /\ ((exists col, In col (id_columns self) /\ ~ In col (keys first))
            \/ (action self = "fail"
                /\ ~ NoDup (map (id_tuple (id_columns self)) data))).
Proof.
  unfold transform. destruct data as [|first rest].
  { split; [intros (e & He); discriminate He|intros (? & ? & Hd & _); discriminate Hd]. }
  pose proof (has_duplicates_NoDup self (first :: rest)) as Hdup.
  set (missing := List.filter (fun col => negb (bool_decide (col ∈ keys first)))
                    (id_columns self)).
  assert (Hmissing : (exists col, In col (id_columns self) /\ ~ In col (keys first))
                     <-> missing <> []).
  { subst missing. split.
    - intros (col & Hin & Hnot) Hnil.
      assert (Hf : In col (List.filter (fun col => negb (bool_decide (col ∈ keys first)))
                             (id_columns self))).
      { apply filter_In. split; [exact Hin|]. apply negb_true_iff, bool_decide_eq_false.
        now rewrite list_elem_of_In. }
      rewrite Hnil in Hf. contradiction.
    - intros Hne. destruct (List.filter _ _) as [|col l] eqn:Hf; [congruence|].
      assert (Hin : In col (col :: l)) by now left.
      rewrite <- Hf in Hin. apply filter_In in Hin as [Hin Hnot].
      exists col. split; [exact Hin|].
      apply negb_true_iff, bool_decide_eq_false in Hnot. now rewrite <- list_elem_of_In. }
  split.
  - intros (e & He). exists first, rest. split; [reflexivity|].
    destruct missing as [|col l] eqn:Hm.
    + right. destruct (has_duplicates _); [|discriminate He].
      destruct (String.eqb_spec (action self) "fail") as [Hact|Hact];
        [split; [exact Hact|now apply Hdup]|].
      repeat match type of He with
             | (if ?c then _ else _) = _ => destruct c
             end; discriminate He.
    + left. apply Hmissing. discriminate.
  - intros (first' & rest' & [= <- <-] & [Hm|[Hact Hd]]).
    + apply Hmissing in Hm. destruct missing; [congruence|]. eauto.
    + destruct missing; [|eauto]. apply Hdup in Hd. rewrite Hd, Hact. cbn. eauto.
Qed.

End DuplicateIds.

(** ** The canonical strings on data without separators *)

Section Separators.

Lemma mentions_app (c : ascii) (a b : string) :
  mentions c (a +:+ b) = mentions c a || mentions c b.
Proof.
  induction a as [|x a IH]; [reflexivity|].
  rewrite string_app_cons. cbn [mentions]. now rewrite IH, orb_assoc.
Qed.

(** Two strings cut at the first occurrence of a character. *)
Lemma split_at_first (c : ascii) (a1 a2 rest1 rest2 : string) :
  mentions c a1 = false -> mentions c a2 = false ->
  a1 +:+ String c rest1 = a2 +:+ String c rest2 ->
  a1 = a2 /\ rest1 = rest2.
Proof.
  revert a2. induction a1 as [|x a1 IH]; intros [|y a2] H1 H2 Heq.
  - cbn in Heq. now inversion Heq.
  - rewrite string_app_cons in Heq. cbn in Heq. inversion Heq; subst.
    cbn in H2. now rewrite Ascii.eqb_refl in H2.
  - rewrite string_app_cons in Heq. cbn in Heq. inversion Heq; subst.
    cbn in H1. now rewrite Ascii.eqb_refl in H1.
  - rewrite !string_app_cons in Heq. inversion Heq; subst.
    cbn in H1, H2. apply orb_false_elim in H1 as [_ H1], H2 as [_ H2].
    destruct (IH a2 H1 H2) as [-> ->]; [assumption|]. now split.
Qed.

Lemma concat_cons2 (c : ascii) (a b : string) (l : list string) :
  String.concat (String c "") (a :: b :: l)
  = a +:+ String c (String.concat (String c "") (b :: l)).
Proof. reflexivity. Qed.

(** Joining parts that do not hold the separator loses nothing, except that
    no part and one empty part both give the empty string. *)
Lemma concat_separator_free (c : ascii) (l1 l2 : list string) :
  Forall (fun s => mentions c s = false) l1 ->
  Forall (fun s => mentions c s = false) l2 ->
  String.concat (String c "") l1 = String.concat (String c "") l2 ->
  l1 = l2 \/ (l1 = [] /\ l2 = [""]) \/ (l1 = [""] /\ l2 = []).
Proof.
  revert l2. induction l1 as [|a l1 IH]; intros l2 H1 H2 Heq.
  - destruct l2 as [|b [|b2 l2]]; [now left| |].
    + cbn in Heq. subst b. right. now left.
    + rewrite concat_cons2 in Heq. cbn [String.concat] in Heq.
      destruct b; discriminate Heq.
  - destruct l2 as [|b l2].
    + destruct l1 as [|a2 l1].
      * cbn in Heq. subst a. right. now right.
      * rewrite concat_cons2 in Heq. cbn [String.concat] in Heq.
        destruct a; discriminate Heq.
    + apply Forall_cons in H1 as [Ha H1], H2 as [Hb H2].
      destruct l1 as [|a2 l1], l2 as [|b2 l2].
      * cbn in Heq. subst. now left.
      * rewrite concat_cons2 in Heq.
        change (String.concat (String c "") [a]) with a in Heq. subst a.
        rewrite mentions_app in Ha. cbn [mentions] in Ha.
        rewrite Ascii.eqb_refl in Ha. cbn in Ha. rewrite orb_true_r in Ha. discriminate.
      * rewrite concat_cons2 in Heq.
        change (String.concat (String c "") [b]) with b in Heq. subst b.
        rewrite mentions_app in Hb. cbn [mentions] in Hb.
        rewrite Ascii.eqb_refl in Hb. cbn in Hb. rewrite orb_true_r in Hb. discriminate.
      * rewrite !concat_cons2 in Heq.
        apply split_at_first in Heq as [-> Heq]; [|assumption..].
        destruct (IH (b2 :: l2) H1 H2 Heq) as [->|[[? ?]|[? ?]]];
          [now left|discriminate..].
Qed.

Lemma id_values_length (cols : list string) (r : record) :
  length (id_values cols r) = length cols.
Proof. unfold id_values. apply length_map. Qed.

End Separators.

(** When no identifying value of two records holds the separator ["|"], the
    string hashed by [_calculate_id_hash] is the same for both only if their
    identifying values are the same: the duplicate check and the hashed
    string then tell the same rows apart. *)
Theorem id_str_injective_without_separator (cols : list string) (r1 r2 : record) :
  Forall (fun v => mentions "|" v = false) (id_values cols r1) ->
  Forall (fun v => mentions "|" v = false) (id_values cols r2) ->
  id_str cols r1 = id_str cols r2 ->
  id_tuple cols r1 = id_tuple cols r2.
Proof.
  intros H1 H2 Heq. change (id_values cols r1 = id_values cols r2).
  unfold id_str in Heq.
  destruct (concat_separator_free "|" _ _ H1 H2 Heq) as [Hsame|[[Ha Hb]|[Ha Hb]]];
    [exact Hsame| |].
  - apply (f_equal (@length string)) in Ha, Hb. rewrite id_values_length in Ha, Hb.
    cbn in Ha, Hb. congruence.
  - apply (f_equal (@length string)) in Ha, Hb. rewrite id_values_length in Ha, Hb.
    cbn in Ha, Hb. congruence.
Qed.

Section RecordStr.

Lemma In_dict_get (r : record) k v : wf_dict r -> In (k, v) r -> dict_get r k = Some v.
Proof.
  unfold wf_dict. induction r as [|[k' v'] r IH]; [contradiction|].
  cbn [map fst dict_get]. intros Hnd [Heq|Hin].
  - inversion Heq; subst. now rewrite String.eqb_refl.
  - destruct (String.eqb_spec k' k) as [->|Hne].
    + apply NoDup_cons_1_1 in Hnd. exfalso. apply Hnd.
      apply list_elem_of_In, in_map_iff. now exists (k, v).
    + apply IH; [now apply NoDup_cons_1_2 in Hnd|assumption].
Qed.

Lemma In_sorted_items (r : record) kv : In kv (sorted_items r) <-> In kv r.
Proof.
  unfold sorted_items. rewrite <- !list_elem_of_In.
  now rewrite merge_sort_Permutation.
Qed.

Lemma render_item_free (kv : string * value) :
  mentions "|" (fst kv) = false -> mentions "|" (str (snd kv)) = false ->
  mentions "|" (render_item kv) = false.
Proof.
  intros Hk Hv. unfold render_item. rewrite !mentions_app, Hk, Hv. reflexivity.
Qed.

Lemma render_item_inj (kv1 kv2 : string * value) :
  mentions ":" (fst kv1) = false -> mentions ":" (fst kv2) = false ->
  render_item kv1 = render_item kv2 ->
  fst kv1 = fst kv2 /\ str (snd kv1) = str (snd kv2).
Proof.
  intros H1 H2 Heq. unfold render_item in Heq.
  change (fst kv1 +:+ String ":" (str (snd kv1)) = fst kv2 +:+ String ":" (str (snd kv2)))
    in Heq.
  now apply split_at_first in Heq.
Qed.

Lemma rendered_items_inj (s1 s2 : list (string * value)) :
  Forall (fun kv => mentions ":" (fst kv) = false) s1 ->
  Forall (fun kv => mentions ":" (fst kv) = false) s2 ->
  map render_item s1 = map render_item s2 ->
  forall k v, In (k, v) s1 -> exists v', In (k, v') s2 /\ str v' = str v.
Proof.
  revert s2. induction s1 as [|kv1 s1 IH]; intros [|kv2 s2] H1 H2 Heq k v Hin;
    try discriminate Heq; [contradiction|].
  cbn [map] in Heq. injection Heq as Hhead Htail.
  apply Forall_cons in H1 as [Hk1 H1], H2 as [Hk2 H2].
  destruct Hin as [->|Hin].
  - apply render_item_inj in Hhead as [Hk Hv]; [|assumption..].
    cbn in Hk, Hv. destruct kv2 as [k2 v2]. cbn in Hk, Hv. subst k2.
    exists v2. split; [now left|now symmetry].
  - destruct (IH s2 H1 H2 Htail k v Hin) as (v' & Hin' & Hv').
    exists v'. split; [now right|assumption].
Qed.

Lemma free_sorted (P : string * value -> Prop) (r : record) :
  Forall P r -> Forall P (sorted_items r).
Proof.
  rewrite !Forall_forall. intros H kv Hin. apply H.
  apply list_elem_of_In, In_sorted_items, list_elem_of_In. exact Hin.
Qed.

Lemma rendered_lookup (r1 r2 : record) k v :
  wf_dict r2 ->
  Forall (fun kv => mentions ":" (fst kv) = false) (sorted_items r1) ->
  Forall (fun kv => mentions ":" (fst kv) = false) (sorted_items r2) ->
  map render_item (sorted_items r1) = map render_item (sorted_items r2) ->
  dict_get r1 k = Some v ->
  exists v', dict_get r2 k = Some v' /\ str v' = str v.
Proof.
  intros Hwf H1 H2 Heq Hget.
  apply dict_get_In, In_sorted_items in Hget.
  destruct (rendered_items_inj _ _ H1 H2 Heq k v Hget) as (v' & Hin & Hv).
  exists v'. split; [|exact Hv]. apply In_dict_get; [exact Hwf|].
  now apply In_sorted_items.
Qed.

Lemma record_str_rendered (r1 r2 : record) :
  free_of_separators r1 -> free_of_separators r2 ->
  record_str r1 = record_str r2 ->
  map render_item (sorted_items r1) = map render_item (sorted_items r2).
Proof.
  intros Hf1 Hf2 Heq. unfold record_str in Heq.
  assert (Hfree : forall r, free_of_separators r ->
            Forall (fun s => mentions "|" s = false) (map render_item (sorted_items r))).
  { intros r Hf. apply Forall_map. apply free_sorted.
    eapply Forall_impl; [exact Hf|]. intros kv (Hk & _ & Hv). now apply render_item_free. }
  assert (Hne : forall r, map render_item (sorted_items r) <> [""]).
  { intros r Hr. destruct (sorted_items r) as [|kv [|? ?]]; try discriminate Hr.
    cbn in Hr. injection Hr as Hr. unfold render_item in Hr.
    destruct (fst kv); discriminate Hr. }
  destruct (concat_separator_free "|" _ _ (Hfree r1 Hf1) (Hfree r2 Hf2) Heq)
    as [Hsame|[[_ Hb]|[Ha _]]]; [exact Hsame| |].
  - now apply Hne in Hb.
  - now apply Hne in Ha.
Qed.

End RecordStr.

(** For two records whose keys and rendered values hold no separator, the
    string hashed by [_calculate_record_hash] is the same only if they have
    the same keys and, at every key, values that [str()] renders alike. *)
Theorem record_str_injective_without_separators (r1 r2 : record) (k : string) :
  wf_dict r1 -> wf_dict r2 ->
  free_of_separators r1 -> free_of_separators r2 ->
  record_str r1 = record_str r2 ->
  option_map str (dict_get r1 k) = option_map str (dict_get r2 k).
Proof.
  intros Hwf1 Hwf2 Hf1 Hf2 Heq.
  pose proof (record_str_rendered r1 r2 Hf1 Hf2 Heq) as Hmap.
  assert (Hcolon : forall r, free_of_separators r ->
            Forall (fun kv => mentions ":" (fst kv) = false) (sorted_items r)).
  { intros r Hf. apply free_sorted. eapply Forall_impl; [exact Hf|]. now intros kv (_ & ? & _). }
  destruct (dict_get r1 k) as [v1|] eqn:H1, (dict_get r2 k) as [v2|] eqn:H2; cbn.
  - destruct (rendered_lookup r1 r2 k v1 Hwf2 (Hcolon r1 Hf1) (Hcolon r2 Hf2) Hmap H1)
      as (v' & Hget & Hv). congruence.
  - destruct (rendered_lookup r1 r2 k v1 Hwf2 (Hcolon r1 Hf1) (Hcolon r2 Hf2) Hmap H1)
      as (v' & Hget & Hv). congruence.
  - destruct (rendered_lookup r2 r1 k v2 Hwf1 (Hcolon r2 Hf2) (Hcolon r1 Hf1)
                (eq_sym Hmap) H2) as (v' & Hget & Hv). congruence.
  - reflexivity.
Qed.

(** ** The theorems above at concrete inputs *)

Lemma merge_of_unchanged_batch_changes_nothing_witness :
  let staged := [sample_row "x" "h2" None None] in
  let merged := merge_rows 1 true ["id"; "name"] staged [sample_row "x" "h1" None None] in
  merge_rows 2 true ["id"; "name"] staged merged = merged.
Proof.
  cbv zeta.
  apply (merge_of_unchanged_batch_changes_nothing 1 2 true ["id"; "name"] ["id"; "name"]
           [sample_row "x" "h2" None None] [sample_row "x" "h2" None None]).
  - repeat constructor. apply not_elem_of_nil.
  - reflexivity.
Defined.

Lemma current_view_after_tracked_merge_witness :
  length (current_rows "x" (merge_rows 1 true ["id"; "name"]
                              [sample_row "x" "h2" None None] [])) = 1%nat.
Proof.
  apply (current_view_after_tracked_merge 1 ["id"; "name"]
           [sample_row "x" "h2" None None] [] "x").
  - constructor.
  - repeat constructor. apply not_elem_of_nil.
  - left. reflexivity.
Defined.



Lemma replace_mode_appends_small_batches_witness :
  let w := world_of {[ ("public", "emp") := PlainRel [alice] ]} [] in
  exists result w',
    load_data (with_write_mode (plain_config "append" None) "replace") [bob] w
    = (Returns result, w')
    /\ status result = "success"
    /\ target_of w' = Some (PlainRel [alice; bob]).
Proof.
  cbv zeta.
  rewrite (replace_mode_appends_small_batches (plain_config "append" None) [bob]
             (world_of {[ ("public", "emp") := PlainRel [alice] ]} []));
    [|vm_compute; discriminate].
  eexists _, _. split; [vm_compute; reflexivity|].
  split; [reflexivity|vm_compute; reflexivity].
Defined.

Lemma load_above_threshold_never_succeeds_witness :
  let w := world_of {[ ("public", "emp") := PlainRel [alice] ]} [] in
  let run := load_data (shadow_config "replace") [alicia; bob] w in
  db (snd run) = db w
  /\ forall result, fst run = Returns result -> status result = "failed".
Proof.
  cbv zeta.
  apply (load_above_threshold_never_succeeds (shadow_config "replace")
           (constructed (shadow_config "replace")) [alicia; bob]
           (world_of {[ ("public", "emp") := PlainRel [alice] ]} [])).
  - vm_compute. reflexivity.
  - vm_compute. discriminate.
  - discriminate.
  - vm_compute. reflexivity.
  - vm_compute. reflexivity.
  - apply surjective_pairing.
Defined.

Lemma load_data_raises_only_before_load_witness :
  let w := world_of ∅ [0%nat] in
  exists self e w',
    DestinationFactory.create (plain_config "truncate" None) w = (Returns self, w)
    /\ pre_load_hook self [bob] w = (Raises e, w').
Proof.
  cbv zeta.
  destruct (load_data_raises_only_before_load (plain_config "truncate" None) [bob]
              (world_of ∅ [0%nat])
              (snd (load_data (plain_config "truncate" None) [bob] (world_of ∅ [0%nat])))
              (DatabaseError "could not connect"))
    as [Hinit|(self & Hinit & Hpre)].
  - vm_compute. reflexivity.
  - vm_compute in Hinit. discriminate Hinit.
  - eauto.
Defined.

Lemma deduplicate_keeps_a_distinct_batch_witness :
  ValidateDuplicateIds._deduplicate keep_last [alice; bob] ∅ = [alice; bob].
Proof.
  apply deduplicate_keeps_a_distinct_batch.
  - right. reflexivity.
  - apply (@bool_decide_unpack _ _). vm_compute. exact I.
Defined.

Lemma transform_returns_distinct_ids_witness :
  has_duplicates ["id"] [alice; alicia; bob] = true
  /\ NoDup (map (id_tuple ["id"]) [alicia; bob]).
Proof.
  split; [vm_compute; reflexivity|].
  apply (transform_returns_distinct_ids keep_last [alice; alicia; bob] [alicia; bob]).
  - right. reflexivity.
  - vm_compute. reflexivity.
Defined.

Lemma id_str_injective_without_separator_witness :
  id_tuple ["id"; "region"] alice = id_tuple ["id"; "region"] alicia.
Proof.
  apply id_str_injective_without_separator.
  - repeat constructor.
  - repeat constructor.
  - reflexivity.
Defined.

Lemma record_str_injective_without_separators_witness :
  option_map str (dict_get [("id", PyInt 1)] "id")
  = option_map str (dict_get [("id", PyStr "1")] "id").
Proof.
  apply record_str_injective_without_separators.
  - by_decide.
  - by_decide.
  - repeat constructor.
  - repeat constructor.
  - vm_compute. reflexivity.
Defined.

Lemma historize_reload_changes_nothing_witness :
  let merged := merge_rows 50 true ["id"; "name"] [staged_of alice; staged_of bob] [] in
  let w := world_of {[ ("public", "emp") := HistRel merged ]} [] in
  exists result w',
    load_data (historize_config ["id"]) [alice; bob] w = (Returns result, w')
    /\ status result = "success"
    /\ target_of w' = Some (HistRel merged).
Proof.
  cbv zeta.
  destruct (historize_reload_changes_nothing (historize_config ["id"])
              (constructed (historize_config ["id"])) [alice; bob]
              (world_of {[ ("public", "emp") :=
                             HistRel (merge_rows 50 true ["id"; "name"]
                                        [staged_of alice; staged_of bob] []) ]} [])
              alice [bob] 50 ["id"; "name"] [staged_of alice; staged_of bob] [])
    as (result & w' & Hrun & Hstatus & _ & Hdb).
  - vm_compute. reflexivity.
  - intros k. reflexivity.
  - reflexivity.
  - reflexivity.
  - vm_compute. discriminate.
  - apply (bool_decide_unpack (NoDup _)). vm_compute. exact I.
  - repeat constructor.
  - vm_compute. reflexivity.
  - reflexivity.
  - exists result, w'. split; [exact Hrun|]. split; [exact Hstatus|].
    unfold target_of. rewrite Hdb. vm_compute. reflexivity.
Defined.
